(** * money-and-odds: the [Money] and [Odds] value classes

    A shallow embedding of the two TypeScript classes of the repository
    ([money.ts], [odds.ts]) together with the part of the ECMAScript
    runtime they rely on, and the properties of the specification that
    were checked against them.

    JavaScript numbers are IEEE 754 binary64 values: they are modelled by
    Rocq's primitive [float], whose operations are the processor's.
    Strings are [string]; an exception is an explicit result. *)

From Stdlib Require Import ZArith QArith Qround List String Ascii Bool Lia Floats.
Import ListNotations.

Set Warnings "-inexact-float".
Local Open Scope string_scope.
Local Open Scope Z_scope.

(* ================================================================= *)
(** * Results and exceptions *)

Inductive result (E A : Type) : Type :=
| Ok (a : A)
| Throw (e : E).
Arguments Ok {E A} a.
Arguments Throw {E A} e.

Definition bind {E A B} (r : result E A) (k : A -> result E B) : result E B :=
  match r with
  | Ok a => k a
  | Throw e => Throw e
  end.

Notation "x <- r ;; k" := (bind r (fun x => k))
  (at level 61, r at next level, right associativity).
Notation "r ;;; k" := (bind r (fun _ => k))
  (at level 61, right associativity).

Definition is_ok {E A} (r : result E A) : bool :=
  match r with Ok _ => true | Throw _ => false end.

(* ================================================================= *)
(** * The ECMAScript runtime used by the two classes *)

Module JS.

(** ** Numbers *)

Definition number := float.
Bind Scope float_scope with number.

Definition isNaN_num (x : number) : bool := PrimFloat.is_nan x.
Definition isFinite_num (x : number) : bool := PrimFloat.is_finite x.

(** [x === y] and the relational operators on numbers are the IEEE ones. *)
Definition num_eq (x y : number) : bool := PrimFloat.eqb x y.
Definition num_lt (x y : number) : bool := PrimFloat.ltb x y.
Definition num_le (x y : number) : bool := PrimFloat.leb x y.
Definition num_gt (x y : number) : bool := PrimFloat.ltb y x.
Definition num_ge (x y : number) : bool := PrimFloat.leb y x.

(** *** The Number value of a mathematical value

    [nearest_sf neg a b] is the binary64 value nearest to the rational
    [a / b] (with [a], [b] positive), ties to even, with sign [neg]: the
    rounding the language prescribes for numeric literals and for
    [StringToNumber]. *)

(** [2^j <= a / b] *)
Definition ge_pow2 (a b j : Z) : bool :=
  if 0 <=? j then b * 2 ^ j <=? a else b <=? a * 2 ^ (- j).

(** The binary exponent [mu] of [a / b]: [2^(mu-1) <= a / b < 2^mu]. *)
Definition mag2 (a b : Z) : Z :=
  let d := Z.log2 a - Z.log2 b in
  if ge_pow2 a b d then d + 1 else d.

Definition nearest_sf (neg : bool) (a b : Z) : spec_float :=
  if (a <=? 0) || (b <=? 0) then S754_zero neg else
  let e := Z.max (mag2 a b - prec) emin in
  let n := if 0 <=? e then a else a * 2 ^ (- e) in
  let d := if 0 <=? e then b * 2 ^ e else b in
  let q := n / d in
  let r := n mod d in
  let m := if 2 * r <? d then q
           else if d <? 2 * r then q + 1
           else if Z.even q then q else q + 1 in
  if m =? 0 then S754_zero neg else
  let '(m', e') := if m =? 2 ^ prec then (2 ^ (prec - 1), e + 1) else (m, e) in
  if emax - prec <? e' then S754_infinity neg
  else S754_finite neg (Z.to_pos m') e'.

Definition nearest (neg : bool) (a b : Z) : number :=
  SF2Prim (nearest_sf neg a b).

(** The Number value of an integer. *)
Definition of_Z (n : Z) : number := nearest (n <? 0) (Z.abs n) 1.

(** The exact value of a finite number [m * 2^e], as a fraction. *)
Definition exact_num (m : positive) (e : Z) : Z :=
  if 0 <=? e then Z.pos m * 2 ^ e else Z.pos m.
Definition exact_den (e : Z) : Z :=
  if 0 <=? e then 1 else 2 ^ (- e).

(** ** Strings *)

Definition is_whitespace (c : ascii) : bool :=
  let n := nat_of_ascii c in
  (Nat.eqb n 9 || Nat.eqb n 10 || Nat.eqb n 11 || Nat.eqb n 12
   || Nat.eqb n 13 || Nat.eqb n 32)%bool.

Fixpoint trim_start (s : string) : string :=
  match s with
  | String c r => if is_whitespace c then trim_start r else s
  | EmptyString => s
  end.

Fixpoint trim_end (s : string) : string :=
  match s with
  | String c r =>
      match trim_end r with
      | EmptyString => if is_whitespace c then EmptyString else String c EmptyString
      | r' => String c r'
      end
  | EmptyString => s
  end.

(** [String.prototype.trim] *)
Definition trim (s : string) : string := trim_end (trim_start s).

Definition lower_char (c : ascii) : ascii :=
  let n := nat_of_ascii c in
  if (Nat.leb 65 n && Nat.leb n 90)%bool then ascii_of_nat (n + 32) else c.

Definition upper_char (c : ascii) : ascii :=
  let n := nat_of_ascii c in
  if (Nat.leb 97 n && Nat.leb n 122)%bool then ascii_of_nat (n - 32) else c.

Fixpoint map_string (f : ascii -> ascii) (s : string) : string :=
  match s with
  | String c r => String (f c) (map_string f r)
  | EmptyString => EmptyString
  end.

Definition toLowerCase : string -> string := map_string lower_char.
Definition toUpperCase : string -> string := map_string upper_char.

(** [s.charAt(0)] *)
Definition charAt0 (s : string) : string :=
  match s with
  | String c _ => String c EmptyString
  | EmptyString => EmptyString
  end.

(** [s.slice(1)] *)
Definition slice1 (s : string) : string :=
  match s with
  | String _ r => r
  | EmptyString => EmptyString
  end.

(** [s.split(sep)] for a one-character separator. *)
Fixpoint split_on (sep : ascii) (s : string) : list string :=
  match s with
  | EmptyString => [EmptyString]
  | String c r =>
      if Ascii.eqb c sep then EmptyString :: split_on sep r
      else match split_on sep r with
           | p :: ps => String c p :: ps
           | [] => [String c EmptyString]
           end
  end.

(** [s] between double quotes, as the error messages show a value. *)
Definition quoted (s : string) : string :=
  String (ascii_of_nat 34) s ++ String (ascii_of_nat 34) EmptyString.

Fixpoint join (sep : string) (l : list string) : string :=
  match l with
  | [] => ""
  | [s] => s
  | s :: r => s ++ sep ++ join sep r
  end.

(** ** Decimal digits *)

Definition digit_char (d : Z) : ascii := ascii_of_nat (48 + Z.to_nat d).

Definition digit_of_char (c : ascii) : option Z :=
  let n := Z.of_nat (nat_of_ascii c) in
  if (48 <=? n) && (n <=? 57) then Some (n - 48) else None.

Fixpoint digits_fuel (fuel : nat) (n : Z) : list Z :=
  match fuel with
  | O => [n]
  | S f => if n <? 10 then [n] else (digits_fuel f (n / 10) ++ [n mod 10])%list
  end.

(** The decimal digits of [n >= 0], most significant first. *)
Definition digits (n : Z) : list Z := digits_fuel (Z.to_nat (Z.log2 n)) n.

Fixpoint string_of_digits (l : list Z) : string :=
  match l with
  | [] => ""
  | d :: r => String (digit_char d) (string_of_digits r)
  end.

Definition zeros (n : nat) : list Z := repeat 0 n.

(** ** StringToNumber (the unary [+] on a string, [Number(s)]) *)

Fixpoint read_digits (s : string) (acc cnt : Z) : Z * Z * string :=
  match s with
  | String c r =>
      match digit_of_char c with
      | Some d => read_digits r (acc * 10 + d) (cnt + 1)
      | None => (acc, cnt, s)
      end
  | EmptyString => (acc, cnt, s)
  end.

Definition is_empty (s : string) : bool :=
  match s with EmptyString => true | _ => false end.

(** An optional exponent part, up to the end of the input. *)
Definition read_exponent (s : string) : option Z :=
  match s with
  | EmptyString => Some 0
  | String c r =>
      if (Ascii.eqb c "e" || Ascii.eqb c "E")%bool then
        let '(neg, r') :=
          match r with
          | String "+" r' => (false, r')
          | String "-" r' => (true, r')
          | _ => (false, r)
          end in
        let '(v, cnt, rest) := read_digits r' 0 0 in
        if (0 <? cnt) && is_empty rest then Some (if neg then - v else v)
        else None
      else None
  end.

(** [StrUnsignedDecimalLiteral] without [Infinity]: the digits read as an
    integer [m] and the power of ten [k] that scales them. *)
Definition read_unsigned_decimal (s : string) : option (Z * Z) :=
  let '(ip, ni, r1) := read_digits s 0 0 in
  match r1 with
  | String "." r2 =>
      let '(fp, nf, r3) := read_digits r2 ip 0 in
      if 0 <? ni + nf then
        match read_exponent r3 with
        | Some ex => Some (fp, ex - nf)
        | None => None
        end
      else None
  | _ =>
      if 0 <? ni then
        match read_exponent r1 with
        | Some ex => Some (ip, ex)
        | None => None
        end
      else None
  end.

Definition radix_digit (radix : Z) (c : ascii) : option Z :=
  let n := Z.of_nat (nat_of_ascii c) in
  let v := if (48 <=? n) && (n <=? 57) then n - 48
           else if (97 <=? n) && (n <=? 122) then n - 87
           else if (65 <=? n) && (n <=? 90) then n - 55
           else radix in
  if v <? radix then Some v else None.

Fixpoint read_radix (radix : Z) (s : string) (acc : Z) : option Z :=
  match s with
  | EmptyString => Some acc
  | String c r =>
      match radix_digit radix c with
      | Some d => read_radix radix r (acc * radix + d)
      | None => None
      end
  end.

(** [NonDecimalIntegerLiteral]: [0x], [0o], [0b] and at least one digit. *)
Definition read_non_decimal (s : string) : option Z :=
  match s with
  | String "0" (String p (String c r)) =>
      let radix :=
        if (Ascii.eqb p "x" || Ascii.eqb p "X")%bool then 16
        else if (Ascii.eqb p "o" || Ascii.eqb p "O")%bool then 8
        else if (Ascii.eqb p "b" || Ascii.eqb p "B")%bool then 2
        else 0 in
      if radix =? 0 then None else read_radix radix (String c r) 0
  | _ => None
  end.

(** The Number value of [m * 10^k]. *)
Definition decimal_value (neg : bool) (m k : Z) : number :=
  if 0 <=? k then nearest neg (m * 10 ^ k) 1 else nearest neg m (10 ^ (- k)).

Definition StringToNumber (s : string) : number :=
  let t := trim s in
  match t with
  | EmptyString => zero
  | String c r =>
      match read_non_decimal t with
      | Some v => of_Z v
      | None =>
          let '(neg, u) :=
            if Ascii.eqb c "-" then (true, r)
            else if Ascii.eqb c "+" then (false, r)
            else (false, t) in
          if String.eqb u "Infinity" then (if neg then neg_infinity else infinity)
          else match read_unsigned_decimal u with
               | Some (m, k) => decimal_value neg m k
               | None => nan
               end
      end
  end.

(** ** Number::toString and Number.prototype.toFixed *)

(** [n] written with [f] digits after the decimal point. *)
Definition fixed_digits (n : Z) (f : nat) : list Z * list Z :=
  let ds := digits n in
  let padded := (zeros (S f - List.length ds) ++ ds)%list in
  let k := (List.length padded - f)%nat in
  (firstn k padded, skipn k padded).

Definition fixed_string (n : Z) (f : nat) : string :=
  let '(ip, fp) := fixed_digits n f in
  match f with
  | O => string_of_digits ip
  | S _ => string_of_digits ip ++ "." ++ string_of_digits fp
  end.

(** The decimal exponent [n] of a positive rational [a / b]:
    [10^(n-1) <= a / b < 10^n]. *)
Fixpoint leading_zeros (fuel : nat) (a b j : Z) : Z :=
  match fuel with
  | O => j
  | S f => if b <=? a * 10 ^ j then j else leading_zeros f a b (j + 1)
  end.

Definition decimal_exponent (a b : Z) : Z :=
  if b <=? a then Z.of_nat (List.length (digits (a / b)))
  else 1 - leading_zeros 400 a b 1.

(** The digits [s] (there are [k] of them) and the exponent [n] laid out
    as Number::toString prescribes. *)
Definition layout (s k n : Z) : string :=
  let ds := digits s in
  if (k <=? n) && (n <=? 21) then
    string_of_digits (ds ++ zeros (Z.to_nat (n - k)))%list
  else if (0 <? n) && (n <=? 21) then
    string_of_digits (firstn (Z.to_nat n) ds) ++ "."
      ++ string_of_digits (skipn (Z.to_nat n) ds)
  else if (-6 <? n) && (n <=? 0) then
    "0." ++ string_of_digits (zeros (Z.to_nat (- n)) ++ ds)%list
  else
    let e := n - 1 in
    let es := (if e <? 0 then "-" else "+") ++ string_of_digits (digits (Z.abs e)) in
    match ds with
    | [d] => string_of_digits [d] ++ "e" ++ es
    | d :: r => string_of_digits [d] ++ "." ++ string_of_digits r ++ "e" ++ es
    | [] => "e" ++ es
    end.

(** The shortest digit string that reads back as [x], whose magnitude
    is [a / b > 0]: for [k = 1, 2, ...] digits try the two [k]-digit
    decimals that enclose the magnitude, the closer one first. *)
Fixpoint shortest (fuel : nat) (k : Z) (x : number) (sign : string) (a b n0 : Z)
  : option string :=
  match fuel with
  | O => None
  | S fuel' =>
      let tn := if n0 <=? k then a * 10 ^ (k - n0) else a in
      let td := if n0 <=? k then b else b * 10 ^ (n0 - k) in
      let lo := tn / td in
      let hi := lo + 1 in
      let c_lo := sign ++ layout lo k n0 in
      let c_hi := sign ++ (if hi =? 10 ^ k then layout (10 ^ (k - 1)) k (n0 + 1)
                           else layout hi k n0) in
      let c1 := if td <? 2 * (tn mod td) then c_hi else c_lo in
      let c2 := if td <? 2 * (tn mod td) then c_lo else c_hi in
      if num_eq (StringToNumber c1) x then Some c1
      else if num_eq (StringToNumber c2) x then Some c2
      else shortest fuel' (k + 1) x sign a b n0
  end.

(** The exact decimal expansion of [m * 2^e]. *)
Definition exact_decimal (m : positive) (e : Z) : string :=
  if 0 <=? e then fixed_string (Z.pos m * 2 ^ e) 0
  else fixed_string (Z.pos m * 5 ^ (- e)) (Z.to_nat (- e)).

(** Number::toString of a finite number other than zero.  Seventeen
    digits always suffice for a binary64 value; the last case only makes
    the definition total. *)
Definition finite_to_string (x : number) (s : bool) (m : positive) (e : Z) : string :=
  let sign := if s then "-" else "" in
  let a := exact_num m e in
  let b := exact_den e in
  match shortest 17 1 x sign a b (decimal_exponent a b) with
  | Some str => str
  | None => sign ++ exact_decimal m e
  end.

Definition NumberToString (x : number) : string :=
  match Prim2SF x with
  | S754_nan => "NaN"
  | S754_zero _ => "0"
  | S754_infinity s => if s then "-Infinity" else "Infinity"
  | S754_finite s m e => finite_to_string x s m e
  end.

(** The integer nearest to [a / b], the larger one on a tie
    ([a >= 0], [b > 0]). *)
Definition round_half_up (a b : Z) : Z := (2 * a + b) / (2 * b).

(** [x.toFixed(f)] *)
Definition toFixed (x : number) (f : nat) : string :=
  match Prim2SF x with
  | S754_finite s m e =>
      if 10 ^ 21 * exact_den e <=? exact_num m e then NumberToString x
      else
        let n := round_half_up (exact_num m e * 10 ^ Z.of_nat f) (exact_den e) in
        (if s then "-" else "") ++ fixed_string n f
  | S754_zero _ => fixed_string 0 f
  | _ => NumberToString x
  end.

(** ** Math.round and the remainder operator *)

Definition Math_round (x : number) : number :=
  match Prim2SF x with
  | S754_finite s m e =>
      if 0 <=? e then x
      else
        let d := 2 ^ (- e) in
        let n := (2 * (if s then Z.neg m else Z.pos m) + d) / (2 * d) in
        if n =? 0 then (if s then neg_zero else zero) else of_Z n
  | _ => x
  end.

(** [a % b] *)
Definition rem (a b : number) : number :=
  match Prim2SF a, Prim2SF b with
  | S754_nan, _ | _, S754_nan => nan
  | S754_infinity _, _ => nan
  | _, S754_zero _ => nan
  | _, S754_infinity _ => a
  | S754_zero _, _ => a
  | S754_finite sa ma ea, S754_finite _ mb eb =>
      let e := Z.min ea eb in
      let r := (Z.pos ma * 2 ^ (ea - e)) mod (Z.pos mb * 2 ^ (eb - e)) in
      if r =? 0 then (if sa then neg_zero else zero)
      else SF2Prim (binary_normalize prec emax (if sa then - r else r) e false)
  end.

(** ** Values *)

(** The values the classes are called with.  [JObj repr] is an object or
    an array, known by the string its [toString()] yields
    ([[object Object]] for a plain object, the joined elements for an
    array). *)
Inductive value : Type :=
| JUndefined
| JNull
| JBool (b : bool)
| JNum (n : number)
| JStr (s : string)
| JObj (repr : string).

Definition typeof (v : value) : string :=
  match v with
  | JUndefined => "undefined"
  | JNull => "object"
  | JBool _ => "boolean"
  | JNum _ => "number"
  | JStr _ => "string"
  | JObj _ => "object"
  end.

(** ToBoolean *)
Definition truthy (v : value) : bool :=
  match v with
  | JUndefined | JNull => false
  | JBool b => b
  | JNum n => negb (PrimFloat.is_zero n || PrimFloat.is_nan n)
  | JStr s => negb (is_empty s)
  | JObj _ => true
  end.

(** ToNumber: the unary [+] *)
Definition ToNumber (v : value) : number :=
  match v with
  | JUndefined => nan
  | JNull => zero
  | JBool b => if b then one else zero
  | JNum n => n
  | JStr s => StringToNumber s
  | JObj repr => StringToNumber repr
  end.

(** ToString: what a template literal interpolates *)
Definition ToString (v : value) : string :=
  match v with
  | JUndefined => "undefined"
  | JNull => "null"
  | JBool b => if b then "true" else "false"
  | JNum n => NumberToString n
  | JStr s => s
  | JObj repr => repr
  end.

(** [v !== 0] *)
Definition strict_neq_zero (v : value) : bool :=
  match v with
  | JNum n => negb (num_eq n zero)
  | _ => true
  end.

(** The global [isNaN] and [isFinite] coerce their argument. *)
Definition isNaN (v : value) : bool := isNaN_num (ToNumber v).
Definition isFinite (v : value) : bool := isFinite_num (ToNumber v).

End JS.

(* ================================================================= *)
(** * The [Money] class *)

Module Money.
Import JS.

Definition DEFAULT_CURRENCY : string := "USD".

(** The error table [ERRORS] of the class, the error [fromUnit] builds in
    place, and the [TypeError] the engine raises when a method is missing
    on its receiver. *)
Inductive Error : Type :=
| E_missingArg
| E_nan (arg : value)
| E_infinity
| E_zeroDivision
| E_invalidType (type : string)
| E_currencyMismatch (currA currB : string)
| E_portionsSum (portions : list number)
| E_comparison (currA currB : string)
| E_conversion (f : value)
| TypeError (msg : string).

Definition message (e : Error) : string :=
  match e with
  | E_missingArg => "Missing required argument."
  | E_nan arg => "Argument " ++ quoted (ToString arg) ++ " is not a number."
  | E_infinity => "Cannot create Money with (-)Infinity"
  | E_zeroDivision => "Division by zero."
  | E_invalidType type =>
      "Cannot perform operation with argument of type " ++ type
        ++ ", it must be an instance of Money."
  | E_currencyMismatch currA currB =>
      "Cannot perform operation, Moneys have different currencies ("
        ++ currA ++ " != " ++ currB ++ ")."
  | E_portionsSum portions =>
      "The portions " ++ quoted (join "," (List.map NumberToString portions))
        ++ " do not add up to 100."
  | E_comparison currA currB => "Cannot compare " ++ currA ++ " to " ++ currB ++ "."
  | E_conversion f => "Unable to convert " ++ quoted (ToString f) ++ " to Money."
  | TypeError msg => msg
  end.

Record t : Type := mk { cents : number; currency : string }.

(** An argument where the class expects another [Money]. *)
Inductive operand : Type :=
| Instance (m : t)
| Other (v : value).

Definition validateInfinity (n : value) : result Error unit :=
  if negb (isFinite n) then Throw E_infinity else Ok tt.

Definition validateMoneyInstance (a : operand) : result Error t :=
  match a with
  | Instance m => Ok m
  | Other v => Throw (E_invalidType (typeof v))
  end.

Definition validateCurrency (a b : t) : result Error unit :=
  if negb (String.eqb (currency a) (currency b))
  then Throw (E_currencyMismatch (currency a) (currency b))
  else Ok tt.

Definition validateNumber (n : value) : result Error unit :=
  if (negb (String.eqb (typeof n) "number") && negb (String.eqb (typeof n) "string"))
     || isNaN n
  then Throw (E_nan n)
  else Ok tt.

(** [cents.toFixed(0)]: only numbers have the method. *)
Definition call_toFixed (v : value) (f : nat) : result Error string :=
  match v with
  | JNum x => Ok (toFixed x f)
  | _ => Throw (TypeError "cents.toFixed is not a function")
  end.

(** The currency the constructor stores: the argument trimmed and in
    upper case, or the default when it is absent or blank. *)
Definition resolved_currency (currency : option string) : string :=
  match currency with
  | Some c =>
      if negb (is_empty c) && (0 <? Z.of_nat (String.length (trim c)))
      then toUpperCase (trim c)
      else DEFAULT_CURRENCY
  | None => DEFAULT_CURRENCY
  end.

(** [new Money(cents, currency)] *)
Definition construct (cents : value) (currency : option string) : result Error t :=
  if negb (truthy cents) && strict_neq_zero cents then Throw E_missingArg else
  validateNumber cents ;;;
  validateInfinity cents ;;;
  fixed <- call_toFixed cents 0 ;;
  Ok {| cents := StringToNumber fixed; currency := resolved_currency currency |}.


Definition missing (a : operand) : bool :=
  match a with
  | Instance _ => false
  | Other v => negb (truthy v)
  end.

Definition plus (this : t) (m : operand) : result Error t :=
  if missing m then Throw E_missingArg else
  m' <- validateMoneyInstance m ;;
  validateCurrency this m' ;;;
  construct (JNum (cents this + cents m')%float) (Some (currency this)).

Definition minus (this : t) (m : operand) : result Error t :=
  if missing m then Throw E_missingArg else
  m' <- validateMoneyInstance m ;;
  validateCurrency this m' ;;;
  construct (JNum (cents this - cents m')%float) (Some (currency this)).

Definition times (this : t) (n : value) : result Error t :=
  if negb (truthy n) && strict_neq_zero n then Throw E_missingArg else
  validateNumber n ;;;
  construct (JNum (cents this * ToNumber n)%float) (Some (currency this)).

Definition divide (this : t) (n : value) : result Error t :=
  if negb (truthy n) && strict_neq_zero n then Throw E_missingArg else
  validateNumber n ;;;
  if num_eq (ToNumber n) zero then Throw E_zeroDivision else
  construct (JNum (cents this / ToNumber n)%float) (Some (currency this)).

Definition perc (this : t) (n : value) : result Error t :=
  if negb (truthy n) && strict_neq_zero n then Throw E_missingArg else
  validateNumber n ;;;
  let result := StringToNumber (toFixed ((cents this * ToNumber n) / 100)%float 0) in
  construct (JNum result) (Some (currency this)).

(** The variables the callback of [split] closes over. *)
Record split_state : Type :=
  mk_state { portionsSum : number; available : number; results : list t }.

(** One call of the [forEach] callback of [split]. *)
Definition split_step (this : t) (st : split_state) (portion : number)
  : result Error split_state :=
  let portionsSum' := (portionsSum st + portion)%float in
  let result := StringToNumber (toFixed ((cents this * portion) / 100)%float 0) in
  if num_gt result (available st) then
    m <- construct (JNum (available st)) (Some (currency this)) ;;
    Ok {| portionsSum := portionsSum';
          available := available st;
          results := (results st ++ [m])%list |}
  else
    let available' := (available st - result)%float in
    m <- construct (JNum result) (Some (currency this)) ;;
    Ok {| portionsSum := portionsSum';
          available := available';
          results := (results st ++ [m])%list |}.

Fixpoint split_loop (this : t) (portions : list number) (st : split_state)
  : result Error split_state :=
  match portions with
  | [] => Ok st
  | portion :: rest =>
      st' <- split_step this st portion ;;
      split_loop this rest st'
  end.

(** [split(portions)]; [None] stands for an argument that is absent or
    not an array. *)
Definition split (this : t) (portions : option (list number)) : result Error (list t) :=
  match portions with
  | None => Throw E_missingArg
  | Some [] => Throw E_missingArg
  | Some ps =>
      st <- split_loop this ps
              {| portionsSum := zero; available := cents this; results := [] |} ;;
      if negb (num_eq (portionsSum st) 100) then Throw (E_portionsSum ps)
      else Ok (results st)
  end.

(** The amounts the callback of [split] hands to [new Money], in order,
    when it starts with the balance [available]. *)
Fixpoint allocations (this : t) (portions : list number) (available : number)
  : list number :=
  match portions with
  | [] => []
  | portion :: rest =>
      let result := StringToNumber (toFixed ((cents this * portion) / 100)%float 0) in
      if num_gt result available then available :: allocations this rest available
      else result :: allocations this rest (available - result)%float
  end.

Definition getSubunit (this : t) : number := cents this.

Definition getUnit (this : t) : number :=
  StringToNumber (toFixed (cents this / 100)%float 2).


Definition eq (this m : t) : bool :=
  num_eq (getUnit this) (getUnit m) && String.eqb (currency this) (currency m).

Definition compare_with (op : number -> number -> bool) (this m : t) : result Error bool :=
  if negb (String.eqb (currency this) (currency m))
  then Throw (E_comparison (currency this) (currency m))
  else Ok (op (getUnit this) (getUnit m)).

Definition lt := compare_with num_lt.
Definition gt := compare_with num_gt.
Definition lte := compare_with num_le.
Definition gte := compare_with num_ge.

End Money.

(* ================================================================= *)
(** * The [Odds] class *)

Module Odds.
Import JS.

Inductive Error : Type :=
| E_unknownFormat (format : string)
| E_invalidPrice (v : value)
| E_invalidFraction (v : value)
| E_invalidAmerican (v : value)
| E_nan (p : number)
| E_negative
| TypeError (msg : string)
| RangeError (msg : string).

Definition message (e : Error) : string :=
  match e with
  | E_unknownFormat format => "Unknown odds format: " ++ quoted format ++ "."
  | E_invalidPrice v =>
      "Invalid value provided for price: " ++ quoted (ToString v) ++ "."
  | E_invalidFraction v =>
      "Invalid value provided for fractional odds: " ++ quoted (ToString v) ++ "."
  | E_invalidAmerican v =>
      "Invalid value provided for american odds: " ++ quoted (ToString v) ++ "."
  | E_nan p =>
      "Decimal odds expect a finite number, received: " ++ quoted (NumberToString p)
  | E_negative => "Decimal odds must be a number greater than 0."
  | TypeError msg => msg
  | RangeError msg => msg
  end.

(** The three fields; [f] holds [null] when [simplifyFraction] gives up. *)
Record t : Type := mk { d : string; f : option string; a : string }.

Definition validateD (p : value) : result Error unit :=
  if negb (String.eqb (typeof p) "string") && negb (String.eqb (typeof p) "number")
  then Throw (E_invalidPrice p)
  else if isNaN p || negb (isFinite p) then Throw (E_nan (ToNumber p))
  else if num_le (ToNumber p) zero then Throw E_negative
  else Ok tt.

(** [parts[i]], [undefined] past the end. *)
Definition part (parts : list string) (i : nat) : value :=
  match nth_error parts i with
  | Some s => JStr s
  | None => JUndefined
  end.

Definition validateF (p : value) : result Error unit :=
  match p with
  | JStr s =>
      let parts := split_on "/" s in
      if negb (Nat.eqb (List.length parts) 2)
         || isNaN (part parts 0) || isNaN (part parts 1)
      then Throw (E_invalidFraction p)
      else Ok tt
  | _ => Throw (E_invalidPrice p)
  end.

Definition validateA (p : value) : result Error unit :=
  match p with
  | JStr s =>
      if Nat.ltb (String.length s) 2 then Throw (E_invalidPrice p)
      else if negb (String.eqb (charAt0 s) "-" || String.eqb (charAt0 s) "+")
              || isNaN (JStr (slice1 s))
      then Throw (E_invalidAmerican p)
      else Ok tt
  | _ => Throw (E_invalidPrice p)
  end.

(** The depth the recursion of [findGreatestCommonDen] may reach before
    the engine gives up. *)
Definition stack_depth : nat := 4096.

Fixpoint findGreatestCommonDen (depth : nat) (a b : number) : result Error number :=
  match depth with
  | O => Throw (RangeError "Maximum call stack size exceeded")
  | S depth' =>
      if truthy (JNum b) then findGreatestCommonDen depth' b (rem a b)
      else Ok a
  end.

Definition simplifyFraction (num den : number) : result Error (option string) :=
  if negb (truthy (JNum den)) || isNaN_num num || isNaN_num den then Ok None
  else
    greatestCommonDen <- findGreatestCommonDen stack_depth num den ;;
    let simplifiedNum := (num / greatestCommonDen)%float in
    let simplifiedDen := (den / greatestCommonDen)%float in
    Ok (Some (NumberToString simplifiedNum ++ "/" ++ NumberToString simplifiedDen)).

(** Decimal to fractional *)
Definition dToF (p : string) : result Error (option string) :=
  let n := StringToNumber p in
  let dec := StringToNumber (toFixed n 2) in
  let num := (Math_round (dec * 100) - 100)%float in
  let den := 100%float in
  simplifyFraction num den.

(** Decimal to american *)
Definition dToA (p : string) : string :=
  let n := StringToNumber p in
  if num_eq n 1 then "-"
  else if num_lt n 2 then NumberToString (Math_round ((-100) / (n - 1))%float)
  else "+" ++ NumberToString (Math_round ((n - 1) * 100)%float).

(** Fractional to decimal *)
Definition fToD (p : string) : string :=
  let parts := split_on "/" p in
  let num := ToNumber (part parts 0) in
  let den := ToNumber (part parts 1) in
  let dec := ((num / den) + 1)%float in
  toFixed dec 2.

(** American to decimal *)
Definition aToD (p : string) : string :=
  let pos := String.eqb (charAt0 p) "+" in
  let n := StringToNumber (slice1 p) in
  let dec := if pos then (1 + (n / 100))%float else (1 - (100 / - n))%float in
  toFixed dec 2.

(** [price.toString()] *)
Definition call_toString (v : value) : result Error string :=
  match v with
  | JUndefined => Throw (TypeError "Cannot read properties of undefined (reading 'toString')")
  | JNull => Throw (TypeError "Cannot read properties of null (reading 'toString')")
  | _ => Ok (ToString v)
  end.

(** [new Odds(price, format)]; [format] is [None] when omitted. *)
Definition construct (price : value) (format : option string) : result Error t :=
  let fmt := match format with Some s => s | None => "" end in
  if is_empty fmt || String.eqb (charAt0 (toLowerCase fmt)) "d" then
    validateD price ;;;
    let d := toFixed (ToNumber price) 2 in
    f <- dToF (toFixed (ToNumber price) 3) ;;
    let a := dToA (toFixed (ToNumber price) 3) in
    Ok {| d := d; f := f; a := a |}
  else if String.eqb (charAt0 (toLowerCase fmt)) "f" then
    s <- call_toString price ;;
    validateF (JStr s) ;;;
    s1 <- call_toString price ;;
    s2 <- call_toString price ;;
    let d := fToD s2 in
    let a := dToA d in
    Ok {| d := d; f := Some s1; a := a |}
  else if String.eqb (charAt0 (toLowerCase fmt)) "a" then
    s <- call_toString price ;;
    validateA (JStr s) ;;;
    s1 <- call_toString price ;;
    s2 <- call_toString price ;;
    let d := aToD s2 in
    f <- dToF (toFixed (StringToNumber d) 3) ;;
    Ok {| d := d; f := f; a := s1 |}
  else Throw (E_unknownFormat fmt).

End Odds.

(* ================================================================= *)
(** * Notions the statements and their proofs use *)

Import JS.

(** ** Values of numbers *)



(** The integer nearest to a finite number, halves away from zero,
    computed on the fraction. *)
Definition nearest_integer (x : number) : Z :=
  match Prim2SF x with
  | S754_finite s m e =>
      let n := round_half_up (exact_num m e) (exact_den e) in
      if s then - n else n
  | _ => 0
  end.

(** [y] is finite and its value is the integer [z]. *)
Definition integer_value (y : number) (z : Z) : Prop :=
  match Prim2SF y with
  | S754_zero _ => z = 0
  | S754_finite s m e => exact_num m e = Z.abs z * exact_den e /\ s = (z <? 0)
  | _ => False
  end.

(** A zero or a finite number, as a specification-level float. *)
Definition is_number_sf (x : spec_float) : Prop :=
  match x with
  | S754_zero _ | S754_finite _ _ _ => True
  | _ => False
  end.

(** [Number.MAX_SAFE_INTEGER] *)
Definition MAX_SAFE_INTEGER : Z := 2 ^ 53 - 1.

(** ** Values of [Money] *)

(** A [Money] that the constructor built. *)
Definition constructed (m : Money.t) : Prop :=
  exists v c, Money.construct v c = Ok m.

(** The integer amount a [Money] holds. *)
Definition amount (m : Money.t) : Z := nearest_integer (Money.cents m).

(** ** Rounding to binary64 *)

(** [2^j <= a / b], as a proposition *)
Definition GE (a b j : Z) : Prop :=
  if 0 <=? j then b * 2 ^ j <= a else b <= a * 2 ^ (- j).

(** The mantissa [nearest_sf] keeps: the quotient or its successor. *)
Definition round_even (q r d : Z) : Z :=
  if 2 * r <? d then q
  else if d <? 2 * r then q + 1
  else if Z.even q then q else q + 1.

(** A mantissa that was shifted without losing a bit. *)
Definition exact_record (m : Z) : shr_record :=
  {| shr_m := m; shr_r := false; shr_s := false |}.

(** ** Digits and strings *)

Definition is_digit (d : Z) : Prop := 0 <= d < 10.

(** Reading one more decimal digit. *)
Definition step (acc d : Z) : Z := acc * 10 + d.

Fixpoint all_chars (p : ascii -> bool) (s : string) : bool :=
  match s with
  | EmptyString => true
  | String c r => p c && all_chars p r
  end.

Definition solid (c : ascii) : bool := negb (is_whitespace c).

(** What follows the integer digits of a number in fixed notation. *)
Definition tail_shape (t : string) : Prop :=
  t = "" \/ exists fp, t = String "." (string_of_digits fp) /\ Forall is_digit fp.

Definition starts_solid (s : string) : Prop :=
  match s with
  | EmptyString => True
  | String c _ => is_whitespace c = false
  end.

(** ** Arguments of the methods of [Money] *)

(** The guard [!n && n !== 0] followed by [validateNumber(n)] lets [n]
    through. *)
Definition numeric_argument (n : value) : bool :=
  negb (negb (truthy n) && strict_neq_zero n)
  && negb ((negb (String.eqb (typeof n) "number")
            && negb (String.eqb (typeof n) "string")) || isNaN n).

(** The error of an argument that is not let through. *)
Definition argument_error (n : value) : Money.Error :=
  if negb (truthy n) && strict_neq_zero n then Money.E_missingArg else Money.E_nan n.

(** ** Comparisons *)

(** The relational operators, read off one three-way comparison. *)
Definition is_lt (c : comparison) : bool := match c with Lt => true | _ => false end.

Definition is_eq (c : comparison) : bool := match c with Eq => true | _ => false end.

Definition is_gt (c : comparison) : bool := match c with Gt => true | _ => false end.

(** ** Signs and magnitudes of numbers *)

(** A zero, or a positive number or infinity. *)
Definition nonneg_sf (x : spec_float) : Prop :=
  match x with
  | S754_zero _ => True
  | S754_infinity s | S754_finite s _ _ => s = false
  | S754_nan => False
  end.

(** The value of a finite number in units of [2^-1074], sign apart. *)
Definition scaled (x : number) (n : Z) : Prop :=
  match Prim2SF x with
  | S754_zero _ => n = 0
  | S754_finite _ m e => n = Z.pos m * 2 ^ (e + 1074)
  | _ => False
  end.

(** ** Prices with two decimals, and what they convert to *)

(** The integers [lo], [lo + 1], ..., [lo + n - 1]. *)
Definition range (lo : Z) (n : nat) : list Z :=
  List.map (fun i => lo + Z.of_nat i) (seq 0 n).

(** [k / 100] written with two decimals, and a whole number written out. *)
Definition two_decimals (k : Z) : string := fixed_string k 2.

Definition whole (n : Z) : string := fixed_string n 0.

(** [n / d] in lowest terms. *)
Definition lowest_terms (n d : Z) : string :=
  let g := Z.gcd n d in whole (n / g) ++ "/" ++ whole (d / g).

(** The american quote of the decimal price [k / 100], for [100 < k]:
    [100 * (price - 1)] with a plus sign from [2.00] on, and below it
    [100 / (price - 1)], rounded to the nearest whole number, with a
    minus sign. *)
Definition american_quote (k : Z) : string :=
  if k <? 200
  then "-" ++ whole (- ((2 * (-10000) + (k - 100)) / (2 * (k - 100))))
  else "+" ++ whole (k - 100).

(** The decimal field of the [Odds] built from [price] in the format
    [fmt] is [d]. *)
Definition reads_back (fmt price d : string) : bool :=
  match Odds.construct (JStr price) (Some fmt) with
  | Ok o => String.eqb (Odds.d o) d
  | Throw _ => false
  end.

(** The [Odds] of the decimal price [k / 100] hold the three expected
    fields, and the fractional and the american field read back as the
    same decimal price. *)
Definition agrees (k : Z) : bool :=
  match Odds.construct (JNum (StringToNumber (two_decimals k))) (Some "d") with
  | Ok o =>
      String.eqb (Odds.d o) (two_decimals k)
      && match Odds.f o with
         | Some s => String.eqb s (lowest_terms (k - 100) 100)
         | None => false
         end
      && String.eqb (Odds.a o) (american_quote k)
  | Throw _ => false
  end
  && reads_back "f" (lowest_terms (k - 100) 100) (two_decimals k)
  && reads_back "a" (american_quote k) (two_decimals k).

(* ================================================================= *)
(** * Properties checked on concrete inputs *)

Import JS.

(** [C1] The amounts [split] returns do not always add up to the amount
    split: ten subunits split 33/33/34 come back as 3, 3 and 3.  Every
    share is rounded on its own and nothing hands out what rounding down
    left over. *)
Theorem split_loses_the_subunits_rounded_down :
  exists A parts,
    Money.construct (JNum 10) None = Ok A /\
    num_eq (0 + 33 + 33 + 34) 100 = true /\
    Money.split A (Some [33; 33; 34]%float) = Ok parts /\
    List.map Money.getSubunit parts = [3; 3; 3]%float /\
    num_eq (fold_left PrimFloat.add (List.map Money.getSubunit parts) 0%float)
           (Money.getSubunit A) = false.
Proof.
  eexists; eexists.
  split; [vm_compute; reflexivity|].
  split; [vm_compute; reflexivity|].
  split; [vm_compute; reflexivity|].
  split; vm_compute; reflexivity.
Qed.

(** [C3] The four representative prices of the specification are
    converted to the triples it lists. *)
Theorem odds_representative_triples :
  Odds.construct (JNum 3.75) (Some "d")
    = Ok {| Odds.d := "3.75"; Odds.f := Some "11/4"; Odds.a := "+275" |} /\
  Odds.construct (JStr "1/5") (Some "f")
    = Ok {| Odds.d := "1.20"; Odds.f := Some "1/5"; Odds.a := "-500" |} /\
  Odds.construct (JStr "+125") (Some "a")
    = Ok {| Odds.d := "2.25"; Odds.f := Some "5/4"; Odds.a := "+125" |} /\
  Odds.construct (JNum 1) (Some "d")
    = Ok {| Odds.d := "1.00"; Odds.f := Some "0/1"; Odds.a := "-" |}.
Proof.
  repeat split; vm_compute; reflexivity.
Qed.

(** [C8] With the fractional or the american format a price that is
    neither a string nor a number is not reported as an invalid price:
    [price.toString()] runs before the validation, so [null] and
    [undefined] stop in the engine and a boolean reaches the validation
    as the string it prints to. *)
Theorem odds_non_string_price_misses_invalidPrice :
  Odds.construct JNull (Some "f")
    = Throw (Odds.TypeError "Cannot read properties of null (reading 'toString')") /\
  Odds.construct JUndefined (Some "a")
    = Throw (Odds.TypeError "Cannot read properties of undefined (reading 'toString')") /\
  Odds.construct (JBool false) (Some "f")
    = Throw (Odds.E_invalidFraction (JStr "false")) /\
  Odds.construct (JBool false) (Some "a")
    = Throw (Odds.E_invalidAmerican (JStr "false")) /\
  Odds.construct (JBool false) (Some "d")
    = Throw (Odds.E_invalidPrice (JBool false)).
Proof.
  repeat split; vm_compute; reflexivity.
Qed.

(** [C10] The fractional format checks the shape of the price only:
    construction succeeds exactly when [validateF] accepts the string.
    So ["-3/2"] is stored with the decimal field ["-0.50"], a price the
    decimal format refuses. *)
Theorem fractional_odds_have_no_positivity_check :
  (forall s, is_ok (Odds.construct (JStr s) (Some "f")) = is_ok (Odds.validateF (JStr s))) /\
  Odds.construct (JStr "-3/2") (Some "f")
    = Ok {| Odds.d := "-0.50"; Odds.f := Some "-3/2"; Odds.a := "67" |} /\
  num_gt (StringToNumber "-0.50") 0 = false /\
  Odds.construct (JStr "-0.50") (Some "d") = Throw Odds.E_negative /\
  Odds.construct (JNum (-0.5)) (Some "d") = Throw Odds.E_negative.
Proof.
  split.
  - intro s. unfold Odds.construct. cbn -[Odds.validateF Odds.fToD Odds.dToA].
    destruct (Odds.validateF (JStr s)) as [[]|e]; reflexivity.
  - repeat split; vm_compute; reflexivity.
Qed.

(* ================================================================= *)
(** * The constructor of [Money] and its argument *)

Section MoneyConstructor.

Variable currency : option string.

Lemma finite_not_nan (x : number) :
  isFinite_num x = true -> PrimFloat.is_nan x = false.
Proof.
  unfold isFinite_num, PrimFloat.is_finite.
  destruct (PrimFloat.is_nan x); [discriminate | reflexivity].
Qed.

(** A finite number is accepted, and stored as [+x.toFixed(0)]. *)
Lemma construct_finite (x : number) :
  isFinite_num x = true ->
  exists m, Money.construct (JNum x) currency = Ok m /\
            Money.cents m = StringToNumber (toFixed x 0).
Proof.
  intro F. pose proof (finite_not_nan x F) as NN.
  unfold Money.construct, Money.validateNumber, Money.validateInfinity.
  unfold truthy, strict_neq_zero, isNaN, isFinite, isNaN_num, num_eq,
    PrimFloat.is_zero, ToNumber.
  rewrite NN, F. cbn.
  destruct (PrimFloat.eqb x zero); cbn; eexists; split; reflexivity.
Qed.

End MoneyConstructor.




(* ================================================================= *)
(** * [split] and the sum of the portions *)

Section Split.

Variable this : Money.t.

Lemma split_loop_sum (ps : list number) :
  forall st st',
    Money.split_loop this ps st = Ok st' ->
    Money.portionsSum st' = fold_left PrimFloat.add ps (Money.portionsSum st).
Proof.
  induction ps as [|p ps IH]; intros st st' H; cbn in H.
  - injection H as <-. reflexivity.
  - unfold bind in H.
    destruct (Money.split_step this st p) as [st1|e] eqn:E1; [|discriminate].
    rewrite (IH _ _ H). cbn [fold_left]. f_equal.
    unfold Money.split_step, bind in E1.
    destruct (num_gt _ _);
      (destruct (Money.construct _ _); [injection E1 as <-; reflexivity | discriminate]).
Qed.

Lemma split_loop_finite (ps : list number) :
  forall st,
    forallb isFinite_num (Money.allocations this ps (Money.available st)) = true ->
    exists st', Money.split_loop this ps st = Ok st'.
Proof.
  induction ps as [|p ps IH]; intros st F;
    cbn [Money.split_loop Money.allocations] in *.
  - eexists; reflexivity.
  - unfold Money.split_step, bind.
    destruct (num_gt _ _); cbn [forallb] in F; apply andb_true_iff in F;
      destruct F as [F1 F2];
      destruct (construct_finite (Some (Money.currency this)) _ F1) as [m [-> _]];
      apply IH; exact F2.
Qed.

End Split.




(* ================================================================= *)
(** * Rounding a fraction to binary64 *)

Lemma pow2_pos k : 0 <= k -> 0 < 2 ^ k.
Proof. intro; apply Z.pow_pos_nonneg; lia. Qed.

Lemma GE_nonneg a b j : 0 <= j -> (GE a b j <-> b * 2 ^ j <= a).
Proof.
  intro H. unfold GE. destruct (Z.leb_spec 0 j); [reflexivity|lia].
Qed.

Lemma ge_pow2_GE a b j : ge_pow2 a b j = true <-> GE a b j.
Proof.
  unfold ge_pow2, GE. destruct (0 <=? j); apply Z.leb_le.
Qed.

Lemma ge_pow2_not_GE a b j : ge_pow2 a b j = false <-> ~ GE a b j.
Proof.
  rewrite <- ge_pow2_GE. destruct (ge_pow2 a b j); split; congruence.
Qed.

Ltac split_pow j i k :=
  let E := fresh "E" in
  assert (2 ^ j = 2 ^ i * 2 ^ k) as E
    by (rewrite <- Z.pow_add_r by lia; f_equal; lia);
  rewrite E; clear E;
  let Pi := fresh "P" in let Pk := fresh "P" in
  pose proof (pow2_pos i ltac:(lia)) as Pi;
  pose proof (pow2_pos k ltac:(lia)) as Pk;
  generalize dependent (2 ^ i); generalize dependent (2 ^ k); intros.

(** When [a / b = (c / d) * 2^k], comparing [a / b] with [2^j] is comparing
    [c / d] with [2^(j-k)]. *)
Lemma GE_transfer a b c d k j :
  0 < a -> 0 < b -> 0 < c -> 0 < d ->
  (if 0 <=? k then a * d = c * 2 ^ k * b else a * d * 2 ^ (- k) = c * b) ->
  GE a b j <-> GE c d (j - k).
Proof.
  intros Ha Hb Hc Hd H. unfold GE.
  destruct (Z.leb_spec 0 k); destruct (Z.leb_spec 0 j);
    destruct (Z.leb_spec 0 (j - k)); try lia.
  - revert H. split_pow j (j - k) k. split; intro; nia.
  - revert H. split_pow k (- (j - k)) j. split; intro; nia.
  - revert H. split_pow (- (j - k)) k (- j). split; intro; nia.
  - revert H. split_pow (j - k) j (- k). split; intro; nia.
  - revert H. split_pow (- k) (j - k) (- j). split; intro; nia.
  - revert H. split_pow (- j) (- (j - k)) (- k). split; intro; nia.
Qed.

Lemma GE_mono a b j j' :
  0 < a -> 0 < b -> GE a b j -> j' <= j -> GE a b j'.
Proof.
  intros Ha Hb H L. unfold GE in *.
  destruct (Z.leb_spec 0 j); destruct (Z.leb_spec 0 j'); try lia.
  - assert (2 ^ j' <= 2 ^ j) by (apply Z.pow_le_mono_r; lia).
    pose proof (pow2_pos j'). nia.
  - pose proof (pow2_pos j). pose proof (pow2_pos (- j')). nia.
  - assert (2 ^ (- j) <= 2 ^ (- j')) by (apply Z.pow_le_mono_r; lia).
    pose proof (pow2_pos (- j)). nia.
Qed.

Lemma GE_unique a b mu nu :
  0 < a -> 0 < b ->
  GE a b (mu - 1) -> ~ GE a b mu -> GE a b (nu - 1) -> ~ GE a b nu -> mu = nu.
Proof.
  intros Ha Hb H1 H2 H3 H4.
  destruct (Z.lt_trichotomy mu nu) as [L|[L|L]]; [|exact L|].
  - exfalso. apply H2. apply (GE_mono a b (nu - 1)); auto; lia.
  - exfalso. apply H4. apply (GE_mono a b (mu - 1)); auto; lia.
Qed.

Lemma GE_log2_below a b :
  0 < a -> 0 < b -> GE a b (Z.log2 a - Z.log2 b - 1).
Proof.
  intros Ha Hb.
  destruct (Z.log2_spec a Ha) as [A1 A2]. destruct (Z.log2_spec b Hb) as [B1 B2].
  pose proof (Z.log2_nonneg a). pose proof (Z.log2_nonneg b).
  unfold GE. set (la := Z.log2 a) in *. set (lb := Z.log2 b) in *.
  destruct (Z.leb_spec 0 (la - lb - 1)).
  - assert (2 ^ la = 2 ^ (la - lb - 1) * 2 ^ Z.succ lb) as E
      by (rewrite <- Z.pow_add_r by lia; f_equal; lia).
    pose proof (pow2_pos (la - lb - 1)). nia.
  - assert (2 ^ Z.succ lb = 2 ^ la * 2 ^ (- (la - lb - 1))) as E
      by (rewrite <- Z.pow_add_r by lia; f_equal; lia).
    pose proof (pow2_pos (- (la - lb - 1))). nia.
Qed.

Lemma GE_log2_above a b :
  0 < a -> 0 < b -> ~ GE a b (Z.log2 a - Z.log2 b + 1).
Proof.
  intros Ha Hb.
  destruct (Z.log2_spec a Ha) as [A1 A2]. destruct (Z.log2_spec b Hb) as [B1 B2].
  pose proof (Z.log2_nonneg a). pose proof (Z.log2_nonneg b).
  unfold GE. set (la := Z.log2 a) in *. set (lb := Z.log2 b) in *.
  destruct (Z.leb_spec 0 (la - lb + 1)).
  - assert (2 ^ Z.succ la = 2 ^ lb * 2 ^ (la - lb + 1)) as E
      by (rewrite <- Z.pow_add_r by lia; f_equal; lia).
    pose proof (pow2_pos (la - lb + 1)). nia.
  - assert (2 ^ lb = 2 ^ Z.succ la * 2 ^ (- (la - lb + 1))) as E
      by (rewrite <- Z.pow_add_r by lia; f_equal; lia).
    pose proof (pow2_pos (- (la - lb + 1))). nia.
Qed.

Lemma mag2_spec a b :
  0 < a -> 0 < b -> GE a b (mag2 a b - 1) /\ ~ GE a b (mag2 a b).
Proof.
  intros Ha Hb. unfold mag2.
  destruct (ge_pow2 a b (Z.log2 a - Z.log2 b)) eqn:E.
  - apply ge_pow2_GE in E. split.
    + replace (Z.log2 a - Z.log2 b + 1 - 1) with (Z.log2 a - Z.log2 b) by lia. exact E.
    + apply GE_log2_above; assumption.
  - apply ge_pow2_not_GE in E. split; [|exact E].
    apply GE_log2_below; assumption.
Qed.

Lemma mag2_unique a b nu :
  0 < a -> 0 < b -> GE a b (nu - 1) -> ~ GE a b nu -> mag2 a b = nu.
Proof.
  intros Ha Hb H1 H2. destruct (mag2_spec a b Ha Hb) as [M1 M2].
  apply (GE_unique a b); assumption.
Qed.

Lemma mag2_le a b : mag2 a b <= Z.log2 a - Z.log2 b + 1.
Proof. unfold mag2. destruct (ge_pow2 _ _ _); lia. Qed.

(** ** The number of binary digits *)

Lemma digits2_size p : digits2_pos p = Pos.size p.
Proof. induction p; simpl; congruence. Qed.

Lemma digits2_log2 p : Z.pos (digits2_pos p) = Z.log2 (Z.pos p) + 1.
Proof.
  rewrite digits2_size. destruct p; simpl; lia.
Qed.

Lemma digits2_bounds p :
  2 ^ (Z.pos (digits2_pos p) - 1) <= Z.pos p < 2 ^ Z.pos (digits2_pos p).
Proof.
  rewrite digits2_log2.
  destruct (Z.log2_spec (Z.pos p)) as [H1 H2]; [lia|].
  replace (Z.log2 (Z.pos p) + 1 - 1) with (Z.log2 (Z.pos p)) by lia.
  split; [exact H1|exact H2].
Qed.

Lemma digits2_unique p k :
  2 ^ (k - 1) <= Z.pos p < 2 ^ k -> Z.pos (digits2_pos p) = k.
Proof.
  intros [H1 H2]. rewrite digits2_log2.
  assert (0 < k).
  { destruct (Z.leb_spec k 0); [|lia].
    assert (2 ^ k <= 2 ^ 0) by (apply Z.pow_le_mono_r; lia). simpl in *. lia. }
  rewrite (Z.log2_unique (Z.pos p) (k - 1)); try lia.
  replace (Z.succ (k - 1)) with k by lia. lia.
Qed.

Lemma fexp_eq x : fexp prec emax x = Z.max (x - 53) (-1074).
Proof. reflexivity. Qed.

Lemma bounded_inv m e :
  bounded prec emax m e = true ->
  Z.max (Z.pos (digits2_pos m) + e - 53) (-1074) = e /\ e <= 971.
Proof.
  unfold bounded, canonical_mantissa. rewrite fexp_eq.
  intro H. apply andb_true_iff in H. destruct H as [H1 H2].
  apply Z.eqb_eq in H1. apply Z.leb_le in H2.
  change (emax - prec) with 971 in H2. split; assumption.
Qed.

Lemma bounded_intro m e :
  Z.max (Z.pos (digits2_pos m) + e - 53) (-1074) = e -> e <= 971 ->
  bounded prec emax m e = true.
Proof.
  unfold bounded, canonical_mantissa. rewrite fexp_eq.
  intros H1 H2. apply andb_true_iff. split.
  - apply Z.eqb_eq. exact H1.
  - apply Z.leb_le. exact H2.
Qed.

(** ** [nearest_sf] on a value that is a binary64 number *)

Lemma nearest_sf_exact neg a b m e :
  0 < a -> 0 < b ->
  bounded prec emax m e = true ->
  a * exact_den e = exact_num m e * b ->
  nearest_sf neg a b = S754_finite neg m e.
Proof.
  intros Ha Hb B E.
  destruct (bounded_inv m e B) as [C L].
  pose proof (digits2_bounds m) as D.
  set (dg := Z.pos (digits2_pos m)) in *.
  assert (0 < dg) by (unfold dg; lia).
  assert (T : forall j, GE a b j <-> GE (Z.pos m) 1 (j - e)).
  { intro j. apply GE_transfer; try lia.
    unfold exact_den, exact_num in E. destruct (0 <=? e); lia. }
  assert (M : mag2 a b = dg + e).
  { apply mag2_unique; auto.
    - apply T. unfold GE. replace (dg + e - 1 - e) with (dg - 1) by lia.
      destruct (Z.leb_spec 0 (dg - 1)); lia.
    - rewrite T. unfold GE. replace (dg + e - e) with dg by lia.
      destruct (Z.leb_spec 0 dg); lia. }
  assert (dg <= 53) by lia.
  assert (Z.pos m < 2 ^ 53).
  { assert (2 ^ dg <= 2 ^ 53) by (apply Z.pow_le_mono_r; lia). lia. }
  unfold nearest_sf.
  assert ((a <=? 0) || (b <=? 0) = false) as ->.
  { apply orb_false_iff; split; apply Z.leb_gt; lia. }
  rewrite M.
  change (Z.max (dg + e - prec) (SpecFloat.emin prec emax))
    with (Z.max (dg + e - 53) (-1074)).
  change (emax - prec) with 971. change (2 ^ prec) with (2 ^ 53).
  replace (Z.max (dg + e - 53) (-1074)) with e by lia.
  unfold exact_den, exact_num in E.
  destruct (Z.leb_spec 0 e).
  - pose proof (pow2_pos e).
    assert (a = Z.pos m * (b * 2 ^ e)) as -> by lia.
    rewrite Z.div_mul by nia. rewrite Z.mod_mul by nia.
    assert ((2 * 0 <? b * 2 ^ e) = true) as -> by (apply Z.ltb_lt; nia).
    assert ((Z.pos m =? 0) = false) as -> by (apply Z.eqb_neq; lia).
    assert ((Z.pos m =? 2 ^ 53) = false) as -> by (apply Z.eqb_neq; lia).
    assert ((971 <? e) = false) as -> by (apply Z.ltb_ge; lia).
    reflexivity.
  - rewrite E.
    rewrite Z.div_mul by lia. rewrite Z.mod_mul by lia.
    assert ((2 * 0 <? b) = true) as -> by (apply Z.ltb_lt; lia).
    assert ((Z.pos m =? 0) = false) as -> by (apply Z.eqb_neq; lia).
    assert ((Z.pos m =? 2 ^ 53) = false) as -> by (apply Z.eqb_neq; lia).
    assert ((971 <? e) = false) as -> by (apply Z.ltb_ge; lia).
    reflexivity.
Qed.

Lemma round_even_bounds q r d : q <= round_even q r d <= q + 1.
Proof.
  unfold round_even.
  destruct (2 * r <? d); [lia|]. destruct (d <? 2 * r); [lia|].
  destruct (Z.even q); lia.
Qed.

Lemma nearest_sf_unfold neg a b :
  0 < a -> 0 < b ->
  let e := Z.max (mag2 a b - 53) (-1074) in
  let n := if 0 <=? e then a else a * 2 ^ (- e) in
  let d := if 0 <=? e then b * 2 ^ e else b in
  let m := round_even (n / d) (n mod d) d in
  nearest_sf neg a b =
    if m =? 0 then S754_zero neg
    else if m =? 2 ^ 53 then
      (if 971 <? e + 1 then S754_infinity neg
       else S754_finite neg (Z.to_pos (2 ^ 52)) (e + 1))
    else if 971 <? e then S754_infinity neg
    else S754_finite neg (Z.to_pos m) e.
Proof.
  intros Ha Hb e n d m. unfold nearest_sf.
  assert ((a <=? 0) || (b <=? 0) = false) as ->
    by (apply orb_false_iff; split; apply Z.leb_gt; lia).
  change (Z.max (mag2 a b - prec) (SpecFloat.emin prec emax)) with e.
  fold n d. change (emax - prec) with 971. change (2 ^ prec) with (2 ^ 53).
  change (2 ^ (prec - 1)) with (2 ^ 52).
  fold (round_even (n / d) (n mod d) d). fold m.
  destruct (m =? 0); [reflexivity|].
  destruct (m =? 2 ^ 53); reflexivity.
Qed.

Lemma scaled_GE a b e j :
  0 < a -> 0 < b ->
  let n := if 0 <=? e then a else a * 2 ^ (- e) in
  let d := if 0 <=? e then b * 2 ^ e else b in
  0 < n /\ 0 < d /\ (GE n d j <-> GE a b (j + e)).
Proof.
  intros Ha Hb n d.
  assert (0 < n /\ 0 < d) as [Hn Hd].
  { unfold n, d. destruct (Z.leb_spec 0 e).
    - pose proof (pow2_pos e). split; nia.
    - pose proof (pow2_pos (- e)). split; nia. }
  split; [exact Hn|]. split; [exact Hd|].
  replace (j + e) with (j - - e) by lia.
  apply GE_transfer; try assumption.
  unfold n, d.
  destruct (Z.leb_spec 0 e); destruct (Z.leb_spec 0 (- e)); try lia.
  - assert (e = 0) as -> by lia. simpl. lia.
  - replace (- - e) with e by lia. lia.
Qed.

Lemma nearest_sf_valid neg a b : valid_binary (nearest_sf neg a b) = true.
Proof.
  destruct (Z.leb_spec a 0) as [Ha|Ha].
  { unfold nearest_sf. assert ((a <=? 0) = true) as -> by (apply Z.leb_le; lia).
    reflexivity. }
  destruct (Z.leb_spec b 0) as [Hb|Hb].
  { unfold nearest_sf. assert ((b <=? 0) = true) as -> by (apply Z.leb_le; lia).
    rewrite orb_true_r. reflexivity. }
  rewrite (nearest_sf_unfold neg a b Ha Hb).
  destruct (mag2_spec a b Ha Hb) as [M1 M2].
  set (mu := mag2 a b) in *. set (e := Z.max (mu - 53) (-1074)).
  destruct (scaled_GE a b e 53 Ha Hb) as [Hn [Hd T53]].
  destruct (scaled_GE a b e 52 Ha Hb) as [_ [_ T52]].
  set (n := if 0 <=? e then a else a * 2 ^ (- e)) in *.
  set (d := if 0 <=? e then b * 2 ^ e else b) in *.
  pose proof (round_even_bounds (n / d) (n mod d) d) as R.
  set (m := round_even (n / d) (n mod d) d) in *.
  assert (U : n / d < 2 ^ 53).
  { apply Z.div_lt_upper_bound; [lia|].
    destruct (Z.lt_ge_cases n (d * 2 ^ 53)) as [L|L]; [exact L|].
    exfalso. apply M2. apply (GE_mono a b (53 + e)); try lia.
    apply T53. apply GE_nonneg; [lia|exact L]. }
  assert (Q0 : 0 <= n / d) by (apply Z.div_pos; lia).
  assert (Lo : e = mu - 53 -> 2 ^ 52 <= n / d).
  { intro E. apply Z.div_le_lower_bound; [lia|].
    assert (GE n d 52) as G.
    { apply T52. replace (52 + e) with (mu - 1) by lia. exact M1. }
    apply (proj1 (GE_nonneg n d 52 ltac:(lia)) G). }
  destruct (Z.eqb_spec m 0); [reflexivity|].
  destruct (Z.eqb_spec m (2 ^ 53)).
  - destruct (Z.ltb_spec 971 (e + 1)); [reflexivity|].
    apply bounded_intro; [|lia].
    change (Z.pos (digits2_pos (Z.to_pos (2 ^ 52)))) with 53. lia.
  - destruct (Z.ltb_spec 971 e); [reflexivity|].
    assert (0 < m < 2 ^ 53) as Hm by lia.
    apply bounded_intro; [|lia].
    pose proof (digits2_bounds (Z.to_pos m)) as D.
    rewrite Z2Pos.id in D by lia.
    set (dg := Z.pos (digits2_pos (Z.to_pos m))) in *.
    assert (dg <= 53).
    { destruct (Z.le_gt_cases dg 53); [assumption|].
      assert (2 ^ 53 <= 2 ^ (dg - 1)) by (apply Z.pow_le_mono_r; lia). lia. }
    destruct (Z.eq_dec e (-1074)) as [E|E]; [lia|].
    assert (e = mu - 53) as E' by lia.
    assert (dg = 53).
    { unfold dg. apply digits2_unique. rewrite Z2Pos.id by lia.
      specialize (Lo E'). change (53 - 1) with 52. lia. }
    lia.
Qed.

Lemma nearest_sf_finite neg a b :
  Z.log2 a - Z.log2 b <= 1000 -> is_number_sf (nearest_sf neg a b).
Proof.
  intro L.
  destruct (Z.leb_spec a 0) as [Ha|Ha].
  { unfold nearest_sf. assert ((a <=? 0) = true) as -> by (apply Z.leb_le; lia).
    exact I. }
  destruct (Z.leb_spec b 0) as [Hb|Hb].
  { unfold nearest_sf. assert ((b <=? 0) = true) as -> by (apply Z.leb_le; lia).
    rewrite orb_true_r. exact I. }
  rewrite (nearest_sf_unfold neg a b Ha Hb).
  pose proof (mag2_le a b).
  set (e := Z.max (mag2 a b - 53) (-1074)).
  assert (e <= 950) by lia.
  destruct (_ =? 0); [exact I|].
  destruct (_ =? 2 ^ 53).
  - assert ((971 <? e + 1) = false) as -> by (apply Z.ltb_ge; lia). exact I.
  - assert ((971 <? e) = false) as -> by (apply Z.ltb_ge; lia). exact I.
Qed.


(** The binary64 number of a small integer *)
Lemma canonical_integer n :
  0 < n < 2 ^ 53 ->
  exists m e, bounded prec emax m e = true /\ e <= 0 /\ Z.pos m = n * 2 ^ (- e).
Proof.
  intro Hn.
  set (dg := Z.log2 n + 1).
  pose proof (Z.log2_nonneg n).
  assert (dg <= 53).
  { destruct (Z.log2_spec n ltac:(lia)) as [L1 L2].
    destruct (Z.le_gt_cases dg 53); [assumption|].
    assert (2 ^ 53 <= 2 ^ Z.log2 n) by (apply Z.pow_le_mono_r; lia). lia. }
  pose proof (pow2_pos (53 - dg) ltac:(lia)).
  exists (Z.to_pos (n * 2 ^ (53 - dg))), (dg - 53).
  assert (Z.pos (Z.to_pos (n * 2 ^ (53 - dg))) = n * 2 ^ (53 - dg)) as P
    by (apply Z2Pos.id; nia).
  split; [|split].
  - apply bounded_intro; [|lia].
    rewrite digits2_log2, P.
    rewrite Z.log2_mul_pow2 by lia. unfold dg. lia.
  - lia.
  - rewrite P. f_equal. f_equal. lia.
Qed.

Lemma nearest_sf_integer neg n :
  0 < n < 2 ^ 53 ->
  exists m e, bounded prec emax m e = true /\ e <= 0 /\ Z.pos m = n * 2 ^ (- e) /\
              nearest_sf neg n 1 = S754_finite neg m e.
Proof.
  intro Hn. destruct (canonical_integer n Hn) as [m [e [B [E V]]]].
  exists m, e. repeat split; try assumption.
  apply nearest_sf_exact; try lia; [assumption|].
  unfold exact_den, exact_num.
  destruct (Z.leb_spec 0 e).
  - assert (e = 0) as -> by lia. simpl in *. lia.
  - lia.
Qed.

(** * Numbers seen through their specification *)

Lemma SFcompare_refl_finite s m e :
  SFcompare (S754_finite s m e) (S754_finite s m e) = Some Eq.
Proof.
  simpl.
  assert (IntDef.Z.compare e e = Eq) as -> by apply Z.compare_refl.
  assert (PosDef.Pos.compare_cont Eq m m = Eq) as -> by apply Pos.compare_cont_refl.
  destruct s; reflexivity.
Qed.

Lemma is_nan_spec x : PrimFloat.is_nan x = true <-> Prim2SF x = S754_nan.
Proof.
  unfold PrimFloat.is_nan. rewrite FloatAxioms.eqb_spec. unfold SFeqb.
  destruct (Prim2SF x) as [s|s| |s m e] eqn:E.
  - destruct s; simpl; split; discriminate.
  - destruct s; simpl; split; discriminate.
  - simpl. split; reflexivity.
  - rewrite SFcompare_refl_finite. simpl. split; discriminate.
Qed.

Lemma isFinite_num_spec x : isFinite_num x = true <-> is_number_sf (Prim2SF x).
Proof.
  unfold isFinite_num, PrimFloat.is_finite, PrimFloat.is_nan, PrimFloat.is_infinity.
  rewrite !FloatAxioms.eqb_spec, abs_spec.
  change (Prim2SF infinity) with (S754_infinity false).
  unfold SFeqb.
  destruct (Prim2SF x) as [s|s| |s m e].
  - destruct s; simpl; split; auto.
  - destruct s; simpl; split; auto; discriminate.
  - simpl. split; auto; discriminate.
  - rewrite SFcompare_refl_finite. simpl. split; auto.
Qed.

Lemma num_eq_finite x y s m e :
  Prim2SF x = S754_finite s m e -> num_eq y x = true -> y = x.
Proof.
  intros E H. unfold num_eq in H. rewrite FloatAxioms.eqb_spec, E in H.
  apply Prim2SF_inj. rewrite E.
  unfold SFeqb in H.
  destruct (Prim2SF y) as [s'|s'| |s' m' e']; simpl in H;
    try (destruct s'; discriminate); try (destruct s; discriminate); try discriminate.
  assert (e' = e /\ m' = m) as [-> ->].
  { destruct s', s; try discriminate;
      destruct (IntDef.Z.compare e' e) eqn:Ce; try discriminate;
      destruct (PosDef.Pos.compare_cont Eq m' m) eqn:Cm; try discriminate;
      (split; [apply Z.compare_eq; exact Ce | apply Pcompare_Eq_eq; exact Cm]). }
  destruct s', s; try discriminate; reflexivity.
Qed.

Lemma SF2Prim_nearest neg a b :
  Prim2SF (nearest neg a b) = nearest_sf neg a b.
Proof.
  unfold nearest. apply Prim2SF_SF2Prim. apply nearest_sf_valid.
Qed.

Lemma digit_cases d :
  is_digit d ->
  d = 0 \/ d = 1 \/ d = 2 \/ d = 3 \/ d = 4 \/ d = 5 \/ d = 6 \/ d = 7 \/ d = 8 \/ d = 9.
Proof. unfold is_digit. lia. Qed.

Ltac each_digit H :=
  destruct (digit_cases _ H) as [->|[->|[->|[->|[->|[->|[->|[->|[->| ->]]]]]]]]].

Lemma digit_of_digit_char d : is_digit d -> digit_of_char (digit_char d) = Some d.
Proof. intro H. each_digit H; reflexivity. Qed.

Lemma read_digits_app l rest acc cnt :
  Forall is_digit l ->
  read_digits (string_of_digits l ++ rest) acc cnt
  = read_digits rest (fold_left step l acc) (cnt + Z.of_nat (List.length l)).
Proof.
  intro F. revert acc cnt. induction F as [|d l Hd F IH]; intros acc cnt.
  - simpl. f_equal. lia.
  - cbn [string_of_digits append read_digits]. rewrite (digit_of_digit_char d Hd).
    rewrite IH. cbn [fold_left List.length]. unfold step at 2. f_equal. lia.
Qed.

Lemma append_empty s : s ++ "" = s.
Proof. induction s; simpl; congruence. Qed.

Lemma fold_step_zeros k acc : acc = 0 -> fold_left step (zeros k) acc = 0.
Proof.
  intros ->. induction k; simpl; auto.
Qed.

Lemma zeros_digits k : Forall is_digit (zeros k).
Proof. induction k; simpl; constructor; auto. unfold is_digit; lia. Qed.

Lemma Forall_take {A} (P : A -> Prop) k : forall l,
  Forall P l -> Forall P (firstn k l).
Proof.
  induction k; intros l H; destruct H; simpl; constructor; auto.
Qed.

Lemma Forall_drop {A} (P : A -> Prop) k : forall l,
  Forall P l -> Forall P (skipn k l).
Proof.
  induction k; intros l H; simpl; [exact H|]. destruct H; [constructor|auto].
Qed.

Lemma digits_fuel_spec fuel : forall n,
  0 <= n < 2 ^ (Z.of_nat fuel + 1) ->
  Forall is_digit (digits_fuel fuel n) /\
  fold_left step (digits_fuel fuel n) 0 = n /\
  (0 < List.length (digits_fuel fuel n))%nat.
Proof.
  induction fuel as [|fuel IH]; intros n Hn.
  - simpl in *. repeat split; try lia. constructor; [unfold is_digit; lia|constructor].
  - cbn [digits_fuel]. destruct (Z.ltb_spec n 10).
    + repeat split; simpl; try lia. constructor; [unfold is_digit; lia|constructor].
    + assert (0 <= n / 10 < 2 ^ (Z.of_nat fuel + 1)) as H10.
      { split; [apply Z.div_pos; lia|].
        apply Z.div_lt_upper_bound; [lia|].
        replace (Z.of_nat (S fuel) + 1) with (Z.succ (Z.of_nat fuel + 1)) in Hn by lia.
        rewrite Z.pow_succ_r in Hn by lia. lia. }
      destruct (IH _ H10) as [F [V L]].
      repeat split.
      * apply Forall_app. split; [exact F|].
        constructor; [|constructor]. unfold is_digit.
        pose proof (Z.mod_pos_bound n 10). lia.
      * rewrite fold_left_app, V. simpl. unfold step.
        pose proof (Z.div_mod n 10). lia.
      * rewrite length_app. simpl. lia.
Qed.

Lemma digits_spec n :
  0 <= n ->
  Forall is_digit (digits n) /\ fold_left step (digits n) 0 = n /\
  (0 < List.length (digits n))%nat.
Proof.
  intro Hn. apply digits_fuel_spec. split; [lia|].
  rewrite Z2Nat.id by apply Z.log2_nonneg.
  destruct (Z.eq_dec n 0) as [->|]; [reflexivity|].
  destruct (Z.log2_spec n); lia.
Qed.

Lemma fixed_digits_spec n f :
  0 <= n ->
  let '(ip, fp) := fixed_digits n f in
  Forall is_digit ip /\ Forall is_digit fp /\
  (0 < List.length ip)%nat /\ List.length fp = f /\
  fold_left step fp (fold_left step ip 0) = n.
Proof.
  intro Hn. unfold fixed_digits.
  destruct (digits_spec n Hn) as [F [V L]].
  set (ds := digits n) in *.
  set (padded := (zeros (S f - List.length ds) ++ ds)%list).
  assert (Forall is_digit padded) as FP
    by (apply Forall_app; split; [apply zeros_digits|exact F]).
  assert (S f <= List.length padded)%nat as LP.
  { unfold padded. rewrite length_app. unfold zeros. rewrite repeat_length. lia. }
  set (k := (List.length padded - f)%nat).
  assert (fold_left step padded 0 = n) as VP.
  { unfold padded. rewrite fold_left_app, fold_step_zeros by reflexivity. exact V. }
  repeat split.
  - apply Forall_take; exact FP.
  - apply Forall_drop; exact FP.
  - rewrite length_firstn. lia.
  - rewrite length_skipn. lia.
  - rewrite <- fold_left_app, firstn_skipn. exact VP.
Qed.

Lemma read_unsigned_fixed n f :
  0 <= n -> read_unsigned_decimal (fixed_string n f) = Some (n, - Z.of_nat f).
Proof.
  intro Hn. unfold fixed_string.
  pose proof (fixed_digits_spec n f Hn) as S.
  destruct (fixed_digits n f) as [ip fp]. destruct S as [Fi [Ff [Li [Lf V]]]].
  unfold read_unsigned_decimal.
  destruct f as [|f].
  - destruct fp; [|discriminate]. simpl in V.
    rewrite <- (append_empty (string_of_digits ip)) at 1.
    rewrite read_digits_app by assumption. cbn [read_digits].
    assert ((0 <? 0 + Z.of_nat (List.length ip)) = true) as -> by (apply Z.ltb_lt; lia).
    simpl. rewrite V. reflexivity.
  - rewrite read_digits_app by assumption.
    cbn [append read_digits]. change (digit_of_char ".") with (@None Z). cbv iota.
    rewrite <- (append_empty (string_of_digits fp)).
    rewrite read_digits_app by assumption. cbn [read_digits].
    assert ((0 <? 0 + Z.of_nat (List.length ip) + (0 + Z.of_nat (List.length fp))) = true)
      as -> by (apply Z.ltb_lt; lia).
    simpl read_exponent. cbv iota. rewrite V, Lf. do 2 f_equal.
Qed.

Lemma all_chars_app p s t : all_chars p (s ++ t) = all_chars p s && all_chars p t.
Proof. induction s; simpl; [reflexivity|]. rewrite IHs, andb_assoc. reflexivity. Qed.

Lemma trim_start_solid s : all_chars solid s = true -> trim_start s = s.
Proof.
  destruct s; simpl; [reflexivity|]. unfold solid. intro H.
  apply andb_true_iff in H. destruct H as [H _].
  destruct (is_whitespace a); [discriminate|reflexivity].
Qed.

Lemma trim_end_solid s : all_chars solid s = true -> trim_end s = s.
Proof.
  induction s as [|c r IH]; simpl; [reflexivity|]. intro H.
  apply andb_true_iff in H. destruct H as [Hc Hr].
  rewrite (IH Hr). unfold solid in Hc.
  destruct r; [|reflexivity].
  destruct (is_whitespace c); [discriminate|reflexivity].
Qed.

Lemma trim_solid s : all_chars solid s = true -> trim s = s.
Proof.
  intro H. unfold trim. rewrite (trim_start_solid s H). apply trim_end_solid, H.
Qed.

Lemma digits_solid l : Forall is_digit l -> all_chars solid (string_of_digits l) = true.
Proof.
  induction 1 as [|d l Hd F IH]; cbn [string_of_digits all_chars]; [reflexivity|].
  rewrite IH, andb_true_r. each_digit Hd; reflexivity.
Qed.

Lemma fixed_string_shape n f :
  0 <= n ->
  exists d0 l t,
    fixed_string n f = String (digit_char d0) (string_of_digits l ++ t) /\
    is_digit d0 /\ Forall is_digit l /\ tail_shape t.
Proof.
  intro Hn. unfold fixed_string.
  pose proof (fixed_digits_spec n f Hn) as S.
  destruct (fixed_digits n f) as [ip fp]. destruct S as [Fi [Ff [Li [Lf V]]]].
  destruct ip as [|d0 l]; [simpl in Li; lia|].
  inversion Fi as [|? ? H0 Hl]; subst.
  exists d0, l.
  destruct (List.length fp) eqn:E.
  - exists "". rewrite append_empty.
    split; [reflexivity|]. split; [exact H0|]. split; [exact Hl|]. left; reflexivity.
  - exists (String "." (string_of_digits fp)).
    split; [reflexivity|]. split; [exact H0|]. split; [exact Hl|].
    right. exists fp. split; [reflexivity|exact Ff].
Qed.

Lemma shape_solid d0 l t :
  is_digit d0 -> Forall is_digit l -> tail_shape t ->
  all_chars solid (String (digit_char d0) (string_of_digits l ++ t)) = true.
Proof.
  intros H0 Hl Ht.
  change (String (digit_char d0) (string_of_digits l ++ t))
    with (string_of_digits (d0 :: l) ++ t).
  rewrite all_chars_app, digits_solid by (constructor; assumption).
  destruct Ht as [->|[fp [-> Hf]]]; [reflexivity|].
  cbn [all_chars]. change (solid ".") with true.
  cbn [andb]. apply digits_solid, Hf.
Qed.

Lemma shape_non_decimal d0 l t :
  is_digit d0 -> Forall is_digit l -> tail_shape t ->
  read_non_decimal (String (digit_char d0) (string_of_digits l ++ t)) = None.
Proof.
  intros H0 Hl Ht.
  each_digit H0; try reflexivity.
  destruct Hl as [|d1 l H1 Hl].
  - destruct Ht as [->|[fp [-> Hf]]]; [reflexivity|].
    cbn [string_of_digits append]. destruct (string_of_digits fp); reflexivity.
  - cbn [string_of_digits append].
    destruct (string_of_digits l ++ t); each_digit H1; reflexivity.
Qed.

Lemma shape_not_infinity d0 r :
  is_digit d0 -> String.eqb (String (digit_char d0) r) "Infinity" = false.
Proof. intro H. each_digit H; reflexivity. Qed.

(** What [StringToNumber] reads from a number printed in fixed notation. *)
Lemma StringToNumber_fixed (neg : bool) n f :
  0 <= n ->
  StringToNumber ((if neg then "-" else "") ++ fixed_string n f)
  = decimal_value neg n (- Z.of_nat f).
Proof.
  intro Hn.
  pose proof (read_unsigned_fixed n f Hn) as RU.
  destruct (fixed_string_shape n f Hn) as [d0 [l [t [E [H0 [Hl Ht]]]]]].
  rewrite E in *.
  pose proof (shape_solid d0 l t H0 Hl Ht) as SO.
  pose proof (shape_non_decimal d0 l t H0 Hl Ht) as ND.
  pose proof (shape_not_infinity d0 (string_of_digits l ++ t) H0) as NI.
  set (body := String (digit_char d0) (string_of_digits l ++ t)) in *.
  unfold StringToNumber.
  destruct neg.
  - rewrite trim_solid by (cbn [append all_chars]; exact SO).
    cbn [append]. change (read_non_decimal (String "-" body)) with (@None Z).
    cbv iota. change (Ascii.eqb "-" "-") with true. cbv iota.
    rewrite NI, RU. reflexivity.
  - cbn [append]. rewrite trim_solid by exact SO.
    unfold body at 1. fold body. rewrite ND.
    assert (Ascii.eqb (digit_char d0) "-" = false) as -> by (each_digit H0; reflexivity).
    assert (Ascii.eqb (digit_char d0) "+" = false) as -> by (each_digit H0; reflexivity).
    rewrite NI, RU. reflexivity.
Qed.

(** * Rounding a number to an integer: [+x.toFixed(0)] *)

Lemma finite_bounded x s m e :
  Prim2SF x = S754_finite s m e -> bounded prec emax m e = true.
Proof.
  intro E. pose proof (Prim2SF_valid x) as V. rewrite E in V. exact V.
Qed.

Lemma num_eq_refl x : Prim2SF x <> S754_nan -> num_eq x x = true.
Proof.
  intro H. unfold num_eq. rewrite FloatAxioms.eqb_spec. unfold SFeqb.
  destruct (Prim2SF x) as [s|s| |s m e].
  - reflexivity.
  - destruct s; reflexivity.
  - congruence.
  - rewrite SFcompare_refl_finite. reflexivity.
Qed.

Lemma exact_den_pos e : 0 < exact_den e.
Proof.
  unfold exact_den. destruct (Z.leb_spec 0 e); [lia|]. apply pow2_pos. lia.
Qed.

Lemma exact_num_pos m e : 0 < exact_num m e.
Proof.
  unfold exact_num. destruct (Z.leb_spec 0 e); [|lia].
  pose proof (pow2_pos e). nia.
Qed.

Lemma round_half_up_integer z d : 0 < d -> round_half_up (z * d) d = z.
Proof.
  intro Hd. unfold round_half_up.
  replace (2 * (z * d) + d) with (d + z * (2 * d)) by ring.
  rewrite Z.div_add by lia. rewrite Z.div_small by lia. lia.
Qed.

Lemma round_half_up_nonneg a d : 0 <= a -> 0 < d -> 0 <= round_half_up a d.
Proof. intros. unfold round_half_up. apply Z.div_pos; lia. Qed.

Lemma integer_value_finite y z : integer_value y z -> isFinite_num y = true.
Proof.
  unfold integer_value. intro H. apply isFinite_num_spec.
  destruct (Prim2SF y); simpl; auto.
Qed.

Lemma integer_value_repr y z :
  integer_value y z -> z <> 0 ->
  Prim2SF y = nearest_sf (z <? 0) (Z.abs z) 1.
Proof.
  unfold integer_value. intros H Hz.
  destruct (Prim2SF y) as [s|s| |s m e] eqn:E; try contradiction; try lia.
  destruct H as [V ->]. symmetry.
  apply nearest_sf_exact; try lia.
  apply (finite_bounded y _ _ _ E).
Qed.

Lemma integer_value_inj y y' z :
  integer_value y z -> integer_value y' z -> z <> 0 -> y = y'.
Proof.
  intros H H' Hz. apply Prim2SF_inj.
  rewrite (integer_value_repr y z H Hz), (integer_value_repr y' z H' Hz). reflexivity.
Qed.

Lemma StringToNumber_digits (neg : bool) n :
  0 <= n ->
  StringToNumber ((if neg then "-" else "") ++ fixed_string n 0) = nearest neg n 1.
Proof.
  intro Hn. rewrite StringToNumber_fixed by assumption.
  unfold decimal_value. simpl (- Z.of_nat 0). simpl (0 <=? 0). cbv iota.
  rewrite Z.pow_0_r, Z.mul_1_r. reflexivity.
Qed.

(** ** Number::toString reads back as the number *)

Lemma shortest_sound fuel : forall k x sign a b n0 str,
  shortest fuel k x sign a b n0 = Some str ->
  num_eq (StringToNumber str) x = true.
Proof.
  induction fuel as [|fuel IH]; intros k x sign a b n0 str H; [discriminate|].
  cbn [shortest] in H.
  match type of H with
  | (if num_eq (StringToNumber ?c1) x then _ else _) = _ =>
      destruct (num_eq (StringToNumber c1) x) eqn:E1
  end.
  - injection H as <-. exact E1.
  - match type of H with
    | (if num_eq (StringToNumber ?c2) x then _ else _) = _ =>
        destruct (num_eq (StringToNumber c2) x) eqn:E2
    end.
    + injection H as <-. exact E2.
    + apply (IH _ _ _ _ _ _ _ H).
Qed.

Lemma exact_decimal_reads_back (s : bool) m e :
  bounded prec emax m e = true ->
  StringToNumber ((if s then "-" else "") ++ exact_decimal m e)
  = SF2Prim (S754_finite s m e).
Proof.
  intro B. unfold exact_decimal.
  destruct (Z.leb_spec 0 e).
  - pose proof (pow2_pos e).
    rewrite StringToNumber_digits by (apply Z.mul_nonneg_nonneg; lia).
    unfold nearest. f_equal. apply nearest_sf_exact; try nia; [exact B|].
    unfold exact_den, exact_num.
    destruct (Z.leb_spec 0 e); lia.
  - assert (0 < 5 ^ (- e)) by (apply Z.pow_pos_nonneg; lia).
    rewrite StringToNumber_fixed by (apply Z.mul_nonneg_nonneg; lia).
    unfold decimal_value. rewrite Z2Nat.id by lia.
    replace (- - e) with e by lia.
    assert ((0 <=? e) = false) as -> by (apply Z.leb_gt; lia).
    unfold nearest. f_equal.
    assert (0 < 10 ^ (- e)) by (apply Z.pow_pos_nonneg; lia).
    apply nearest_sf_exact; try nia; [exact B|].
    unfold exact_den, exact_num.
    destruct (Z.leb_spec 0 e); [lia|].
    change 10 with (5 * 2). rewrite Z.pow_mul_l. ring.
Qed.

Lemma NumberToString_reads_back x s m e :
  Prim2SF x = S754_finite s m e ->
  StringToNumber (NumberToString x) = x.
Proof.
  intro E. unfold NumberToString. rewrite E. unfold finite_to_string.
  destruct (shortest _ _ _ _ _ _ _) as [str|] eqn:S.
  - apply (num_eq_finite x _ s m e E). apply (shortest_sound _ _ _ _ _ _ _ _ S).
  - rewrite exact_decimal_reads_back by (apply (finite_bounded x s m e E)).
    rewrite <- E. apply SF2Prim_Prim2SF.
Qed.

(** ** [+y.toFixed(0)] of an integer *)

Lemma zero_reads_back f : StringToNumber (fixed_string 0 f) = zero.
Proof.
  change (fixed_string 0 f) with ((if false then "-" else "") ++ fixed_string 0 f).
  rewrite StringToNumber_fixed by lia.
  unfold decimal_value, nearest.
  destruct (0 <=? - Z.of_nat f); reflexivity.
Qed.

Lemma toFixed0_integer y z :
  integer_value y z ->
  StringToNumber (toFixed y 0) = if z =? 0 then zero else y.
Proof.
  unfold integer_value, toFixed. intro H.
  destruct (Prim2SF y) as [s|s| |s m e] eqn:E; try contradiction.
  - subst z. apply zero_reads_back.
  - destruct H as [V Hs].
    pose proof (exact_den_pos e). pose proof (exact_num_pos m e).
    assert ((z =? 0) = false) as -> by (apply Z.eqb_neq; intros ->; simpl in V; lia).
    destruct (10 ^ 21 * exact_den e <=? exact_num m e).
    + apply (NumberToString_reads_back y s m e E).
    + simpl (Z.of_nat 0). rewrite Z.pow_0_r, Z.mul_1_r, V.
      rewrite round_half_up_integer by assumption.
      rewrite StringToNumber_digits by lia.
      unfold nearest. rewrite <- (SF2Prim_Prim2SF y), E. f_equal.
      apply nearest_sf_exact; try lia.
      apply (finite_bounded y s m e E).
Qed.

Lemma integer_value_self x s m e :
  Prim2SF x = S754_finite s m e -> 0 <= e ->
  integer_value x (if s then - (Z.pos m * 2 ^ e) else Z.pos m * 2 ^ e).
Proof.
  intros E He. unfold integer_value. rewrite E.
  unfold exact_num, exact_den.
  assert ((0 <=? e) = true) as -> by (apply Z.leb_le; lia).
  pose proof (pow2_pos e He).
  split.
  - destruct s; rewrite ?Z.abs_opp, Z.abs_eq; nia.
  - destruct s; symmetry; [apply Z.ltb_lt|apply Z.ltb_ge]; nia.
Qed.

Lemma toFixed0_finite x :
  isFinite_num x = true ->
  integer_value (StringToNumber (toFixed x 0)) (nearest_integer x).
Proof.
  intro F. apply isFinite_num_spec in F.
  unfold nearest_integer.
  destruct (Prim2SF x) as [s|s| |s m e] eqn:E; try contradiction.
  - unfold toFixed. rewrite E, zero_reads_back. reflexivity.
  - pose proof (finite_bounded x s m e E) as B.
    destruct (bounded_inv m e B) as [C L].
    destruct (Z.leb_spec 0 e) as [He|He].
    + pose proof (integer_value_self x s m e E He) as IV.
      pose proof (pow2_pos e He).
      rewrite (toFixed0_integer x _ IV).
      assert (round_half_up (exact_num m e) (exact_den e) = Z.pos m * 2 ^ e) as ->.
      { unfold exact_num, exact_den.
        assert ((0 <=? e) = true) as -> by (apply Z.leb_le; lia).
        rewrite <- (Z.mul_1_r (Z.pos m * 2 ^ e)) at 1.
        apply round_half_up_integer. lia. }
      assert (((if s then - (Z.pos m * 2 ^ e) else Z.pos m * 2 ^ e) =? 0) = false) as ->
        by (apply Z.eqb_neq; destruct s; nia).
      exact IV.
    + unfold toFixed. rewrite E.
      pose proof (digits2_bounds m) as D.
      assert (Z.pos m < 2 ^ 53) as Hm.
      { assert (2 ^ Z.pos (digits2_pos m) <= 2 ^ 53) by (apply Z.pow_le_mono_r; lia). lia. }
      unfold exact_num, exact_den.
      assert ((0 <=? e) = false) as -> by (apply Z.leb_gt; lia).
      assert (2 <= 2 ^ (- e)) as H2.
      { change 2 with (2 ^ 1) at 1. apply Z.pow_le_mono_r; lia. }
      assert ((10 ^ 21 * 2 ^ (- e) <=? Z.pos m) = false) as ->.
      { apply Z.leb_gt. change (2 ^ 53) with 9007199254740992 in Hm.
        change (10 ^ 21) with 1000000000000000000000. lia. }
      simpl (Z.of_nat 0). rewrite Z.pow_0_r, Z.mul_1_r.
      set (n := round_half_up (Z.pos m) (2 ^ (- e))).
      assert (0 <= n < 2 ^ 53) as Hn.
      { unfold n, round_half_up. split; [apply Z.div_pos; lia|].
        apply Z.div_lt_upper_bound; [lia|].
        change (2 ^ 53) with 9007199254740992 in *. nia. }
      rewrite StringToNumber_digits by lia.
      unfold integer_value. rewrite SF2Prim_nearest.
      destruct (Z.eq_dec n 0) as [N0|N0].
      * rewrite N0. unfold nearest_sf. simpl. destruct s; reflexivity.
      * destruct (nearest_sf_integer s n ltac:(lia)) as [m' [e' [B' [E' [V' ->]]]]].
        unfold exact_num, exact_den.
        destruct (Z.leb_spec 0 e').
        -- assert (e' = 0) as -> by lia. simpl in V'. simpl (2 ^ 0).
           split; [destruct s; rewrite ?Z.abs_opp, Z.abs_eq; lia|].
           destruct s; symmetry; [apply Z.ltb_lt|apply Z.ltb_ge]; lia.
        -- split; [destruct s; rewrite ?Z.abs_opp, Z.abs_eq; lia|].
           destruct s; symmetry; [apply Z.ltb_lt|apply Z.ltb_ge]; lia.
Qed.

(** * Exact additions *)

Lemma iter_pos_nat {A} (f : A -> A) p : forall x,
  iter_pos f p x = Nat.iter (Pos.to_nat p) f x.
Proof.
  induction p as [p IH|p IH|]; intro x; cbn [iter_pos].
  - rewrite !IH, Pos2Nat.inj_xI.
    replace (S (2 * Pos.to_nat p)) with (Pos.to_nat p + (Pos.to_nat p + 1))%nat by lia.
    rewrite !Nat.iter_add. reflexivity.
  - rewrite !IH, Pos2Nat.inj_xO.
    replace (2 * Pos.to_nat p)%nat with (Pos.to_nat p + Pos.to_nat p)%nat by lia.
    rewrite Nat.iter_add. reflexivity.
  - reflexivity.
Qed.

Lemma shr_1_even m : 0 < m -> shr_1 (exact_record (2 * m)) = exact_record m.
Proof.
  intro H. destruct m as [|p|p]; try lia. reflexivity.
Qed.

Lemma shr_exact k : forall m,
  0 < m -> Nat.iter k shr_1 (exact_record (m * 2 ^ Z.of_nat k)) = exact_record m.
Proof.
  induction k as [|k IH]; intros m Hm.
  - simpl. f_equal. lia.
  - rewrite Nat.iter_succ.
    replace (m * 2 ^ Z.of_nat (S k)) with ((2 * m) * 2 ^ Z.of_nat k).
    + rewrite IH by lia. apply shr_1_even. exact Hm.
    + rewrite Nat2Z.inj_succ, Z.pow_succ_r by lia. ring.
Qed.

Lemma shr_fexp_canonical m e :
  bounded prec emax m e = true ->
  shr_fexp prec emax (Z.pos m) e loc_Exact = (exact_record (Z.pos m), e).
Proof.
  intro B. destruct (bounded_inv m e B) as [C _].
  unfold shr_fexp. rewrite fexp_eq.
  change (Zdigits2 (Z.pos m)) with (Z.pos (digits2_pos m)).
  rewrite C. rewrite Z.sub_diag. reflexivity.
Qed.

Lemma binary_round_aux_canonical s m e :
  bounded prec emax m e = true ->
  binary_round_aux prec emax s (Z.pos m) e loc_Exact = S754_finite s m e.
Proof.
  intro B. destruct (bounded_inv m e B) as [_ L].
  unfold binary_round_aux. rewrite (shr_fexp_canonical m e B).
  cbn [exact_record shr_m loc_of_shr_record round_nearest_even].
  rewrite (shr_fexp_canonical m e B). cbn [exact_record shr_m].
  assert (IntDef.Z.leb e (IntDef.Z.sub emax prec) = true) as ->
    by (apply Z.leb_le; exact L).
  reflexivity.
Qed.

Lemma pos_iter_xO m d : Z.pos (Pos.iter xO m d) = Z.pos m * 2 ^ Z.pos d.
Proof.
  induction d using Pos.peano_ind.
  - cbn [Pos.iter]. rewrite Pos2Z.inj_xO. change (2 ^ 1) with 2. lia.
  - rewrite Pos.iter_succ, Pos2Z.inj_succ, Z.pow_succ_r by lia.
    rewrite Pos2Z.inj_xO, IHd. ring.
Qed.

Lemma shl_align_spec m e e' :
  let '(mz, ez) := shl_align m e e' in
  ez = Z.min e e' /\ Z.pos mz = Z.pos m * 2 ^ (e - ez).
Proof.
  unfold shl_align.
  destruct (IntDef.Z.sub e' e) as [|d|d] eqn:D;
    assert (e' - e = IntDef.Z.sub e' e) as D' by reflexivity; rewrite D in D'.
  - split; [lia|]. rewrite Z.sub_diag. simpl. lia.
  - split; [lia|]. rewrite Z.sub_diag. simpl. lia.
  - split; [lia|]. change (Z.pos (PosDef.Pos.iter xO m d)) with (Z.pos (Pos.iter xO m d)).
    rewrite pos_iter_xO. f_equal. f_equal. lia.
Qed.

Lemma digits_shift m k : 0 <= k ->
  Z.log2 (Z.pos m * 2 ^ k) = Z.log2 (Z.pos m) + k.
Proof. intro. rewrite Z.log2_mul_pow2 by lia. lia. Qed.

(** Rounding a value that a binary64 number holds gives that number. *)
Lemma binary_round_exact s m e m' e' c :
  bounded prec emax m' e' = true ->
  c <= e -> c <= e' ->
  Z.pos m * 2 ^ (e - c) = Z.pos m' * 2 ^ (e' - c) ->
  binary_round prec emax s m e = S754_finite s m' e'.
Proof.
  intros B Ce Ce' V.
  destruct (bounded_inv m' e' B) as [C L].
  assert (Z.pos (digits2_pos m) + e = Z.pos (digits2_pos m') + e') as DG.
  { rewrite !digits2_log2.
    apply (f_equal Z.log2) in V. rewrite !digits_shift in V by lia. lia. }
  unfold binary_round. rewrite fexp_eq, DG, C.
  pose proof (shl_align_spec m e e') as SA.
  destruct (shl_align m e e') as [mz ez]. destruct SA as [Ez Mz].
  destruct (Z.le_gt_cases e e') as [Le|Gt].
  - (* the mantissa is shifted right by [e' - e] *)
    assert (ez = e) as -> by lia. rewrite Z.sub_diag in Mz. simpl in Mz.
    assert (mz = m) as -> by lia.
    assert (Z.pos m = Z.pos m' * 2 ^ (e' - e)) as Vm.
    { replace (e' - c) with ((e' - e) + (e - c)) in V by lia.
      rewrite Z.pow_add_r in V by lia.
      pose proof (pow2_pos (e - c) ltac:(lia)). nia. }
    destruct (Z.eq_dec e e') as [<-|Ne].
    + rewrite Z.sub_diag in Vm. simpl in Vm.
      assert (m = m') as -> by lia. apply binary_round_aux_canonical, B.
    + unfold binary_round_aux.
      assert (shr_fexp prec emax (Z.pos m) e loc_Exact = (exact_record (Z.pos m'), e')) as ->.
      { unfold shr_fexp. rewrite fexp_eq.
        change (Zdigits2 (Z.pos m)) with (Z.pos (digits2_pos m)).
        rewrite DG, C. unfold shr.
        destruct (e' - e) as [|p|p] eqn:P; try lia.
        rewrite iter_pos_nat. cbn [shr_record_of_loc].
        change {| shr_m := Z.pos m; shr_r := false; shr_s := false |}
          with (exact_record (Z.pos m)).
        rewrite Vm, <- (positive_nat_Z p), shr_exact by lia.
        f_equal. rewrite positive_nat_Z. lia. }
      cbn [exact_record shr_m loc_of_shr_record round_nearest_even].
      rewrite (shr_fexp_canonical m' e' B). cbn [exact_record shr_m].
      assert (IntDef.Z.leb e' (IntDef.Z.sub emax prec) = true) as ->
        by (apply Z.leb_le; exact L).
      reflexivity.
  - (* the mantissa is shifted left by [e - e'] *)
    assert (ez = e') as -> by lia.
    assert (Z.pos mz = Z.pos m') as Vm.
    { rewrite Mz.
      replace (e - c) with ((e - e') + (e' - c)) in V by lia.
      rewrite Z.pow_add_r in V by lia.
      pose proof (pow2_pos (e' - c) ltac:(lia)). nia. }
    injection Vm as ->. apply binary_round_aux_canonical, B.
Qed.

Lemma binary_normalize_exact z e m' e' c :
  bounded prec emax m' e' = true ->
  c <= e -> c <= e' ->
  Z.abs z * 2 ^ (e - c) = Z.pos m' * 2 ^ (e' - c) ->
  binary_normalize prec emax z e false = S754_finite (z <? 0) m' e'.
Proof.
  intros B Ce Ce' V. unfold binary_normalize.
  destruct z as [|p|p].
  - exfalso. pose proof (pow2_pos (e' - c) ltac:(lia)).
    change (Z.abs 0) with 0 in V. nia.
  - apply (binary_round_exact false p e m' e' c); assumption.
  - apply (binary_round_exact true p e m' e' c); assumption.
Qed.

(** The mantissa of an integer, scaled to any small exponent. *)
Lemma integer_mantissa m e z c :
  exact_num m e = Z.abs z * exact_den e -> c <= e -> c <= 0 ->
  Z.pos m * 2 ^ (e - c) = Z.abs z * 2 ^ (- c).
Proof.
  unfold exact_num, exact_den. intros V Ce C0.
  destruct (Z.leb_spec 0 e).
  - rewrite Z.mul_1_r in V.
    replace (e - c) with (e + - c) by lia. rewrite Z.pow_add_r by lia.
    rewrite <- V. ring.
  - replace (- c) with ((- e) + (e - c)) by lia. rewrite Z.pow_add_r by lia.
    rewrite V. ring.
Qed.

Lemma integer_value_intro y s m' e' z :
  Prim2SF y = S754_finite s m' e' -> e' <= 0 ->
  Z.pos m' = Z.abs z * 2 ^ (- e') -> s = (z <? 0) ->
  integer_value y z.
Proof.
  intros E L V S. unfold integer_value. rewrite E. split; [|exact S].
  unfold exact_num, exact_den. destruct (Z.leb_spec 0 e').
  - assert (e' = 0) as -> by lia. simpl in *. lia.
  - exact V.
Qed.

Lemma cond_Zopp_sign z a : 0 < a -> Z.abs z = a -> cond_Zopp (z <? 0) a = z.
Proof.
  intros Ha Hz. unfold cond_Zopp. destruct (Z.ltb_spec z 0); lia.
Qed.

(** The sum of two finite integers, when it is below [2^53]. *)
Lemma SFadd_integers sx mx ex sy my ey zx zy (add : bool) :
  exact_num mx ex = Z.abs zx * exact_den ex -> sx = (zx <? 0) ->
  exact_num my ey = Z.abs zy * exact_den ey -> sy = (zy <? 0) ->
  let z := if add then zx + zy else zx - zy in
  Z.abs z < 2 ^ 53 ->
  let ez := Z.min ex ey in
  let r := binary_normalize prec emax
             ((if add then Z.add else Z.sub)
                (cond_Zopp sx (Z.pos (fst (shl_align mx ex ez))))
                (cond_Zopp sy (Z.pos (fst (shl_align my ey ez)))))
             ez false in
  match r with
  | S754_zero _ => z = 0
  | S754_finite s m e => exact_num m e = Z.abs z * exact_den e /\ s = (z <? 0)
  | _ => False
  end.
Proof.
  intros Vx Sx Vy Sy z Hz ez r.
  pose proof (shl_align_spec mx ex ez) as Ax. pose proof (shl_align_spec my ey ez) as Ay.
  unfold r. clear r.
  destruct (shl_align mx ex ez) as [ax ex']. destruct (shl_align my ey ez) as [ay ey'].
  cbn [fst]. destruct Ax as [Ex Ax]. destruct Ay as [Ey Ay].
  assert (ez <= ex /\ ez <= ey) as [Lx Ly] by (unfold ez; lia).
  rewrite Z.min_r in Ex by exact Lx. rewrite Z.min_r in Ey by exact Ly.
  subst ex' ey'. clearbody ez.
  set (c0 := Z.min ez 0).
  assert (c0 <= ez /\ c0 <= 0) as [C1 C2] by (unfold c0; lia). clearbody c0.
  assert (Hx : Z.pos ax * 2 ^ (ez - c0) = Z.abs zx * 2 ^ (- c0)).
  { rewrite Ax, <- Z.mul_assoc, <- Z.pow_add_r by lia.
    replace (ex - ez + (ez - c0)) with (ex - c0) by lia.
    apply integer_mantissa; [exact Vx|lia|lia]. }
  assert (Hy : Z.pos ay * 2 ^ (ez - c0) = Z.abs zy * 2 ^ (- c0)).
  { rewrite Ay, <- Z.mul_assoc, <- Z.pow_add_r by lia.
    replace (ey - ez + (ez - c0)) with (ey - c0) by lia.
    apply integer_mantissa; [exact Vy|lia|lia]. }
  pose proof (pow2_pos (ez - c0) ltac:(lia)) as P1.
  pose proof (pow2_pos (- c0) ltac:(lia)) as P2.
  assert (zx <> 0) as Nx by (intro Q; rewrite Q in Hx; change (Z.abs 0) with 0 in Hx; nia).
  assert (zy <> 0) as Ny by (intro Q; rewrite Q in Hy; change (Z.abs 0) with 0 in Hy; nia).
  set (S := (if add then Z.add else Z.sub) (cond_Zopp sx (Z.pos ax)) (cond_Zopp sy (Z.pos ay))).
  assert (HS : S * 2 ^ (ez - c0) = z * 2 ^ (- c0)).
  { unfold S, z, cond_Zopp. rewrite Sx, Sy.
    destruct add; destruct (Z.ltb_spec zx 0); destruct (Z.ltb_spec zy 0); nia. }
  destruct (Z.eq_dec z 0) as [Z0|Z0].
  - assert (S = 0) as -> by nia. simpl. exact Z0.
  - destruct (canonical_integer (Z.abs z) ltac:(lia)) as [m' [e' [B [E' V']]]].
    rewrite (binary_normalize_exact S ez m' e' (Z.min c0 e')); try assumption; try lia.
    + assert ((S <? 0) = (z <? 0)) as ->.
      { destruct (Z.ltb_spec S 0); destruct (Z.ltb_spec z 0); try reflexivity; nia. }
      split; [|reflexivity].
      unfold exact_num, exact_den. destruct (Z.leb_spec 0 e').
      * assert (e' = 0) as -> by lia. simpl in *. lia.
      * exact V'.
    + set (c := Z.min c0 e').
      assert (c <= c0 /\ c <= e') as [C3 C4] by (unfold c; lia). clearbody c.
      assert (Z.abs S * 2 ^ (ez - c0) = Z.abs z * 2 ^ (- c0)) as HA.
      { apply (f_equal Z.abs) in HS. rewrite !Z.abs_mul in HS.
        rewrite (Z.abs_eq (2 ^ (ez - c0))), (Z.abs_eq (2 ^ (- c0))) in HS by lia.
        exact HS. }
      replace (ez - c) with ((ez - c0) + (c0 - c)) by lia.
      rewrite Z.pow_add_r, Z.mul_assoc, HA, V' by lia.
      rewrite <- !Z.mul_assoc, <- !Z.pow_add_r by lia.
      f_equal. f_equal. lia.
Qed.

Lemma add_integer x y zx zy :
  integer_value x zx -> integer_value y zy -> Z.abs (zx + zy) < 2 ^ 53 ->
  integer_value (x + y)%float (zx + zy).
Proof.
  unfold integer_value. rewrite add_spec. unfold SF64add.
  destruct (Prim2SF x) as [sx|sx| |sx mx ex]; try contradiction;
    destruct (Prim2SF y) as [sy|sy| |sy my ey]; try contradiction.
  - intros -> -> _. destruct sx, sy; reflexivity.
  - intros -> H _. exact H.
  - intros H -> _. rewrite Z.add_0_r. exact H.
  - intros [Vx Sx] [Vy Sy] B.
    exact (SFadd_integers sx mx ex sy my ey zx zy true Vx Sx Vy Sy B).
Qed.

Lemma sub_integer x y zx zy :
  integer_value x zx -> integer_value y zy -> Z.abs (zx - zy) < 2 ^ 53 ->
  integer_value (x - y)%float (zx - zy).
Proof.
  unfold integer_value. rewrite sub_spec. unfold SF64sub.
  destruct (Prim2SF x) as [sx|sx| |sx mx ex]; try contradiction;
    destruct (Prim2SF y) as [sy|sy| |sy my ey]; try contradiction.
  - intros -> -> _. destruct sx, sy; reflexivity.
  - intros -> [Vy Sy] _. cbn [SFsub].
    pose proof (exact_den_pos ey). pose proof (exact_num_pos my ey).
    split.
    + rewrite Z.sub_0_l, Z.abs_opp. exact Vy.
    + rewrite Sy. destruct (Z.ltb_spec zy 0); destruct (Z.ltb_spec (0 - zy) 0);
        try reflexivity; lia.
  - intros H -> _. rewrite Z.sub_0_r. exact H.
  - intros [Vx Sx] [Vy Sy] B.
    exact (SFadd_integers sx mx ex sy my ey zx zy false Vx Sx Vy Sy B).
Qed.

(** * Operations that never give [NaN] *)

Lemma shr_1_nonneg mrs : 0 <= shr_m mrs -> 0 <= shr_m (shr_1 mrs).
Proof.
  destruct mrs as [m r s]. cbn [shr_m]. intro H.
  destruct m as [|[p|p|]|p]; cbn; lia.
Qed.

Lemma shr_nonneg mrs e k :
  0 <= shr_m mrs -> 0 <= shr_m (fst (shr mrs e k)).
Proof.
  intro H. unfold shr. destruct k as [|p|p]; cbn [fst]; try exact H.
  rewrite iter_pos_nat. induction (Pos.to_nat p) as [|n IH]; [exact H|].
  rewrite Nat.iter_succ. apply shr_1_nonneg, IH.
Qed.

Lemma shr_fexp_nonneg m e l :
  0 <= m -> 0 <= shr_m (fst (shr_fexp prec emax m e l)).
Proof.
  intro H. unfold shr_fexp. apply shr_nonneg.
  destruct l as [|[| |]]; exact H.
Qed.

Lemma round_nearest_even_nonneg m l : 0 <= m -> 0 <= round_nearest_even m l.
Proof.
  intro H. unfold round_nearest_even.
  destruct l as [|[| |]]; try exact H; try (destruct (IntDef.Z.even m)); try exact H;
    change (IntDef.Z.add m 1) with (m + 1); lia.
Qed.

Lemma binary_round_aux_number s m e l :
  0 <= m -> binary_round_aux prec emax s m e l <> S754_nan.
Proof.
  intro H. unfold binary_round_aux.
  pose proof (shr_fexp_nonneg m e l H) as H1.
  destruct (shr_fexp prec emax m e l) as [mrs' e']. cbn [fst] in H1.
  pose proof (shr_fexp_nonneg _ e' loc_Exact
                (round_nearest_even_nonneg _ (loc_of_shr_record mrs') H1)) as H2.
  destruct (shr_fexp prec emax _ e' loc_Exact) as [mrs'' e'']. cbn [fst] in H2.
  destruct (shr_m mrs'') as [|p|p]; try lia; try discriminate.
  destruct (IntDef.Z.leb e'' (IntDef.Z.sub emax prec)); discriminate.
Qed.

Lemma SFdiv_number sx mx ex sy my ey :
  SFdiv prec emax (S754_finite sx mx ex) (S754_finite sy my ey) <> S754_nan.
Proof.
  cbn [SFdiv]. unfold SFdiv_core_binary.
  match goal with
  | |- context [IntDef.Z.div_eucl ?a ?b] =>
      pose proof (Z.div_pos a b) as Q;
      assert (0 <= a) as A; [|
      change (Z.div a b) with (fst (IntDef.Z.div_eucl a b)) in Q;
      destruct (IntDef.Z.div_eucl a b) as [q r]; cbn [fst] in Q ]
  end.
  - match goal with |- 0 <= match ?s with _ => _ end => destruct s end; try lia.
    apply Z.shiftl_nonneg. lia.
  - apply binary_round_aux_number. apply Q; [exact A|reflexivity].
Qed.


Lemma nearest_sf_number neg a b : nearest_sf neg a b <> S754_nan.
Proof.
  unfold nearest_sf.
  destruct ((a <=? 0) || (b <=? 0)); [discriminate|].
  destruct (_ =? 0); [discriminate|].
  destruct (_ =? 2 ^ prec); destruct (_ <? _); discriminate.
Qed.

(** What [toFixed] prints of a number reads back as a number. *)
Lemma toFixed_reads_number w f :
  Prim2SF w <> S754_nan -> Prim2SF (StringToNumber (toFixed w f)) <> S754_nan.
Proof.
  intro H. unfold toFixed.
  destruct (Prim2SF w) as [s|s| |s m e] eqn:E; try congruence.
  - rewrite zero_reads_back. discriminate.
  - unfold NumberToString. rewrite E. destruct s; discriminate.
  - destruct (10 ^ 21 * exact_den e <=? exact_num m e).
    + rewrite (NumberToString_reads_back w s m e E). rewrite E. discriminate.
    + rewrite StringToNumber_fixed.
      * unfold decimal_value.
        destruct (0 <=? - Z.of_nat f); rewrite SF2Prim_nearest; apply nearest_sf_number.
      * apply round_half_up_nonneg; [|apply exact_den_pos].
        pose proof (exact_num_pos m e).
        assert (0 < 10 ^ Z.of_nat f) by (apply Z.pow_pos_nonneg; lia). nia.
Qed.




Lemma integer_value_nearest y z : integer_value y z -> nearest_integer y = z.
Proof.
  unfold integer_value, nearest_integer.
  destruct (Prim2SF y) as [s|s| |s m e]; try contradiction.
  - intros ->. reflexivity.
  - intros [V ->]. rewrite V, round_half_up_integer by apply exact_den_pos.
    destruct (Z.ltb_spec z 0); lia.
Qed.

Lemma construct_inv v c m :
  Money.construct v c = Ok m ->
  exists x, v = JNum x /\ isFinite_num x = true /\
            Money.cents m = StringToNumber (toFixed x 0) /\
            Money.currency m = Money.resolved_currency c.
Proof.
  unfold Money.construct, Money.validateNumber, Money.validateInfinity, bind.
  destruct (negb (truthy v) && strict_neq_zero v); [discriminate|].
  destruct (_ || isNaN v); [discriminate|].
  destruct (negb (isFinite v)) eqn:F; [discriminate|].
  destruct v as [| |b|x|s|r]; try discriminate. cbn [Money.call_toFixed].
  intro H. injection H as <-. exists x.
  apply negb_false_iff in F.
  repeat split; assumption.
Qed.

Lemma constructed_integer m :
  constructed m -> integer_value (Money.cents m) (amount m).
Proof.
  intros [v [c H]]. destruct (construct_inv v c m H) as [x [_ [F [E _]]]].
  pose proof (toFixed0_finite x F) as IV. rewrite <- E in IV.
  unfold amount. rewrite (integer_value_nearest _ _ IV). exact IV.
Qed.

Lemma construct_integer y z c :
  integer_value y z ->
  exists m, Money.construct (JNum y) c = Ok m /\
            integer_value (Money.cents m) z /\
            Money.currency m = Money.resolved_currency c.
Proof.
  intro IV. pose proof (integer_value_finite y z IV) as F.
  destruct (construct_finite c y F) as [m [H E]].
  exists m. split; [exact H|].
  destruct (construct_inv _ _ _ H) as [x [_ [_ [_ C]]]].
  split; [|exact C].
  rewrite E, (toFixed0_integer y z IV).
  destruct (Z.eqb_spec z 0) as [->|]; [reflexivity|exact IV].
Qed.

(** * The currency code *)

Lemma upper_char_whitespace c : is_whitespace (upper_char c) = is_whitespace c.
Proof. destruct c as [[] [] [] [] [] [] [] []]; reflexivity. Qed.

Lemma upper_char_idem c : upper_char (upper_char c) = upper_char c.
Proof. destruct c as [[] [] [] [] [] [] [] []]; reflexivity. Qed.

Lemma toUpperCase_idem s : toUpperCase (toUpperCase s) = toUpperCase s.
Proof.
  unfold toUpperCase. induction s as [|c r IH]; cbn [map_string]; [reflexivity|].
  rewrite upper_char_idem, IH. reflexivity.
Qed.

Lemma toUpperCase_length s : String.length (toUpperCase s) = String.length s.
Proof.
  unfold toUpperCase. induction s as [|c r IH]; cbn [map_string String.length]; congruence.
Qed.

Lemma trim_start_upper s : trim_start (toUpperCase s) = toUpperCase (trim_start s).
Proof.
  unfold toUpperCase. induction s as [|c r IH]; cbn [map_string trim_start]; [reflexivity|].
  rewrite upper_char_whitespace. destruct (is_whitespace c); [exact IH|reflexivity].
Qed.

Lemma trim_end_upper s : trim_end (toUpperCase s) = toUpperCase (trim_end s).
Proof.
  unfold toUpperCase. induction s as [|c r IH]; cbn [map_string trim_end]; [reflexivity|].
  rewrite IH, upper_char_whitespace.
  destruct (trim_end r); cbn [map_string]; [|reflexivity].
  destruct (is_whitespace c); reflexivity.
Qed.

Lemma trim_upper s : trim (toUpperCase s) = toUpperCase (trim s).
Proof. unfold trim. rewrite trim_start_upper, trim_end_upper. reflexivity. Qed.

Lemma trim_start_starts_solid s : starts_solid (trim_start s).
Proof.
  induction s as [|c r IH]; cbn [trim_start]; [exact I|].
  destruct (is_whitespace c) eqn:E; [exact IH|exact E].
Qed.

Lemma trim_start_of_solid s : starts_solid s -> trim_start s = s.
Proof.
  destruct s as [|c r]; cbn [trim_start starts_solid]; [reflexivity|].
  intros ->. reflexivity.
Qed.

Lemma trim_end_starts_solid s : starts_solid s -> starts_solid (trim_end s).
Proof.
  destruct s as [|c r]; cbn [trim_end starts_solid]; [auto|].
  intro H. destruct (trim_end r); [rewrite H|]; exact H.
Qed.

Lemma trim_end_idem s : trim_end (trim_end s) = trim_end s.
Proof.
  induction s as [|c r IH]; cbn [trim_end]; [reflexivity|].
  destruct (trim_end r) as [|c' r'] eqn:E.
  - destruct (is_whitespace c) eqn:W; [reflexivity|].
    cbn [trim_end]. rewrite W. reflexivity.
  - change (trim_end (String c (String c' r')))
      with (match trim_end (String c' r') with
            | EmptyString =>
                if is_whitespace c then EmptyString else String c EmptyString
            | String c0 r0 => String c (String c0 r0)
            end).
    rewrite IH. reflexivity.
Qed.

Lemma trim_idem s : trim (trim s) = trim s.
Proof.
  unfold trim.
  rewrite (trim_start_of_solid (trim_end (trim_start s)))
    by (apply trim_end_starts_solid, trim_start_starts_solid).
  apply trim_end_idem.
Qed.

Lemma resolved_currency_idem c : Money.resolved_currency (Some (Money.resolved_currency c)) = Money.resolved_currency c.
Proof.
  destruct c as [c|]; [|reflexivity].
  cbn [Money.resolved_currency].
  destruct (negb (is_empty c) && (0 <? Z.of_nat (String.length (trim c)))) eqn:E;
    [|reflexivity].
  apply andb_true_iff in E. destruct E as [_ L].
  rewrite trim_upper, trim_idem, toUpperCase_idem, toUpperCase_length, L.
  rewrite andb_true_r.
  assert (is_empty (toUpperCase (trim c)) = false) as ->; [|reflexivity].
  apply Z.ltb_lt in L. destruct (trim c); [simpl in L; lia|reflexivity].
Qed.

(** * Comparing amounts *)

Lemma hundred_finite : exists m e, Prim2SF 100 = S754_finite false m e.
Proof. vm_compute. eauto. Qed.

Lemma getUnit_number a z :
  integer_value (Money.cents a) z ->
  Prim2SF (Money.getUnit a) <> S754_nan.
Proof.
  intro IV. unfold Money.getUnit. apply toFixed_reads_number.
  rewrite div_spec. destruct hundred_finite as [m [e ->]].
  unfold integer_value in IV. unfold SF64div.
  destruct (Prim2SF (Money.cents a)) as [s|s| |s' m' e']; try contradiction.
  - discriminate.
  - apply SFdiv_number.
Qed.

Lemma getUnit_same a b z :
  integer_value (Money.cents a) z -> integer_value (Money.cents b) z ->
  num_eq (Money.getUnit a) (Money.getUnit b) = true.
Proof.
  intros Ha Hb.
  destruct (Z.eq_dec z 0) as [->|Nz].
  - unfold Money.getUnit, toFixed. rewrite !div_spec.
    destruct hundred_finite as [m [e ->]]. unfold SF64div.
    unfold integer_value in Ha, Hb.
    destruct (Prim2SF (Money.cents a)) as [sa|sa| |sa ma ea]; try contradiction;
      [|exfalso; pose proof (exact_num_pos ma ea); simpl in Ha; lia].
    destruct (Prim2SF (Money.cents b)) as [sb|sb| |sb mb eb]; try contradiction;
      [|exfalso; pose proof (exact_num_pos mb eb); simpl in Hb; lia].
    cbn [SFdiv]. rewrite zero_reads_back. reflexivity.
  - unfold Money.getUnit. rewrite (integer_value_inj _ _ z Ha Hb Nz).
    apply num_eq_refl. apply (getUnit_number b z Hb).
Qed.

(** [C9] For two [Money] of one currency that the constructor built,
    when the amount of [a] and the sum of the two amounts are safe
    integers (at most [2^53 - 1] in magnitude), [plus] and [minus] do not
    throw and [a.plus(b).minus(b).eq(a)] holds. *)
Theorem plus_then_minus_gives_back (a b : Money.t) :
  constructed a -> constructed b ->
  Money.currency a = Money.currency b ->
  Z.abs (amount a) <= MAX_SAFE_INTEGER ->
  Z.abs (amount a + amount b) <= MAX_SAFE_INTEGER ->
  exists s r,
    Money.plus a (Money.Instance b) = Ok s /\
    Money.minus s (Money.Instance b) = Ok r /\
    Money.eq r a = true.
Proof.
  intros Ca Cb Cur Sa Sab.
  pose proof (constructed_integer a Ca) as Ia.
  pose proof (constructed_integer b Cb) as Ib.
  assert (Money.currency a = Money.resolved_currency (Some (Money.currency a))) as Na.
  { destruct Ca as [v [c H]]. destruct (construct_inv _ _ _ H) as [_ [_ [_ [_ ->]]]].
    symmetry. apply resolved_currency_idem. }
  unfold MAX_SAFE_INTEGER in *.
  pose proof (add_integer _ _ _ _ Ia Ib ltac:(lia)) as Is.
  destruct (construct_integer _ _ (Some (Money.currency a)) Is) as [s [Hs [Vs Cs]]].
  rewrite <- Na in Cs.
  assert (integer_value (Money.cents s - Money.cents b)%float (amount a)) as Ir.
  { pose proof (sub_integer _ _ _ _ Vs Ib) as H.
    replace (amount a + amount b - amount b) with (amount a) in H by lia.
    apply H. lia. }
  destruct (construct_integer _ _ (Some (Money.currency s)) Ir) as [r [Hr [Vr Cr]]].
  rewrite Cs, <- Na in Cr.
  exists s, r. split; [|split].
  - unfold Money.plus, Money.validateCurrency, bind. cbn [Money.missing Money.validateMoneyInstance].
    rewrite Cur, String.eqb_refl. cbn [negb]. rewrite <- Cur. exact Hs.
  - unfold Money.minus, Money.validateCurrency, bind. cbn [Money.missing Money.validateMoneyInstance].
    rewrite Cs, Cur, String.eqb_refl. cbn [negb]. rewrite <- Cur, <- Cs. exact Hr.
  - unfold Money.eq. rewrite (getUnit_same r a _ Vr Ia), Cr, String.eqb_refl. reflexivity.
Qed.


(** * [fromUnit] *)



(** * The american sentinel *)






Lemma NumberToString_not_sentinel y : NumberToString y <> "-".
Proof.
  intro H.
  destruct (Prim2SF y) as [s|s| |s m e] eqn:E.
  - unfold NumberToString in H. rewrite E in H. discriminate.
  - unfold NumberToString in H. rewrite E in H. destruct s; discriminate.
  - unfold NumberToString in H. rewrite E in H. discriminate.
  - pose proof (NumberToString_reads_back y s m e E) as R.
    rewrite H in R. rewrite <- R in E. vm_compute in E. discriminate.
Qed.

Lemma dToA_sentinel p :
  Odds.dToA p = "-" -> num_eq (StringToNumber p) 1 = true.
Proof.
  unfold Odds.dToA.
  destruct (num_eq (StringToNumber p) 1); [reflexivity|].
  destruct (num_lt (StringToNumber p) 2).
  - intro H. exfalso. exact (NumberToString_not_sentinel _ H).
  - discriminate.
Qed.


(* ================================================================= *)
(** * The general statements on concrete inputs *)

(** ** The constructor's rounding *)


(** ** [fromUnit] *)



(** ** [plus] then [minus] *)

Lemma plus_then_minus_gives_back_witness :
  let a := {| Money.cents := 200; Money.currency := "USD" |} in
  let b := {| Money.cents := 300; Money.currency := "USD" |} in
  constructed a /\ constructed b /\
  Money.currency a = Money.currency b /\
  Z.abs (amount a) <= MAX_SAFE_INTEGER /\
  Z.abs (amount a + amount b) <= MAX_SAFE_INTEGER /\
  exists s r,
    Money.plus a (Money.Instance b) = Ok s /\
    Money.minus s (Money.Instance b) = Ok r /\
    Money.eq r a = true.
Proof.
  intros a b.
  assert (constructed a) as Ca
    by (exists (JNum 200), (Some "USD"); vm_compute; reflexivity).
  assert (constructed b) as Cb
    by (exists (JNum 300), (Some "USD"); vm_compute; reflexivity).
  assert (Z.abs (amount a) <= MAX_SAFE_INTEGER) as Sa
    by (vm_compute; discriminate).
  assert (Z.abs (amount a + amount b) <= MAX_SAFE_INTEGER) as Sab
    by (vm_compute; discriminate).
  split; [exact Ca|]. split; [exact Cb|]. split; [reflexivity|].
  split; [exact Sa|]. split; [exact Sab|].
  exact (plus_then_minus_gives_back a b Ca Cb eq_refl Sa Sab).
Defined.

(** One subunit added to [2^53] subunits is absorbed by the addition:
    taking the [2^53] away again leaves nothing. *)
Lemma plus_absorbs_a_small_amount :
  let a := {| Money.cents := 1; Money.currency := "USD" |} in
  let b := {| Money.cents := 9007199254740992; Money.currency := "USD" |} in
  let s := {| Money.cents := 9007199254740992; Money.currency := "USD" |} in
  let r := {| Money.cents := 0; Money.currency := "USD" |} in
  Money.construct (JNum 1) None = Ok a /\
  Money.construct (JNum 9007199254740992) None = Ok b /\
  Money.currency a = Money.currency b /\
  Money.plus a (Money.Instance b) = Ok s /\
  Money.minus s (Money.Instance b) = Ok r /\
  Money.eq r a = false.
Proof. repeat split; vm_compute; reflexivity. Qed.

(** ** The american sentinel *)



(* ================================================================= *)
(** * What the arithmetic of [Money] returns *)

Lemma constructed_currency m :
  constructed m ->
  Money.resolved_currency (Some (Money.currency m)) = Money.currency m.
Proof.
  intros [v [c H]]. destruct (construct_inv _ _ _ H) as [_ [_ [_ [_ ->]]]].
  apply resolved_currency_idem.
Qed.

Lemma construct_for_receiver this v r :
  constructed this ->
  Money.construct v (Some (Money.currency this)) = Ok r ->
  Money.currency r = Money.currency this /\
  integer_value (Money.getSubunit r) (amount r).
Proof.
  intros C H. split.
  - destruct (construct_inv _ _ _ H) as [_ [_ [_ [_ ->]]]].
    apply constructed_currency, C.
  - apply constructed_integer. exists v, (Some (Money.currency this)). exact H.
Qed.

(** A number that is not [NaN] is finite or an infinity. *)
Lemma not_finite_cases x :
  PrimFloat.is_nan x = false -> isFinite_num x = false ->
  x = infinity \/ x = neg_infinity.
Proof.
  intros N F.
  assert (Prim2SF x <> S754_nan) as N'.
  { intro E. apply is_nan_spec in E. congruence. }
  assert (~ is_number_sf (Prim2SF x)) as F'.
  { intro E. apply isFinite_num_spec in E. congruence. }
  rewrite <- (SF2Prim_Prim2SF x).
  destruct (Prim2SF x) as [s|s| |s m e]; cbn in F'; try tauto.
  destruct s; [right|left]; reflexivity.
Qed.

(** What the constructor does of a number, by its kind. *)
Lemma construct_number x c :
  (isFinite_num x = true ->
   exists m, Money.construct (JNum x) c = Ok m /\
             integer_value (Money.cents m) (nearest_integer x) /\
             Money.currency m = Money.resolved_currency c) /\
  (PrimFloat.is_nan x = true -> Money.construct (JNum x) c = Throw Money.E_missingArg) /\
  (PrimFloat.is_nan x = false -> isFinite_num x = false ->
   Money.construct (JNum x) c = Throw Money.E_infinity).
Proof.
  split; [|split].
  - intro F. destruct (construct_finite c x F) as [m [H E]].
    exists m. split; [exact H|]. split.
    + rewrite E. apply toFixed0_finite, F.
    + destruct (construct_inv _ _ _ H) as [_ [_ [_ [_ ->]]]]. reflexivity.
  - intro N. unfold Money.construct. cbn [truthy strict_neq_zero].
    rewrite N, orb_true_r. cbn [negb andb].
    assert (num_eq x zero = false) as ->; [|reflexivity].
    unfold num_eq. rewrite FloatAxioms.eqb_spec.
    apply is_nan_spec in N. rewrite N. reflexivity.
  - intros N F. destruct (not_finite_cases x N F) as [-> | ->]; reflexivity.
Qed.

(** ** Sums and differences of finite numbers *)

Lemma binary_normalize_number z e :
  binary_normalize prec emax z e false <> S754_nan.
Proof.
  unfold binary_normalize.
  destruct z as [|p|p]; [discriminate| |];
    unfold binary_round; destruct (shl_align p e _) as [mz ez];
    apply binary_round_aux_number; lia.
Qed.

Lemma not_nan_spec x : PrimFloat.is_nan x = false <-> Prim2SF x <> S754_nan.
Proof.
  rewrite <- is_nan_spec. destruct (PrimFloat.is_nan x); split; congruence.
Qed.

Lemma add_number x y :
  isFinite_num x = true -> isFinite_num y = true ->
  PrimFloat.is_nan (x + y)%float = false.
Proof.
  intros Fx Fy. apply isFinite_num_spec in Fx, Fy. apply not_nan_spec.
  rewrite add_spec. unfold SF64add.
  destruct (Prim2SF x) as [sx|sx| |sx mx ex]; try contradiction;
    destruct (Prim2SF y) as [sy|sy| |sy my ey]; try contradiction;
    cbn [SFadd]; try discriminate.
  - destruct sx, sy; discriminate.
  - apply binary_normalize_number.
Qed.

Lemma sub_number x y :
  isFinite_num x = true -> isFinite_num y = true ->
  PrimFloat.is_nan (x - y)%float = false.
Proof.
  intros Fx Fy. apply isFinite_num_spec in Fx, Fy. apply not_nan_spec.
  rewrite sub_spec. unfold SF64sub.
  destruct (Prim2SF x) as [sx|sx| |sx mx ex]; try contradiction;
    destruct (Prim2SF y) as [sy|sy| |sy my ey]; try contradiction;
    cbn [SFsub]; try discriminate.
  - destruct sx, sy; discriminate.
  - apply binary_normalize_number.
Qed.

(** Addition of numbers is commutative. *)
Lemma SFadd_comm x y : SFadd prec emax x y = SFadd prec emax y x.
Proof.
  destruct x as [sx|sx| |sx mx ex]; destruct y as [sy|sy| |sy my ey];
    cbn [SFadd]; try reflexivity.
  - destruct sx, sy; reflexivity.
  - destruct sx, sy; reflexivity.
  - assert (IntDef.Z.min ex ey = IntDef.Z.min ey ex) as -> by apply Z.min_comm.
    f_equal. apply Z.add_comm.
Qed.

Lemma add_comm x y : (x + y = y + x)%float.
Proof.
  rewrite <- (SF2Prim_Prim2SF (x + y)%float), <- (SF2Prim_Prim2SF (y + x)%float).
  rewrite !add_spec. unfold SF64add. rewrite SFadd_comm. reflexivity.
Qed.

Lemma constructed_finite m : constructed m -> isFinite_num (Money.cents m) = true.
Proof.
  intro C. exact (integer_value_finite _ _ (constructed_integer m C)).
Qed.

(* ================================================================= *)
(** * [plus] and [minus] *)

(** [X1] What [plus] and [minus] do of their operand.  An operand that is
    not a [Money] is reported missing when it is falsy and of the wrong
    type otherwise; a [Money] of another currency is refused; then the
    operation returns exactly when the sum (the difference) of the two
    amounts is finite, and throws the constructor's error when it
    overflowed. *)
Theorem plus_and_minus_outcomes (this : Money.t) (m : Money.operand) :
  constructed this ->
  let outcome (op : Money.t -> Money.operand -> result Money.Error Money.t)
              (combine : number -> number -> number) :=
    match m with
    | Money.Other v =>
        op this m = Throw (if truthy v then Money.E_invalidType (typeof v)
                           else Money.E_missingArg)
    | Money.Instance b =>
        if String.eqb (Money.currency this) (Money.currency b) then
          constructed b ->
          if isFinite_num (combine (Money.cents this) (Money.cents b)) then
            exists r, op this m = Ok r /\
                      Money.currency r = Money.currency this /\
                      amount r = nearest_integer (combine (Money.cents this) (Money.cents b))
          else op this m = Throw Money.E_infinity
        else op this m = Throw (Money.E_currencyMismatch (Money.currency this)
                                                          (Money.currency b))
    end in
  outcome Money.plus PrimFloat.add /\ outcome Money.minus PrimFloat.sub.
Proof.
  intros C outcome.
  assert (forall (combine : number -> number -> number) b,
            constructed b ->
            PrimFloat.is_nan (combine (Money.cents this) (Money.cents b)) = false ->
            if isFinite_num (combine (Money.cents this) (Money.cents b)) then
              exists r,
                Money.construct (JNum (combine (Money.cents this) (Money.cents b)))
                                (Some (Money.currency this)) = Ok r /\
                Money.currency r = Money.currency this /\
                amount r = nearest_integer (combine (Money.cents this) (Money.cents b))
            else Money.construct (JNum (combine (Money.cents this) (Money.cents b)))
                                 (Some (Money.currency this)) = Throw Money.E_infinity) as K.
  { intros combine b Cb N.
    destruct (construct_number (combine (Money.cents this) (Money.cents b))
                (Some (Money.currency this))) as [Kf [_ Ki]].
    destruct (isFinite_num _) eqn:F.
    - destruct (Kf eq_refl) as [r [H [V Cur]]]. exists r. split; [exact H|]. split.
      + rewrite Cur. apply constructed_currency, C.
      + unfold amount. apply integer_value_nearest, V.
    - apply Ki; [exact N | reflexivity]. }
  unfold outcome. split.
  - destruct m as [b|v].
    + unfold Money.plus, Money.validateCurrency, bind.
      cbn [Money.missing Money.validateMoneyInstance].
      destruct (String.eqb _ _); cbn [negb]; [|reflexivity].
      intro Cb. apply (K PrimFloat.add b Cb).
      apply add_number; apply constructed_finite; assumption.
    + unfold Money.plus, bind. cbn [Money.missing Money.validateMoneyInstance].
      destruct (truthy v); reflexivity.
  - destruct m as [b|v].
    + unfold Money.minus, Money.validateCurrency, bind.
      cbn [Money.missing Money.validateMoneyInstance].
      destruct (String.eqb _ _); cbn [negb]; [|reflexivity].
      intro Cb. apply (K PrimFloat.sub b Cb).
      apply sub_number; apply constructed_finite; assumption.
    + unfold Money.minus, bind. cbn [Money.missing Money.validateMoneyInstance].
      destruct (truthy v); reflexivity.
Qed.

(** [X2] Within the safe integers [plus] adds the amounts exactly. *)
Theorem plus_adds_safe_amounts (a b : Money.t) :
  constructed a -> constructed b ->
  Money.currency a = Money.currency b ->
  Z.abs (amount a + amount b) <= MAX_SAFE_INTEGER ->
  exists s,
    Money.plus a (Money.Instance b) = Ok s /\
    amount s = amount a + amount b /\
    Money.currency s = Money.currency a.
Proof.
  intros Ca Cb Cur S.
  pose proof (constructed_integer a Ca) as Ia.
  pose proof (constructed_integer b Cb) as Ib.
  assert (integer_value (Money.cents a + Money.cents b)%float (amount a + amount b)) as V.
  { apply add_integer; try assumption. unfold MAX_SAFE_INTEGER in S. lia. }
  destruct (construct_integer _ _ (Some (Money.currency a)) V) as [s [H [Vs Cs]]].
  exists s. split; [|split].
  - unfold Money.plus, Money.validateCurrency, bind.
    cbn [Money.missing Money.validateMoneyInstance].
    rewrite Cur, String.eqb_refl. cbn [negb]. rewrite <- Cur. exact H.
  - unfold amount at 1. apply integer_value_nearest, Vs.
  - rewrite Cs. apply constructed_currency, Ca.
Qed.

(** [X3] Within the safe integers [minus] subtracts the amounts exactly. *)
Theorem minus_subtracts_safe_amounts (a b : Money.t) :
  constructed a -> constructed b ->
  Money.currency a = Money.currency b ->
  Z.abs (amount a - amount b) <= MAX_SAFE_INTEGER ->
  exists s,
    Money.minus a (Money.Instance b) = Ok s /\
    amount s = amount a - amount b /\
    Money.currency s = Money.currency a.
Proof.
  intros Ca Cb Cur S.
  pose proof (constructed_integer a Ca) as Ia.
  pose proof (constructed_integer b Cb) as Ib.
  assert (integer_value (Money.cents a - Money.cents b)%float (amount a - amount b)) as V.
  { apply sub_integer; try assumption. unfold MAX_SAFE_INTEGER in S. lia. }
  destruct (construct_integer _ _ (Some (Money.currency a)) V) as [s [H [Vs Cs]]].
  exists s. split; [|split].
  - unfold Money.minus, Money.validateCurrency, bind.
    cbn [Money.missing Money.validateMoneyInstance].
    rewrite Cur, String.eqb_refl. cbn [negb]. rewrite <- Cur. exact H.
  - unfold amount at 1. apply integer_value_nearest, Vs.
  - rewrite Cs. apply constructed_currency, Ca.
Qed.

(** [X4] [plus] is commutative: for two [Money] of one currency,
    [a.plus(b)] and [b.plus(a)] are the same outcome. *)
Theorem plus_commutes (a b : Money.t) :
  Money.currency a = Money.currency b ->
  Money.plus a (Money.Instance b) = Money.plus b (Money.Instance a).
Proof.
  intro Cur. unfold Money.plus, Money.validateCurrency, bind.
  cbn [Money.missing Money.validateMoneyInstance].
  rewrite Cur, String.eqb_refl. cbn [negb].
  rewrite (add_comm (Money.cents a) (Money.cents b)). reflexivity.
Qed.

(** [X5] Taking a [Money] away from itself leaves zero of its currency,
    whatever the amount. *)
Theorem minus_itself_is_zero (a : Money.t) :
  constructed a ->
  Money.minus a (Money.Instance a)
  = Ok {| Money.cents := zero; Money.currency := Money.currency a |}.
Proof.
  intro Ca.
  pose proof (constructed_integer a Ca) as Ia.
  assert (integer_value (Money.cents a - Money.cents a)%float 0) as V.
  { rewrite <- (Z.sub_diag (amount a)). apply sub_integer; try assumption.
    rewrite Z.sub_diag. reflexivity. }
  unfold Money.minus, Money.validateCurrency, bind.
  cbn [Money.missing Money.validateMoneyInstance].
  rewrite String.eqb_refl. cbn [negb].
  destruct (construct_finite (Some (Money.currency a)) _ (integer_value_finite _ _ V))
    as [m [H E]].
  rewrite H. f_equal.
  destruct (construct_inv _ _ _ H) as [_ [_ [_ [_ Cm]]]].
  rewrite (toFixed0_integer _ _ V) in E. cbn in E.
  destruct m as [c cur]. cbn in *. subst. f_equal.
  apply constructed_currency, Ca.
Qed.

(* ================================================================= *)
(** * [times], [divide] and [perc] *)

Lemma numeric_argument_spec n :
  (if negb (truthy n) && strict_neq_zero n then Throw Money.E_missingArg
   else Money.validateNumber n)
  = if numeric_argument n then Ok tt else Throw (argument_error n).
Proof.
  unfold numeric_argument, argument_error, Money.validateNumber.
  destruct (negb (truthy n) && strict_neq_zero n); [reflexivity|].
  cbn [negb andb]. destruct (_ || _); reflexivity.
Qed.

Lemma numeric_argument_number n :
  numeric_argument n = true -> PrimFloat.is_nan (ToNumber n) = false.
Proof.
  unfold numeric_argument, isNaN, isNaN_num.
  destruct (negb (negb (truthy n) && strict_neq_zero n)); [|discriminate].
  cbn [andb]. destruct (PrimFloat.is_nan (ToNumber n)); [|reflexivity].
  rewrite orb_true_r. discriminate.
Qed.

(** What the constructor makes of an amount computed for the receiver. *)
Lemma construct_computed this x :
  constructed this ->
  if isFinite_num x then
    exists r, Money.construct (JNum x) (Some (Money.currency this)) = Ok r /\
              Money.currency r = Money.currency this /\
              amount r = nearest_integer x
  else if PrimFloat.is_nan x
       then Money.construct (JNum x) (Some (Money.currency this)) = Throw Money.E_missingArg
       else Money.construct (JNum x) (Some (Money.currency this)) = Throw Money.E_infinity.
Proof.
  intro C.
  destruct (construct_number x (Some (Money.currency this))) as [Kf [Kn Ki]].
  destruct (isFinite_num x) eqn:F.
  - destruct (Kf eq_refl) as [r [H [V Cur]]]. exists r. split; [exact H|]. split.
    + rewrite Cur. apply constructed_currency, C.
    + unfold amount. apply integer_value_nearest, V.
  - destruct (PrimFloat.is_nan x) eqn:N.
    + apply Kn. reflexivity.
    + apply Ki; reflexivity.
Qed.

(** [X6] [times]: an argument that is falsy and not zero is reported
    missing and one that is not numeric is refused; otherwise the amount
    is multiplied and rounded, an overflow is refused by the
    constructor, and a product that is [NaN] (nothing times an infinity)
    is reported as a missing argument. *)
Theorem times_outcomes (this : Money.t) (n : value) :
  constructed this ->
  if numeric_argument n then
    let p := (Money.cents this * ToNumber n)%float in
    if isFinite_num p then
      exists r, Money.times this n = Ok r /\
                Money.currency r = Money.currency this /\
                amount r = nearest_integer p
    else if PrimFloat.is_nan p then Money.times this n = Throw Money.E_missingArg
    else Money.times this n = Throw Money.E_infinity
  else Money.times this n = Throw (argument_error n).
Proof.
  intro C. unfold Money.times, bind.
  pose proof (numeric_argument_spec n) as G.
  destruct (negb (truthy n) && strict_neq_zero n) eqn:Gd.
  - unfold numeric_argument, argument_error. rewrite Gd. reflexivity.
  - rewrite G. destruct (numeric_argument n); [|reflexivity].
    apply construct_computed, C.
Qed.

Lemma is_zero_spec x :
  num_eq x zero = true <-> exists s, Prim2SF x = S754_zero s.
Proof.
  unfold num_eq. rewrite FloatAxioms.eqb_spec. unfold SFeqb.
  change (Prim2SF zero) with (S754_zero false).
  destruct (Prim2SF x) as [s|s| |s m e]; cbn [SFcompare]; split;
    try discriminate; try (intros [s' H]; discriminate); try (destruct s; discriminate).
  - intros _. exists s. reflexivity.
  - reflexivity.
Qed.

(** A finite number divided by a number that is not zero is a number. *)
Lemma div_number x y :
  isFinite_num x = true -> PrimFloat.is_nan y = false -> num_eq y zero = false ->
  PrimFloat.is_nan (x / y)%float = false.
Proof.
  intros Fx Ny Zy. apply isFinite_num_spec in Fx. apply not_nan_spec in Ny.
  apply not_nan_spec. rewrite div_spec. unfold SF64div.
  assert (forall s, Prim2SF y <> S754_zero s) as Z'.
  { intros s E. assert (num_eq y zero = true) by (apply is_zero_spec; eauto). congruence. }
  destruct (Prim2SF x) as [sx|sx| |sx mx ex]; try contradiction;
    destruct (Prim2SF y) as [sy|sy| |sy my ey]; cbn [SFdiv]; try discriminate;
    try congruence; try (exfalso; exact (Z' _ eq_refl)).
  apply SFdiv_number.
Qed.

(** [X7] [divide]: the argument is checked as for [times]; a divisor that
    coerces to zero is refused; otherwise the amount is divided and
    rounded, or the constructor refuses a quotient that overflowed.  The
    quotient is never [NaN]. *)
Theorem divide_outcomes (this : Money.t) (n : value) :
  constructed this ->
  if numeric_argument n then
    if num_eq (ToNumber n) zero then Money.divide this n = Throw Money.E_zeroDivision
    else
      let q := (Money.cents this / ToNumber n)%float in
      if isFinite_num q then
        exists r, Money.divide this n = Ok r /\
                  Money.currency r = Money.currency this /\
                  amount r = nearest_integer q
      else Money.divide this n = Throw Money.E_infinity
  else Money.divide this n = Throw (argument_error n).
Proof.
  intro C. unfold Money.divide, bind.
  pose proof (numeric_argument_spec n) as G.
  pose proof (numeric_argument_number n) as NN.
  destruct (negb (truthy n) && strict_neq_zero n) eqn:Gd.
  - unfold numeric_argument, argument_error. rewrite Gd. reflexivity.
  - rewrite G. destruct (numeric_argument n); [|reflexivity].
    destruct (num_eq (ToNumber n) zero) eqn:Z; [reflexivity|].
    pose proof (construct_computed this (Money.cents this / ToNumber n)%float C) as K.
    cbv zeta. destruct (isFinite_num _); [exact K|].
    rewrite (div_number _ _ (constructed_finite this C) (NN eq_refl) Z) in K. exact K.
Qed.

Lemma not_number_reads x f :
  isFinite_num x = false ->
  StringToNumber (toFixed x f) = x.
Proof.
  intro F.
  assert (~ is_number_sf (Prim2SF x)) as F'.
  { intro E. apply isFinite_num_spec in E. congruence. }
  rewrite <- (SF2Prim_Prim2SF x) at 2. unfold toFixed.
  destruct (Prim2SF x) as [s|s| |s m e] eqn:E; cbn in F'; try tauto.
  - rewrite <- (SF2Prim_Prim2SF x), E. destruct s; vm_compute; reflexivity.
  - rewrite <- (SF2Prim_Prim2SF x), E. vm_compute; reflexivity.
Qed.

(** [X8] [perc]: the argument is checked as for [times]; the share
    [cents * n / 100] is rounded to an integer, which the constructor
    stores as it is. *)
Theorem perc_outcomes (this : Money.t) (n : value) :
  constructed this ->
  if numeric_argument n then
    let v := (Money.cents this * ToNumber n / 100)%float in
    if isFinite_num v then
      exists r, Money.perc this n = Ok r /\
                Money.currency r = Money.currency this /\
                amount r = nearest_integer v
    else if PrimFloat.is_nan v then Money.perc this n = Throw Money.E_missingArg
    else Money.perc this n = Throw Money.E_infinity
  else Money.perc this n = Throw (argument_error n).
Proof.
  intro C. unfold Money.perc, bind.
  pose proof (numeric_argument_spec n) as G.
  destruct (negb (truthy n) && strict_neq_zero n) eqn:Gd.
  - unfold numeric_argument, argument_error. rewrite Gd. reflexivity.
  - rewrite G. destruct (numeric_argument n); [|reflexivity].
    cbv zeta. set (v := (Money.cents this * ToNumber n / 100)%float).
    destruct (isFinite_num v) eqn:F.
    + pose proof (toFixed0_finite v F) as V.
      destruct (construct_integer _ _ (Some (Money.currency this)) V) as [r [H [Vr Cr]]].
      exists r. split; [exact H|]. split.
      * rewrite Cr. apply constructed_currency, C.
      * unfold amount. apply integer_value_nearest, Vr.
    + rewrite (not_number_reads v 0 F).
      pose proof (construct_computed this v C) as K. rewrite F in K. exact K.
Qed.

(** ** Products of integers *)

(** The mantissa and the exponent of an integer below [2^53]. *)
Lemma integer_canonical m e z :
  bounded prec emax m e = true ->
  exact_num m e = Z.abs z * exact_den e -> Z.abs z < 2 ^ 53 ->
  e <= 0 /\ Z.pos m = Z.abs z * 2 ^ (- e) /\ 2 ^ 52 <= Z.pos m < 2 ^ 53.
Proof.
  intros B V S.
  destruct (bounded_inv m e B) as [C _].
  pose proof (digits2_bounds m) as D.
  set (d := Z.pos (digits2_pos m)) in *.
  assert (0 < d) as Dp by (unfold d; lia).
  unfold exact_num, exact_den in V.
  destruct (Z.max_spec (d + e - 53) (-1074)) as [[L E]|[L E]]; rewrite E in C.
  - (* subnormal: impossible for an integer *)
    exfalso. subst e. change (0 <=? -1074) with false in V. cbv iota in V.
    change (- -1074) with 1074 in V.
    assert (Z.pos m < 2 ^ 53).
    { apply Z.lt_le_trans with (2 ^ d); [lia|]. apply Z.pow_le_mono_r; lia. }
    assert (2 ^ 53 < 2 ^ 1074) by (apply Z.pow_lt_mono_r; lia).
    assert (0 < Z.abs z) by nia. nia.
  - assert (d = 53) as D53 by lia. rewrite D53 in D.
    change (53 - 1) with 52 in D.
    destruct (Z.leb_spec 0 e) as [P|N].
    + assert (e = 0) as ->.
      { destruct (Z.eq_dec e 0) as [|Ne]; [assumption|exfalso].
        assert (2 ^ 1 <= 2 ^ e) by (apply Z.pow_le_mono_r; lia).
        change (2 ^ 1) with 2 in *. nia. }
      simpl in *. lia.
    + split; [lia|]. split; [exact V|lia].
Qed.

(** Rounding a mantissa that only carries zeros below the kept bits. *)
Lemma binary_round_aux_shift s m e m' e' :
  bounded prec emax m' e' = true -> e <= e' ->
  Z.pos m = Z.pos m' * 2 ^ (e' - e) ->
  binary_round_aux prec emax s (Z.pos m) e loc_Exact = S754_finite s m' e'.
Proof.
  intros B Le Vm.
  destruct (Z.eq_dec e e') as [<-|Ne].
  { rewrite Z.sub_diag in Vm. simpl in Vm.
    assert (m = m') as -> by lia. apply binary_round_aux_canonical, B. }
  destruct (bounded_inv m' e' B) as [C L].
  assert (Z.pos (digits2_pos m) + e = Z.pos (digits2_pos m') + e') as DG.
  { rewrite !digits2_log2. rewrite Vm, digits_shift by lia. lia. }
  unfold binary_round_aux.
  assert (shr_fexp prec emax (Z.pos m) e loc_Exact = (exact_record (Z.pos m'), e')) as ->.
  { unfold shr_fexp. rewrite fexp_eq.
    change (Zdigits2 (Z.pos m)) with (Z.pos (digits2_pos m)).
    rewrite DG, C. unfold shr.
    destruct (e' - e) as [|p|p] eqn:P; try lia.
    rewrite iter_pos_nat. cbn [shr_record_of_loc].
    change {| shr_m := Z.pos m; shr_r := false; shr_s := false |}
      with (exact_record (Z.pos m)).
    rewrite Vm, <- (positive_nat_Z p), shr_exact by lia.
    f_equal. rewrite positive_nat_Z. lia. }
  cbn [exact_record shr_m loc_of_shr_record round_nearest_even].
  rewrite (shr_fexp_canonical m' e' B). cbn [exact_record shr_m].
  assert (IntDef.Z.leb e' (IntDef.Z.sub emax prec) = true) as ->
    by (apply Z.leb_le; exact L).
  reflexivity.
Qed.

Lemma SFmul_integers sx mx ex sy my ey zx zy :
  bounded prec emax mx ex = true -> bounded prec emax my ey = true ->
  exact_num mx ex = Z.abs zx * exact_den ex -> sx = (zx <? 0) ->
  exact_num my ey = Z.abs zy * exact_den ey -> sy = (zy <? 0) ->
  Z.abs (zx * zy) < 2 ^ 53 ->
  exists m e,
    SFmul prec emax (S754_finite sx mx ex) (S754_finite sy my ey)
    = S754_finite (zx * zy <? 0) m e /\
    exact_num m e = Z.abs (zx * zy) * exact_den e.
Proof.
  intros Bx By Vx Sx Vy Sy S.
  pose proof (exact_num_pos mx ex) as Px. pose proof (exact_den_pos ex) as Qx.
  pose proof (exact_num_pos my ey) as Py. pose proof (exact_den_pos ey) as Qy.
  assert (0 < Z.abs zx) as Ax by nia.
  assert (0 < Z.abs zy) as Ay by nia.
  rewrite Z.abs_mul in S.
  assert (Z.abs zx < 2 ^ 53) as S1 by nia.
  assert (Z.abs zy < 2 ^ 53) as S2 by nia.
  destruct (integer_canonical mx ex zx Bx Vx S1) as [Ex [Mx Rx]].
  destruct (integer_canonical my ey zy By Vy S2) as [Ey [My Ry]].
  destruct (canonical_integer (Z.abs zx * Z.abs zy) ltac:(nia)) as [m [e [B [E M]]]].
  exists m, e.
  assert (Z.pos m < 2 ^ 53) as Rm.
  { destruct (bounded_inv m e B) as [C _]. pose proof (digits2_bounds m) as D.
    apply Z.lt_le_trans with (2 ^ Z.pos (digits2_pos m)); [lia|].
    apply Z.pow_le_mono_r; lia. }
  assert (Z.pos (mx * my) = Z.abs zx * Z.abs zy * 2 ^ (- (ex + ey))) as P.
  { rewrite Pos2Z.inj_mul, Mx, My.
    replace (- (ex + ey)) with (- ex + - ey) by lia.
    rewrite Z.pow_add_r by lia. ring. }
  assert (2 ^ 104 <= Z.pos (mx * my)) as Big.
  { rewrite Pos2Z.inj_mul. change (2 ^ 104) with (2 ^ 52 * 2 ^ 52). nia. }
  assert (ex + ey <= e) as Le.
  { destruct (Z.le_gt_cases (ex + ey) e) as [|Gt]; [assumption|exfalso].
    assert (Z.pos m = Z.pos (mx * my) * 2 ^ (ex + ey - e)) as K.
    { rewrite M, P. replace (- e) with (- (ex + ey) + (ex + ey - e)) by lia.
      rewrite Z.pow_add_r by lia. ring. }
    pose proof (pow2_pos (ex + ey - e) ltac:(lia)).
    change (2 ^ 104) with (2 ^ 53 * 2 ^ 51) in Big.
    assert (0 < 2 ^ 51) by reflexivity. nia. }
  split.
  - cbn [SFmul].
    rewrite (binary_round_aux_shift (xorb sx sy) (mx * my) (ex + ey) m e B Le).
    + f_equal. subst sx sy.
      destruct (Z.ltb_spec zx 0), (Z.ltb_spec zy 0), (Z.ltb_spec (zx * zy) 0);
        try reflexivity; exfalso; nia.
    + rewrite P, M. replace (- (ex + ey)) with (- e + (e - (ex + ey))) by lia.
      rewrite Z.pow_add_r by lia. ring.
  - rewrite Z.abs_mul. unfold exact_num, exact_den.
    destruct (Z.leb_spec 0 e).
    + assert (e = 0) as -> by lia. simpl in *. lia.
    + exact M.
Qed.

Lemma mul_integer x y zx zy :
  integer_value x zx -> integer_value y zy -> Z.abs (zx * zy) < 2 ^ 53 ->
  integer_value (x * y)%float (zx * zy).
Proof.
  unfold integer_value. rewrite mul_spec. unfold SF64mul.
  destruct (Prim2SF x) as [sx|sx| |sx mx ex] eqn:Ex; try contradiction;
    destruct (Prim2SF y) as [sy|sy| |sy my ey] eqn:Ey; try contradiction.
  - intros -> -> _. reflexivity.
  - intros -> _ _. reflexivity.
  - intros _ -> _. cbn [SFmul]. lia.
  - intros [Vx Sx] [Vy Sy] S.
    destruct (SFmul_integers sx mx ex sy my ey zx zy
                (finite_bounded _ _ _ _ Ex) (finite_bounded _ _ _ _ Ey) Vx Sx Vy Sy S)
      as [m [e [-> V]]].
    split; [exact V | reflexivity].
Qed.

(** The guard of the methods lets a number through unless it is [NaN]. *)
Lemma numeric_argument_integer x k :
  integer_value x k -> numeric_argument (JNum x) = true.
Proof.
  intro V. pose proof (integer_value_finite _ _ V) as F.
  pose proof (finite_not_nan x F) as N.
  unfold numeric_argument, isNaN, isNaN_num. cbn [typeof ToNumber truthy strict_neq_zero].
  rewrite N. cbn [String.eqb Ascii.eqb Bool.eqb negb andb orb].
  rewrite orb_false_r, andb_true_r.
  unfold integer_value in V.
  destruct (num_eq x zero) eqn:Z; [destruct (negb (negb _)); reflexivity|].
  assert (PrimFloat.is_zero x = false) as ->; [|reflexivity].
  unfold PrimFloat.is_zero. fold (num_eq x zero).
  destruct (Prim2SF x) as [s|s| |s m e] eqn:E; try contradiction.
  - exfalso. assert (num_eq x zero = true) by (apply is_zero_spec; eauto). congruence.
  - unfold num_eq. rewrite FloatAxioms.eqb_spec, E.
    change (Prim2SF 0%float) with (S754_zero false). destruct s; reflexivity.
Qed.

(** [X9] Within the safe integers [times] multiplies exactly: for a whole
    number [k], [m.times(k)] holds [k] times the amount of [m]. *)
Theorem times_multiplies_safe_amounts (this : Money.t) (x : number) (k : Z) :
  constructed this -> integer_value x k ->
  Z.abs (amount this * k) <= MAX_SAFE_INTEGER ->
  exists r,
    Money.times this (JNum x) = Ok r /\
    amount r = amount this * k /\
    Money.currency r = Money.currency this.
Proof.
  intros C Vx S.
  pose proof (constructed_integer this C) as Vc.
  assert (integer_value (Money.cents this * x)%float (amount this * k)) as V.
  { apply mul_integer; try assumption. unfold MAX_SAFE_INTEGER in S. lia. }
  pose proof (times_outcomes this (JNum x) C) as T.
  rewrite (numeric_argument_integer x k Vx) in T. cbn [ToNumber] in T. cbv zeta in T.
  rewrite (integer_value_finite _ _ V) in T.
  destruct T as [r [H [Cr Ar]]]. exists r. split; [exact H|]. split; [|exact Cr].
  rewrite Ar. apply integer_value_nearest, V.
Qed.

(* ================================================================= *)
(** * Comparing numbers *)

Lemma SFcompare_antisym x y :
  SFcompare y x = option_map CompOpp (SFcompare x y).
Proof.
  destruct x as [sx|sx| |sx mx ex]; destruct y as [sy|sy| |sy my ey];
    cbn [SFcompare option_map]; try reflexivity;
    try (destruct sx; reflexivity); try (destruct sy; reflexivity);
    try (destruct sx, sy; reflexivity).
  change (PosDef.Pos.compare_cont Eq my mx) with (Pos.compare_cont Eq my mx).
  change (PosDef.Pos.compare_cont Eq mx my) with (Pos.compare_cont Eq mx my).
  rewrite (Z.compare_antisym ex ey).
  assert (Pos.compare_cont Eq my mx = CompOpp (Pos.compare_cont Eq mx my)) as ->
    by (rewrite Pos.compare_cont_antisym; reflexivity).
  destruct sx, sy; try reflexivity;
    destruct (ex ?= ey); cbn [CompOpp]; try reflexivity;
    destruct (Pos.compare_cont Eq mx my); reflexivity.
Qed.

Lemma SFcompare_numbers x y :
  x <> S754_nan -> y <> S754_nan -> exists c, SFcompare x y = Some c.
Proof.
  intros Nx Ny.
  destruct x as [sx|sx| |sx mx ex]; destruct y as [sy|sy| |sy my ey];
    try congruence; cbn [SFcompare]; eexists; reflexivity.
Qed.

(** Two numbers, neither of them [NaN], are in exactly one of the three
    relations, and the five operators agree on which. *)
Lemma compare_numbers x y :
  Prim2SF x <> S754_nan -> Prim2SF y <> S754_nan ->
  exists c,
    num_lt x y = is_lt c /\ num_eq x y = is_eq c /\ num_gt x y = is_gt c /\
    num_le x y = negb (is_gt c) /\ num_ge x y = negb (is_lt c).
Proof.
  intros Nx Ny. destruct (SFcompare_numbers _ _ Nx Ny) as [c H].
  exists c. unfold num_lt, num_eq, num_gt, num_le, num_ge.
  rewrite !ltb_spec, !leb_spec, FloatAxioms.eqb_spec.
  unfold SFltb, SFleb, SFeqb.
  rewrite (SFcompare_antisym (Prim2SF x) (Prim2SF y)), H.
  destruct c; repeat split; reflexivity.
Qed.

(* ================================================================= *)
(** * Comparing [Money] *)

(** [X10] The comparisons agree.  Of two [Money] of one currency exactly
    one of [lt], [eq] and [gt] holds, [lte] is [lt] or [eq], and [gte]
    is [gt] or [eq]; of two [Money] of different currencies [eq] is
    false and the four order comparisons throw. *)
Theorem comparisons_agree (a b : Money.t) :
  constructed a -> constructed b ->
  if String.eqb (Money.currency a) (Money.currency b) then
    exists c : comparison,
      Money.lt a b = Ok (is_lt c) /\
      Money.eq a b = is_eq c /\
      Money.gt a b = Ok (is_gt c) /\
      Money.lte a b = Ok (negb (is_gt c)) /\
      Money.gte a b = Ok (negb (is_lt c))
  else
    let e := Money.E_comparison (Money.currency a) (Money.currency b) in
    Money.eq a b = false /\
    Money.lt a b = Throw e /\ Money.gt a b = Throw e /\
    Money.lte a b = Throw e /\ Money.gte a b = Throw e.
Proof.
  intros Ca Cb.
  unfold Money.lt, Money.gt, Money.lte, Money.gte, Money.compare_with, Money.eq.
  destruct (String.eqb (Money.currency a) (Money.currency b)); cbn [negb].
  - destruct (compare_numbers (Money.getUnit a) (Money.getUnit b)
                (getUnit_number a _ (constructed_integer a Ca))
                (getUnit_number b _ (constructed_integer b Cb)))
      as [c [L [E [G [Le Ge]]]]].
    exists c. rewrite L, E, G, Le, Ge, andb_true_r. repeat split; reflexivity.
  - rewrite andb_false_r. repeat split; reflexivity.
Qed.

Lemma SFcompare_eq x y :
  SFcompare x y = Some Eq ->
  (exists s s', x = S754_zero s /\ y = S754_zero s') \/ (x = y /\ x <> S754_nan).
Proof.
  destruct x as [sx|sx| |sx mx ex]; destruct y as [sy|sy| |sy my ey];
    cbn [SFcompare]; try discriminate;
    try (destruct sx; discriminate); try (destruct sy; discriminate).
  - intros _. left. eauto.
  - destruct sx, sy; try discriminate; intros _; right; split; congruence.
  - change (PosDef.Pos.compare_cont Eq mx my) with (Pos.compare mx my).
    intro H. right. split; [|discriminate].
    destruct sx, sy; try discriminate;
      destruct (Z.compare_spec ex ey); try discriminate; subst;
      destruct (Pos.compare_spec mx my); try discriminate; subst; reflexivity.
Qed.

Lemma num_eq_sym x y : num_eq x y = num_eq y x.
Proof.
  unfold num_eq. rewrite !FloatAxioms.eqb_spec. unfold SFeqb.
  rewrite (SFcompare_antisym (Prim2SF x) (Prim2SF y)).
  destruct (SFcompare (Prim2SF x) (Prim2SF y)) as [[]|]; reflexivity.
Qed.

Lemma num_eq_trans x y z :
  num_eq x y = true -> num_eq y z = true -> num_eq x z = true.
Proof.
  unfold num_eq. rewrite !FloatAxioms.eqb_spec. unfold SFeqb.
  destruct (SFcompare (Prim2SF x) (Prim2SF y)) as [[]|] eqn:H1; try discriminate.
  destruct (SFcompare (Prim2SF y) (Prim2SF z)) as [[]|] eqn:H2; try discriminate.
  intros _ _.
  destruct (SFcompare_eq _ _ H1) as [[s [s' [E1 E2]]]|[E1 N1]];
    destruct (SFcompare_eq _ _ H2) as [[t [t' [E3 E4]]]|[E3 N3]].
  - rewrite E1, E4. reflexivity.
  - rewrite E1, <- E3, E2. reflexivity.
  - rewrite E1, E3, E4. reflexivity.
  - rewrite E1, H2. reflexivity.
Qed.

(** [X11] [eq] is an equivalence on the [Money] the constructor builds:
    it is reflexive, symmetric and transitive. *)
Theorem eq_is_an_equivalence (a b c : Money.t) :
  constructed a ->
  Money.eq a a = true /\
  Money.eq a b = Money.eq b a /\
  (Money.eq a b = true -> Money.eq b c = true -> Money.eq a c = true).
Proof.
  intro Ca. unfold Money.eq. split; [|split].
  - rewrite String.eqb_refl, andb_true_r.
    apply num_eq_refl, (getUnit_number a _ (constructed_integer a Ca)).
  - rewrite (num_eq_sym (Money.getUnit a)), (String.eqb_sym (Money.currency a)).
    reflexivity.
  - intros H1 H2. apply andb_true_iff in H1, H2.
    destruct H1 as [U1 C1], H2 as [U2 C2]. apply andb_true_iff. split.
    + exact (num_eq_trans _ _ _ U1 U2).
    + apply String.eqb_eq in C1, C2. apply String.eqb_eq. congruence.
Qed.

(* ================================================================= *)
(** * The currency code the constructor stores *)







(* ================================================================= *)
(** * What [split] returns *)

Section SplitParts.

Variable this : Money.t.
Hypothesis this_constructed : constructed this.

Lemma split_loop_parts (ps : list number) :
  forall st st',
    Money.split_loop this ps st = Ok st' ->
    exists parts,
      Money.results st' = (Money.results st ++ parts)%list /\
      List.map Money.getSubunit parts
      = List.map (fun x => StringToNumber (toFixed x 0))
                 (Money.allocations this ps (Money.available st)) /\
      forallb isFinite_num (Money.allocations this ps (Money.available st)) = true /\
      Forall (fun m => Money.currency m = Money.currency this /\
                       integer_value (Money.getSubunit m) (amount m)) parts.
Proof.
  induction ps as [|p ps IH]; intros st st' H;
    cbn [Money.split_loop Money.allocations] in *.
  - injection H as <-. exists []. rewrite app_nil_r. repeat split. constructor.
  - unfold bind in H.
    destruct (Money.split_step this st p) as [st1|e] eqn:E1; [|discriminate].
    unfold Money.split_step, bind in E1.
    destruct (num_gt _ _);
      (destruct (Money.construct _ _) as [m|] eqn:Cm; [|discriminate]);
      injection E1 as <-;
      destruct (IH _ _ H) as [parts [R [M [F P]]]];
      cbn [Money.available Money.results] in R, M, F;
      destruct (construct_inv _ _ _ Cm) as [x [Ex [Fx [Vx _]]]];
      injection Ex as <-;
      exists (m :: parts);
      (split; [rewrite R, <- app_assoc; reflexivity|]);
      (split; [cbn [List.map]; rewrite M; unfold Money.getSubunit at 1;
               rewrite Vx; reflexivity|]);
      (split; [cbn [forallb]; rewrite Fx, F; reflexivity|]);
      constructor; try assumption;
      exact (construct_for_receiver this _ m this_constructed Cm).
Qed.

End SplitParts.

(** [X13] [split] returns exactly when there is a portion, the portions
    add up to 100 and every allocation is finite; it then returns one
    [Money] per portion, in order, each of the receiver's currency and
    holding the allocation rounded to an integer. *)
Theorem split_returns_one_part_per_portion (this : Money.t) (ps : list number) :
  constructed this ->
  let allocated := Money.allocations this ps (Money.cents this) in
  ((exists parts, Money.split this (Some ps) = Ok parts) <->
   ps <> [] /\
   num_eq (fold_left PrimFloat.add ps 0%float) 100 = true /\
   forallb isFinite_num allocated = true) /\
  forall parts,
    Money.split this (Some ps) = Ok parts ->
    List.length parts = List.length ps /\
    List.map Money.getSubunit parts
    = List.map (fun x => StringToNumber (toFixed x 0)) allocated /\
    Forall (fun m => Money.currency m = Money.currency this /\
                     integer_value (Money.getSubunit m) (amount m)) parts.
Proof.
  intros C allocated.
  set (st0 := {| Money.portionsSum := zero; Money.available := Money.cents this;
                 Money.results := [] |}).
  assert (forall parts,
            Money.split this (Some ps) = Ok parts ->
            ps <> [] /\
            num_eq (fold_left PrimFloat.add ps 0%float) 100 = true /\
            forallb isFinite_num allocated = true /\
            List.map Money.getSubunit parts
            = List.map (fun x => StringToNumber (toFixed x 0)) allocated /\
            Forall (fun m => Money.currency m = Money.currency this /\
                             integer_value (Money.getSubunit m) (amount m)) parts) as K.
  { intros parts H. unfold Money.split in H.
    destruct ps as [|p ps']; [discriminate|]. split; [discriminate|].
    unfold bind in H. fold st0 in H.
    destruct (Money.split_loop this (p :: ps') st0) as [st|e] eqn:L; [|discriminate].
    rewrite (split_loop_sum this _ _ _ L) in H. cbn [Money.portionsSum st0] in H.
    change zero with 0%float in H.
    destruct (num_eq _ 100); cbn [negb] in H; [|discriminate].
    injection H as <-. split; [reflexivity|].
    destruct (split_loop_parts this C _ _ _ L) as [parts [R [M [F P]]]].
    cbn [Money.results Money.available st0 app] in R, M, F. rewrite R.
    repeat split; assumption. }
  split; [split|].
  - intros [parts H]. destruct (K parts H) as [N [S [F _]]]. repeat split; assumption.
  - intros [N [S F]]. destruct ps as [|p ps']; [congruence|].
    destruct (split_loop_finite this (p :: ps') st0 F) as [st L].
    exists (Money.results st). unfold Money.split, bind. fold st0. rewrite L.
    rewrite (split_loop_sum this _ _ _ L). cbn [Money.portionsSum st0].
    change zero with 0%float. rewrite S. reflexivity.
  - intros parts H. destruct (K parts H) as [_ [_ [_ [M P]]]].
    split; [|split; assumption].
    apply (f_equal (@List.length number)) in M. rewrite !length_map in M.
    rewrite M. clear. unfold allocated. generalize (Money.cents this).
    induction ps as [|p ps IH]; intro av; cbn [Money.allocations]; [reflexivity|].
    destruct (num_gt _ _); cbn [List.length]; rewrite IH; reflexivity.
Qed.

(* ================================================================= *)
(** * Comparing integers held in numbers *)

Lemma bounded_range m e :
  bounded prec emax m e = true ->
  -1074 <= e /\ Z.pos m < 2 ^ 53 /\ (-1074 < e -> 2 ^ 52 <= Z.pos m).
Proof.
  intro B. destruct (bounded_inv m e B) as [C _].
  pose proof (digits2_bounds m) as D.
  set (d := Z.pos (digits2_pos m)) in *.
  assert (0 < d) by (unfold d; lia).
  split; [lia|]. split.
  - apply Z.lt_le_trans with (2 ^ d); [lia|]. apply Z.pow_le_mono_r; lia.
  - intro L. assert (d = 53) as E by lia. rewrite E in D.
    change (53 - 1) with 52 in D. lia.
Qed.

Lemma canonical_lt m1 e1 m2 e2 c :
  bounded prec emax m1 e1 = true -> bounded prec emax m2 e2 = true ->
  c <= e1 -> e1 < e2 ->
  Z.pos m1 * 2 ^ (e1 - c) < Z.pos m2 * 2 ^ (e2 - c).
Proof.
  intros B1 B2 C L.
  destruct (bounded_range m1 e1 B1) as [L1 [U1 _]].
  destruct (bounded_range m2 e2 B2) as [_ [_ N2]].
  specialize (N2 ltac:(lia)).
  replace (e2 - c) with ((e2 - e1) + (e1 - c)) by lia.
  rewrite Z.pow_add_r by lia.
  pose proof (pow2_pos (e1 - c) ltac:(lia)).
  assert (2 ^ 1 <= 2 ^ (e2 - e1)) by (apply Z.pow_le_mono_r; lia).
  change (2 ^ 1) with 2 in *. change (2 ^ 53) with (2 * 2 ^ 52) in U1.
  assert (Z.pos m1 < 2 * Z.pos m2) as K by lia.
  generalize dependent (2 ^ (e1 - c)). generalize dependent (2 ^ (e2 - e1)).
  intros Q HQ P HP.
  apply Z.lt_le_trans with (2 * Z.pos m2 * P); [apply Z.mul_lt_mono_pos_r; lia|].
  replace (Z.pos m2 * (Q * P)) with (Q * Z.pos m2 * P) by ring.
  apply Z.mul_le_mono_nonneg_r; [lia|]. apply Z.mul_le_mono_nonneg_r; lia.
Qed.

Lemma mul_compare_r n m p : 0 < p -> (n * p ?= m * p) = (n ?= m).
Proof.
  intro H. destruct (Z.compare_spec n m) as [->|L|L].
  - apply Z.compare_refl.
  - apply Z.compare_lt_iff. nia.
  - apply Z.compare_gt_iff. nia.
Qed.

Lemma canonical_compare m1 e1 m2 e2 c :
  bounded prec emax m1 e1 = true -> bounded prec emax m2 e2 = true ->
  c <= e1 -> c <= e2 ->
  match e1 ?= e2 with
  | Eq => Pos.compare_cont Eq m1 m2
  | Lt => Lt
  | Gt => Gt
  end = (Z.pos m1 * 2 ^ (e1 - c) ?= Z.pos m2 * 2 ^ (e2 - c)).
Proof.
  intros B1 B2 C1 C2. destruct (Z.compare_spec e1 e2) as [->|L|L].
  - rewrite mul_compare_r by (apply pow2_pos; lia). reflexivity.
  - symmetry. apply Z.compare_lt_iff. apply canonical_lt; assumption.
  - symmetry. apply Z.compare_gt_iff. apply canonical_lt; assumption.
Qed.

Lemma magnitude_compare m1 e1 m2 e2 z1 z2 :
  bounded prec emax m1 e1 = true -> bounded prec emax m2 e2 = true ->
  exact_num m1 e1 = Z.abs z1 * exact_den e1 ->
  exact_num m2 e2 = Z.abs z2 * exact_den e2 ->
  match e1 ?= e2 with
  | Eq => Pos.compare_cont Eq m1 m2
  | Lt => Lt
  | Gt => Gt
  end = (Z.abs z1 ?= Z.abs z2).
Proof.
  intros B1 B2 V1 V2.
  set (c := Z.min (Z.min e1 e2) 0).
  rewrite (canonical_compare m1 e1 m2 e2 c B1 B2) by (unfold c; lia).
  rewrite (integer_mantissa m1 e1 z1 c V1), (integer_mantissa m2 e2 z2 c V2)
    by (unfold c; lia).
  apply mul_compare_r, pow2_pos. unfold c; lia.
Qed.

(** Numbers that hold integers compare as the integers. *)
Lemma compare_integers x y zx zy :
  integer_value x zx -> integer_value y zy ->
  SFcompare (Prim2SF x) (Prim2SF y) = Some (zx ?= zy).
Proof.
  unfold integer_value.
  destruct (Prim2SF x) as [sx|sx| |sx mx ex] eqn:Ex; try contradiction;
    destruct (Prim2SF y) as [sy|sy| |sy my ey] eqn:Ey; try contradiction.
  - intros -> ->. reflexivity.
  - intros -> [Vy Sy]. cbn [SFcompare]. f_equal.
    pose proof (exact_num_pos my ey). pose proof (exact_den_pos ey).
    subst sy. destruct (Z.ltb_spec zy 0); symmetry.
    + apply Z.compare_gt_iff. lia.
    + apply Z.compare_lt_iff. nia.
  - intros [Vx Sx] ->. cbn [SFcompare]. f_equal.
    pose proof (exact_num_pos mx ex). pose proof (exact_den_pos ex).
    subst sx. destruct (Z.ltb_spec zx 0); symmetry.
    + apply Z.compare_lt_iff. lia.
    + apply Z.compare_gt_iff. nia.
  - intros [Vx Sx] [Vy Sy]. cbn [SFcompare]. f_equal.
    pose proof (magnitude_compare mx ex my ey zx zy
                  (finite_bounded _ _ _ _ Ex) (finite_bounded _ _ _ _ Ey) Vx Vy) as M.
    pose proof (exact_num_pos mx ex). pose proof (exact_den_pos ex).
    pose proof (exact_num_pos my ey). pose proof (exact_den_pos ey).
    assert (0 < Z.abs zx) by nia. assert (0 < Z.abs zy) by nia.
    change (PosDef.Pos.compare_cont Eq mx my) with (Pos.compare_cont Eq mx my).
    subst sx sy.
    destruct (Z.ltb_spec zx 0), (Z.ltb_spec zy 0).
    + transitivity (CompOpp (Z.abs zx ?= Z.abs zy)).
      * rewrite <- M. destruct (ex ?= ey); reflexivity.
      * rewrite <- Z.compare_antisym. rewrite !Z.abs_neq by lia.
        rewrite Z.compare_opp. reflexivity.
    + symmetry. apply Z.compare_lt_iff. lia.
    + symmetry. apply Z.compare_gt_iff. lia.
    + rewrite M, !Z.abs_eq by lia. reflexivity.
Qed.

Lemma num_gt_integers x y zx zy :
  integer_value x zx -> integer_value y zy -> num_gt x y = (zy <? zx).
Proof.
  intros Vx Vy. unfold num_gt. rewrite ltb_spec. unfold SFltb.
  rewrite (compare_integers y x zy zx Vy Vx). unfold Z.ltb.
  destruct (zy ?= zx); reflexivity.
Qed.

(* ================================================================= *)
(** * The shares [split] computes *)

Lemma binary_round_aux_nonneg m e l :
  0 <= m -> nonneg_sf (binary_round_aux prec emax false m e l).
Proof.
  intro H. unfold binary_round_aux.
  pose proof (shr_fexp_nonneg m e l H) as H1.
  destruct (shr_fexp prec emax m e l) as [mrs' e']. cbn [fst] in H1.
  pose proof (shr_fexp_nonneg _ e' loc_Exact
                (round_nearest_even_nonneg _ (loc_of_shr_record mrs') H1)) as H2.
  destruct (shr_fexp prec emax _ e' loc_Exact) as [mrs'' e'']. cbn [fst] in H2.
  destruct (shr_m mrs'') as [|p|p]; try lia; [exact I|].
  destruct (IntDef.Z.leb e'' (IntDef.Z.sub emax prec)); reflexivity.
Qed.

Lemma SFmul_nonneg x y :
  is_number_sf x -> is_number_sf y -> nonneg_sf x -> nonneg_sf y ->
  nonneg_sf (SFmul prec emax x y).
Proof.
  destruct x as [sx|sx| |sx mx ex]; destruct y as [sy|sy| |sy my ey];
    cbn [is_number_sf nonneg_sf SFmul]; try tauto.
  intros _ _ -> ->. apply binary_round_aux_nonneg. lia.
Qed.

Lemma SFdiv_nonneg x my ey :
  nonneg_sf x -> nonneg_sf (SFdiv prec emax x (S754_finite false my ey)).
Proof.
  destruct x as [sx|sx| |sx mx ex]; cbn [nonneg_sf SFdiv]; try tauto.
  - intros ->. reflexivity.
  - intros ->. cbn [xorb]. unfold SFdiv_core_binary.
    match goal with
    | |- context [IntDef.Z.div_eucl ?a ?b] =>
        pose proof (Z.div_pos a b) as Q;
        assert (0 <= a) as A; [|
        change (Z.div a b) with (fst (IntDef.Z.div_eucl a b)) in Q;
        destruct (IntDef.Z.div_eucl a b) as [q r]; cbn [fst] in Q ]
    end.
    + match goal with |- 0 <= match ?s with _ => _ end => destruct s end; try lia.
      apply Z.shiftl_nonneg. lia.
    + apply binary_round_aux_nonneg. apply Q; [exact A|reflexivity].
Qed.

Lemma integer_nonneg x z : integer_value x z -> 0 <= z -> nonneg_sf (Prim2SF x).
Proof.
  unfold integer_value. destruct (Prim2SF x) as [s|s| |s m e]; try contradiction.
  - intros _ _. exact I.
  - intros [_ ->] H. cbn [nonneg_sf]. apply Z.ltb_ge, H.
Qed.

Lemma portion_nonneg p :
  isFinite_num p = true -> num_lt p zero = false -> nonneg_sf (Prim2SF p).
Proof.
  intros F. apply isFinite_num_spec in F. unfold num_lt. rewrite ltb_spec.
  unfold SFltb. change (Prim2SF zero) with (S754_zero false).
  destruct (Prim2SF p) as [s|s| |s m e]; cbn in F; try contradiction.
  - intros _. exact I.
  - cbn [SFcompare nonneg_sf]. destruct s; [discriminate|reflexivity].
Qed.

(** The share of a non-negative amount for a non-negative portion. *)
Lemma share_nonneg c zc p :
  integer_value c zc -> 0 <= zc ->
  isFinite_num p = true -> num_lt p zero = false ->
  nonneg_sf (Prim2SF (c * p / 100)%float).
Proof.
  intros Vc Zc Fp Pp.
  rewrite div_spec, mul_spec. destruct hundred_finite as [m [e ->]].
  apply SFdiv_nonneg, SFmul_nonneg.
  - apply isFinite_num_spec, (integer_value_finite _ _ Vc).
  - apply isFinite_num_spec, Fp.
  - exact (integer_nonneg _ _ Vc Zc).
  - exact (portion_nonneg _ Fp Pp).
Qed.

Lemma nonneg_nearest x :
  nonneg_sf (Prim2SF x) -> 0 <= nearest_integer x.
Proof.
  unfold nearest_integer. destruct (Prim2SF x) as [s|s| |s m e]; cbn [nonneg_sf];
    try lia.
  intros ->. apply round_half_up_nonneg.
  - pose proof (exact_num_pos m e). lia.
  - apply exact_den_pos.
Qed.

Lemma nonneg_not_finite x :
  nonneg_sf (Prim2SF x) -> isFinite_num x = false -> x = infinity.
Proof.
  intros N F.
  assert (~ is_number_sf (Prim2SF x)) as F'.
  { intro E. apply isFinite_num_spec in E. congruence. }
  rewrite <- (SF2Prim_Prim2SF x).
  destruct (Prim2SF x) as [s|s| |s m e]; cbn in N, F'; try tauto.
  subst s. reflexivity.
Qed.

Lemma infinity_is_greater x z : integer_value x z -> num_gt infinity x = true.
Proof.
  unfold integer_value, num_gt. rewrite ltb_spec. unfold SFltb.
  change (Prim2SF infinity) with (S754_infinity false).
  destruct (Prim2SF x) as [s|s| |s m e]; try contradiction; reflexivity.
Qed.

Section SplitBounds.

Variable this : Money.t.
Variable total : Z.
Hypothesis this_value : integer_value (Money.cents this) total.
Hypothesis total_safe : 0 <= total <= MAX_SAFE_INTEGER.

(** Every allocation is an integer between zero and the balance. *)
Lemma allocations_within (ps : list number) :
  Forall (fun p => isFinite_num p = true /\ num_lt p zero = false) ps ->
  forall av za,
    integer_value av za -> 0 <= za <= total ->
    Forall (fun x => exists z, integer_value x z /\ 0 <= z <= za)
           (Money.allocations this ps av).
Proof.
  induction 1 as [|p ps [Fp Pp] _ IH]; intros av za Va Za;
    cbn [Money.allocations]; [constructor|].
  pose proof (share_nonneg _ _ p this_value (proj1 total_safe) Fp Pp) as N.
  set (v := (Money.cents this * p / 100)%float) in *.
  destruct (isFinite_num v) eqn:F.
  - pose proof (toFixed0_finite v F) as Vr.
    pose proof (nonneg_nearest v N) as Zr.
    rewrite (num_gt_integers _ _ _ _ Vr Va).
    destruct (Z.ltb_spec za (nearest_integer v)) as [L|L].
    + constructor; [exists za; split; [exact Va|lia]|]. apply IH; assumption.
    + constructor; [exists (nearest_integer v); split; [exact Vr|lia]|].
      assert (integer_value (av - StringToNumber (toFixed v 0))%float
                            (za - nearest_integer v)) as V'.
      { apply sub_integer; try assumption. unfold MAX_SAFE_INTEGER in total_safe. lia. }
      eapply Forall_impl; [|apply (IH _ _ V'); lia].
      intros x [z [Vz Bz]]. exists z. split; [exact Vz|lia].
  - rewrite (not_number_reads v 0 F), (nonneg_not_finite v N F).
    rewrite (infinity_is_greater av za Va).
    constructor; [exists za; split; [exact Va|lia]|]. apply IH; assumption.
Qed.

End SplitBounds.

Lemma Forall_map_eq {A B} (f : A -> B) (g : B -> B) (P : B -> Prop) :
  forall (l : list A) (xs : list B),
    List.map f l = List.map g xs ->
    Forall (fun x => P (g x)) xs -> Forall (fun m => P (f m)) l.
Proof.
  induction l as [|a l IH]; intros [|x xs] E H; try discriminate; [constructor|].
  cbn [List.map] in E. injection E as E1 E2. inversion H; subst.
  constructor; [rewrite E1; assumption|]. apply (IH xs); assumption.
Qed.

(** [X14] Of a non-negative amount within the safe integers, split by
    portions that are not negative, no part is negative and no part
    exceeds the amount split. *)
Theorem split_parts_stay_within_the_amount
        (this : Money.t) (ps : list number) (parts : list Money.t) :
  constructed this ->
  0 <= amount this <= MAX_SAFE_INTEGER ->
  Forall (fun p => isFinite_num p = true /\ num_lt p zero = false) ps ->
  Money.split this (Some ps) = Ok parts ->
  Forall (fun m => 0 <= amount m <= amount this) parts.
Proof.
  intros C S P H.
  destruct (split_returns_one_part_per_portion this ps C) as [_ K].
  destruct (K parts H) as [_ [M _]].
  pose proof (allocations_within this (amount this) (constructed_integer this C) S ps P
                (Money.cents this) (amount this) (constructed_integer this C)
                ltac:(lia)) as W.
  apply (Forall_map_eq Money.getSubunit (fun x => StringToNumber (toFixed x 0))
           (fun y => 0 <= nearest_integer y <= amount this) parts _ M).
  eapply Forall_impl; [|exact W].
  intros x [z [Vz Bz]]. cbv beta.
  assert (integer_value (StringToNumber (toFixed x 0)) z) as V'.
  { rewrite (toFixed0_integer x z Vz). destruct (Z.eqb_spec z 0) as [->|]; [|exact Vz].
    reflexivity. }
  rewrite (integer_value_nearest _ _ V'). exact Bz.
Qed.

(* ================================================================= *)
(** * The remainder and the quotient of integers *)

(** The number of a positive integer below [2^53]. *)
Lemma finite_integer m e z :
  bounded prec emax m e = true -> e <= 0 -> Z.pos m = z * 2 ^ (- e) ->
  integer_value (SF2Prim (S754_finite false m e)) z.
Proof.
  intros B E M.
  assert (0 < z) as Pz by (pose proof (pow2_pos (- e) ltac:(lia)); nia).
  apply (integer_value_intro _ false m e).
  - apply Prim2SF_SF2Prim. exact B.
  - exact E.
  - rewrite Z.abs_eq by lia. exact M.
  - symmetry. apply Z.ltb_ge. lia.
Qed.

Lemma of_Z_integer z : Z.abs z < 2 ^ 53 -> integer_value (of_Z z) z.
Proof.
  intro S. unfold of_Z. destruct (Z.eq_dec z 0) as [->|N]; [reflexivity|].
  destruct (nearest_sf_integer (z <? 0) (Z.abs z) ltac:(lia)) as [m [e [B [E [M R]]]]].
  apply (integer_value_intro _ (z <? 0) m e); try assumption; [|reflexivity].
  rewrite SF2Prim_nearest. exact R.
Qed.

Lemma integer_is_of_Z x z : integer_value x z -> z <> 0 -> Z.abs z < 2 ^ 53 -> x = of_Z z.
Proof.
  intros V N S. exact (integer_value_inj _ _ z V (of_Z_integer z S) N).
Qed.

Lemma rem_integers a b za zb :
  integer_value a za -> integer_value b zb ->
  0 <= za < 2 ^ 53 -> 0 < zb < 2 ^ 53 ->
  integer_value (rem a b) (za mod zb).
Proof.
  intros Va Vb Sa Sb. unfold rem.
  pose proof Va as Va'. pose proof Vb as Vb'. unfold integer_value in Va', Vb'.
  destruct (Prim2SF a) as [sa|sa| |sa ma ea] eqn:Ea; try contradiction;
    destruct (Prim2SF b) as [sb|sb| |sb mb eb] eqn:Eb; try contradiction; try lia.
  - subst za. rewrite Z.mod_0_l by lia. exact Va.
  - destruct Va' as [Ma Sa'], Vb' as [Mb Sb'].
    destruct (integer_canonical ma ea za (finite_bounded _ _ _ _ Ea) Ma ltac:(lia))
      as [La [Ka _]].
    destruct (integer_canonical mb eb zb (finite_bounded _ _ _ _ Eb) Mb ltac:(lia))
      as [Lb [Kb _]].
    set (e := Z.min ea eb).
    assert (e <= 0) as Le by (unfold e; lia).
    rewrite (integer_mantissa ma ea za e Ma) by (unfold e; lia).
    rewrite (integer_mantissa mb eb zb e Mb) by (unfold e; lia).
    rewrite !Z.abs_eq by lia.
    pose proof (pow2_pos (- e) ltac:(lia)) as P.
    rewrite Z.mul_mod_distr_r by lia.
    pose proof (Z.mod_pos_bound za zb ltac:(lia)) as R.
    assert (sa = false) as -> by (rewrite Sa'; apply Z.ltb_ge; lia).
    destruct (Z.eqb_spec (za mod zb * 2 ^ (- e)) 0) as [Z0|NZ].
    + assert (za mod zb = 0) as -> by nia. reflexivity.
    + assert (0 < za mod zb) as Pn by nia.
      destruct (canonical_integer (za mod zb) ltac:(lia)) as [m [e' [B [E' M]]]].
      set (c := Z.min e e').
      assert (c <= e /\ c <= e') as [C1 C2] by (unfold c; lia).
      assert (Z.abs (za mod zb * 2 ^ (- e)) * 2 ^ (e - c) = Z.pos m * 2 ^ (e' - c)) as V.
      { rewrite Z.abs_eq by nia. rewrite M.
        transitivity (za mod zb * 2 ^ (- c)).
        - rewrite <- Z.mul_assoc, <- Z.pow_add_r by lia. f_equal. f_equal. lia.
        - rewrite <- Z.mul_assoc, <- Z.pow_add_r by lia. f_equal. f_equal. lia. }
      rewrite (binary_normalize_exact _ e m e' c B C1 C2 V).
      assert ((za mod zb * 2 ^ (- e) <? 0) = false) as -> by (apply Z.ltb_ge; nia).
      apply finite_integer; assumption.
Qed.

Lemma div_eucl_exact a b q : 0 < b -> a = b * q -> Z.div_eucl a b = (q, 0).
Proof.
  intros Hb E.
  pose proof (Z.div_unique a b q 0 ltac:(lia) ltac:(lia)) as Hq.
  pose proof (Z.mod_unique a b q 0 ltac:(lia) ltac:(lia)) as Hr.
  unfold Z.div, Z.modulo in Hq, Hr.
  destruct (Z.div_eucl a b) as [q' r']. congruence.
Qed.

Lemma digits_53 m : 2 ^ 52 <= Z.pos m < 2 ^ 53 -> Z.pos (digits2_pos m) = 53.
Proof.
  intro R. pose proof (digits2_bounds m) as D.
  set (d := Z.pos (digits2_pos m)) in *.
  assert (0 < d) by (unfold d; lia).
  destruct (Z.lt_trichotomy d 53) as [L|[E|G]]; [exfalso|exact E|exfalso].
  - assert (2 ^ d <= 2 ^ 52) by (apply Z.pow_le_mono_r; lia). lia.
  - assert (2 ^ 53 <= 2 ^ (d - 1)) by (apply Z.pow_le_mono_r; lia). lia.
Qed.

(** The quotient of two integers below [2^53], when it is an integer. *)
Lemma SFdiv_integers sx mx ex sy my ey zx zy :
  bounded prec emax mx ex = true -> bounded prec emax my ey = true ->
  exact_num mx ex = Z.abs zx * exact_den ex -> sx = (zx <? 0) ->
  exact_num my ey = Z.abs zy * exact_den ey -> sy = (zy <? 0) ->
  Z.abs zx < 2 ^ 53 -> Z.abs zy < 2 ^ 53 -> (zy | zx) ->
  exists m e,
    SFdiv prec emax (S754_finite sx mx ex) (S754_finite sy my ey)
    = S754_finite (zx / zy <? 0) m e /\
    exact_num m e = Z.abs (zx / zy) * exact_den e.
Proof.
  intros Bx By Vx Sx Vy Sy S1 S2 [k K].
  pose proof (exact_num_pos mx ex) as Px. pose proof (exact_den_pos ex) as Qx.
  pose proof (exact_num_pos my ey) as Py. pose proof (exact_den_pos ey) as Qy.
  assert (0 < Z.abs zx) as Ax by nia.
  assert (0 < Z.abs zy) as Ay by nia.
  assert (zx / zy = k) as Dk by (subst zx; apply Z.div_mul; lia).
  assert (Z.abs zx = Z.abs k * Z.abs zy) as Ak by (subst zx; apply Z.abs_mul).
  assert (0 < Z.abs k) as Pk by nia.
  assert (Z.abs k < 2 ^ 53) as Sk by nia.
  destruct (integer_canonical mx ex zx Bx Vx S1) as [Ex [Mx Rx]].
  destruct (integer_canonical my ey zy By Vy S2) as [Ey [My Ry]].
  destruct (canonical_integer (Z.abs k) ltac:(lia)) as [m [e [B [E M]]]].
  destruct (bounded_range m e B) as [_ [Rm _]].
  exists m, e. rewrite Dk. split.
  2:{ unfold exact_num, exact_den. destruct (Z.leb_spec 0 e).
      - assert (e = 0) as -> by lia. simpl in *. lia.
      - exact M. }
  (* the bounds on the exponents *)
  pose proof (pow2_pos (- ex) ltac:(lia)) as Pex.
  pose proof (pow2_pos (- ey) ltac:(lia)) as Pey.
  assert (-53 < ex) as Lx.
  { destruct (Z.lt_ge_cases (-53) ex) as [|G]; [assumption|exfalso].
    assert (2 ^ 53 <= 2 ^ (- ex)) by (apply Z.pow_le_mono_r; lia). nia. }
  assert (-53 < ey) as Ly.
  { destruct (Z.lt_ge_cases (-53) ey) as [|G]; [assumption|exfalso].
    assert (2 ^ 53 <= 2 ^ (- ey)) by (apply Z.pow_le_mono_r; lia). nia. }
  set (e0 := ex - ey - 53).
  assert (0 < 2 ^ (- e0)) as Pe0 by (apply pow2_pos; unfold e0; lia).
  remember (Z.abs k * 2 ^ (- e0)) as Q eqn:EQ.
  assert (0 < Q) as PQ by (rewrite EQ; apply Z.mul_pos_pos; assumption).
  assert (Z.pos mx * 2 ^ 53 = Z.pos my * Q) as Ediv.
  { rewrite EQ, Mx, My, Ak.
    assert (2 ^ (- e0) * 2 ^ (- ey) = 2 ^ (- ex) * 2 ^ 53) as H
      by (rewrite <- !Z.pow_add_r by (unfold e0; lia); f_equal; unfold e0; lia).
    transitivity (Z.abs k * Z.abs zy * (2 ^ (- ex) * 2 ^ 53)); [ring|].
    rewrite <- H. ring. }
  assert (SFdiv_core_binary prec emax (Z.pos mx) ex (Z.pos my) ey = (Q, e0, loc_Exact)) as Core.
  { unfold SFdiv_core_binary.
    change (Zdigits2 (Z.pos mx)) with (Z.pos (digits2_pos mx)).
    change (Zdigits2 (Z.pos my)) with (Z.pos (digits2_pos my)).
    rewrite (digits_53 mx Rx), (digits_53 my Ry), fexp_eq.
    assert (IntDef.Z.min (Z.max (53 + ex - (53 + ey) - 53) (-1074)) (ex - ey) = e0) as ->.
    { change IntDef.Z.min with Z.min. unfold e0. lia. }
    replace (ex - ey - e0) with 53 by (unfold e0; lia).
    change (IntDef.Z.shiftl (Z.pos mx) 53) with (Z.shiftl (Z.pos mx) 53).
    rewrite Z.shiftl_mul_pow2 by lia.
    change (IntDef.Z.div_eucl (Z.pos mx * 2 ^ 53) (Z.pos my))
      with (Z.div_eucl (Z.pos mx * 2 ^ 53) (Z.pos my)).
    rewrite (div_eucl_exact _ _ Q (Pos2Z.is_pos my) Ediv).
    f_equal. unfold new_location, new_location_even, new_location_odd.
    destruct (IntDef.Z.even (Z.pos my)); reflexivity. }
  cbn [SFdiv]. rewrite Core. clear Core.
  destruct Q as [|q|q]; try lia.
  assert (2 ^ 52 < Z.pos q) as Big.
  { change (2 ^ 53) with (2 * 2 ^ 52) in Ediv, Ry. nia. }
  assert (e0 <= e) as Le.
  { destruct (Z.le_gt_cases e0 e) as [|Gt]; [assumption|exfalso].
    assert (Z.pos m = Z.pos q * 2 ^ (e0 - e)) as K'.
    { rewrite EQ, M, <- Z.mul_assoc, <- Z.pow_add_r by lia.
      f_equal. f_equal. lia. }
    assert (2 ^ 1 <= 2 ^ (e0 - e)) by (apply Z.pow_le_mono_r; lia).
    change (2 ^ 1) with 2 in *. change (2 ^ 53) with (2 * 2 ^ 52) in Rm. nia. }
  rewrite (binary_round_aux_shift (xorb sx sy) q e0 m e B Le).
  - f_equal. subst sx sy zx.
    destruct (Z.ltb_spec (k * zy) 0), (Z.ltb_spec zy 0), (Z.ltb_spec k 0);
      try reflexivity; exfalso; nia.
  - rewrite EQ, M, <- Z.mul_assoc, <- Z.pow_add_r by lia.
    f_equal. f_equal. lia.
Qed.

Lemma div_integer x y zx zy :
  integer_value x zx -> integer_value y zy ->
  Z.abs zx < 2 ^ 53 -> Z.abs zy < 2 ^ 53 -> zy <> 0 -> (zy | zx) ->
  integer_value (x / y)%float (zx / zy).
Proof.
  unfold integer_value. rewrite div_spec. unfold SF64div.
  destruct (Prim2SF x) as [sx|sx| |sx mx ex] eqn:Ex; try contradiction;
    destruct (Prim2SF y) as [sy|sy| |sy my ey] eqn:Ey; try contradiction;
    try (intros _ -> _ _ N; congruence).
  - intros -> _ _ _ _ _. reflexivity.
  - intros [Vx Sx] [Vy Sy] S1 S2 _ D.
    destruct (SFdiv_integers sx mx ex sy my ey zx zy
                (finite_bounded _ _ _ _ Ex) (finite_bounded _ _ _ _ Ey)
                Vx Sx Vy Sy S1 S2 D) as [m [e [-> V]]].
    split; [exact V | reflexivity].
Qed.

(* ================================================================= *)
(** * [simplifyFraction] *)

Lemma truthy_integer b zb : integer_value b zb -> truthy (JNum b) = negb (zb =? 0).
Proof.
  intro V. cbn [truthy].
  rewrite (finite_not_nan b (integer_value_finite _ _ V)), orb_false_r.
  f_equal. unfold PrimFloat.is_zero. rewrite FloatAxioms.eqb_spec. unfold SFeqb.
  assert (integer_value zero 0) as V0 by reflexivity.
  rewrite (compare_integers b zero zb 0 V V0).
  destruct (Z.compare_spec zb 0), (Z.eqb_spec zb 0); try reflexivity; lia.
Qed.

(** Euclid's algorithm on two integers, the larger first: each call
    halves the product of the two. *)
Lemma gcd_loop (n : nat) :
  forall (depth : nat) a b za zb,
    (n < depth)%nat ->
    integer_value a za -> integer_value b zb ->
    0 <= zb <= za -> za < 2 ^ 53 -> za * zb < 2 ^ Z.of_nat n ->
    exists g, Odds.findGreatestCommonDen depth a b = Ok g /\
              integer_value g (Z.gcd za zb).
Proof.
  induction n as [|n IH]; intros depth a b za zb D Va Vb B S P;
    (destruct depth as [|depth]; [lia|]); cbn [Odds.findGreatestCommonDen];
    rewrite (truthy_integer b zb Vb);
    destruct (Z.eqb_spec zb 0) as [->|N]; cbn [negb];
    try (exists a; split; [reflexivity|]; rewrite Z.gcd_0_r, Z.abs_eq by lia; exact Va).
  - exfalso. change (2 ^ Z.of_nat 0) with 1 in P. nia.
  - pose proof (Z.mod_pos_bound za zb ltac:(lia)) as R.
    pose proof (Z.div_mod za zb N) as E.
    assert (1 <= za / zb) as Q by (apply Z.div_le_lower_bound; lia).
    destruct (IH depth b (rem a b) zb (za mod zb)) as [g [H V]];
      try assumption; try lia.
    + apply rem_integers; assumption || lia.
    + rewrite Nat2Z.inj_succ, Z.pow_succ_r in P by lia. nia.
    + exists g. split; [exact H|].
      rewrite Z.gcd_comm, Z.gcd_mod, Z.gcd_comm in V by assumption. exact V.
Qed.

Lemma gcd_step depth a b :
  Odds.findGreatestCommonDen (S depth) a b
  = if truthy (JNum b) then Odds.findGreatestCommonDen depth b (rem a b) else Ok a.
Proof. reflexivity. Qed.

Lemma gcd_integers a b za zb :
  integer_value a za -> integer_value b zb ->
  0 <= za < 2 ^ 53 -> 0 <= zb < 2 ^ 53 ->
  exists g, Odds.findGreatestCommonDen Odds.stack_depth a b = Ok g /\
            integer_value g (Z.gcd za zb).
Proof.
  intros Va Vb Sa Sb.
  assert (exists depth, Odds.stack_depth = S depth /\ (106 < depth)%nat) as [depth [-> D]].
  { exists (pred Odds.stack_depth). split; [reflexivity|].
    apply Nat.ltb_lt. vm_compute. reflexivity. }
  rewrite gcd_step, (truthy_integer b zb Vb).
  destruct (Z.eqb_spec zb 0) as [->|N]; cbn [negb].
  - exists a. split; [reflexivity|]. rewrite Z.gcd_0_r, Z.abs_eq by lia. exact Va.
  - pose proof (Z.mod_pos_bound za zb ltac:(lia)) as R.
    assert (integer_value (rem a b) (za mod zb)) as Vr
      by (apply rem_integers; assumption || lia).
    assert (zb * (za mod zb) < 2 ^ Z.of_nat 106) as P.
    { change (Z.of_nat 106) with (53 + 53). rewrite Z.pow_add_r by lia. nia. }
    destruct (gcd_loop 106 depth b (rem a b) zb (za mod zb) D Vb Vr
                ltac:(lia) ltac:(lia) P) as [g [H V]].
    exists g. split; [exact H|].
    rewrite Z.gcd_comm, Z.gcd_mod, Z.gcd_comm in V by assumption. exact V.
Qed.

Lemma zero_prints x : integer_value x 0 -> NumberToString x = "0".
Proof.
  unfold integer_value. intro V. rewrite <- (SF2Prim_Prim2SF x).
  destruct (Prim2SF x) as [s|s| |s m e]; try contradiction.
  - destruct s; vm_compute; reflexivity.
  - exfalso. pose proof (exact_num_pos m e). simpl in V. lia.
Qed.

Lemma integer_prints x z :
  integer_value x z -> Z.abs z < 2 ^ 53 -> NumberToString x = NumberToString (of_Z z).
Proof.
  intros V S. destruct (Z.eq_dec z 0) as [->|N].
  - rewrite (zero_prints x V). symmetry. apply zero_prints. reflexivity.
  - rewrite (integer_is_of_Z x z V N S). reflexivity.
Qed.

(** [X15] [simplifyFraction] reduces a fraction of two integers below
    [2^53], the numerator not negative and the denominator positive, to
    lowest terms; the recursion that looks for the common divisor stays
    within the depth the engine allows. *)
Theorem simplifyFraction_gives_lowest_terms (n d : Z) :
  0 <= n < 2 ^ 53 -> 0 < d < 2 ^ 53 ->
  let g := Z.gcd n d in
  Odds.simplifyFraction (of_Z n) (of_Z d)
  = Ok (Some (NumberToString (of_Z (n / g)) ++ "/" ++ NumberToString (of_Z (d / g)))) /\
  Z.gcd (n / g) (d / g) = 1.
Proof.
  intros Sn Sd g.
  assert (integer_value (of_Z n) n) as Vn by (apply of_Z_integer; lia).
  assert (integer_value (of_Z d) d) as Vd by (apply of_Z_integer; lia).
  assert (0 < g) as Pg.
  { pose proof (Z.gcd_nonneg n d). fold g in H.
    destruct (Z.eq_dec g 0) as [Z0|]; [|lia].
    apply Z.gcd_eq_0_r in Z0. lia. }
  assert (g <= d) as Lg.
  { apply Z.divide_pos_le; [lia|apply Z.gcd_divide_r]. }
  split; [|apply Z.gcd_div_gcd; [lia|reflexivity]].
  unfold Odds.simplifyFraction, isNaN_num.
  rewrite (truthy_integer _ _ Vd).
  rewrite (finite_not_nan _ (integer_value_finite _ _ Vn)).
  rewrite (finite_not_nan _ (integer_value_finite _ _ Vd)).
  destruct (Z.eqb_spec d 0) as [|_]; [lia|]. cbn [negb orb].
  destruct (gcd_integers _ _ n d Vn Vd ltac:(lia) ltac:(lia)) as [x [-> Vg]].
  fold g in Vg. cbn [bind].
  assert (integer_value (of_Z n / x)%float (n / g)) as V1.
  { apply div_integer; try assumption; try lia. apply Z.gcd_divide_l. }
  assert (integer_value (of_Z d / x)%float (d / g)) as V2.
  { apply div_integer; try assumption; try lia. apply Z.gcd_divide_r. }
  assert (0 <= n / g <= n) as B1.
  { split; [apply Z.div_pos; lia|]. apply Z.div_le_upper_bound; nia. }
  assert (0 <= d / g <= d) as B2.
  { split; [apply Z.div_pos; lia|]. apply Z.div_le_upper_bound; nia. }
  rewrite (integer_prints _ _ V1), (integer_prints _ _ V2) by lia.
  reflexivity.
Qed.

(* ================================================================= *)
(** * The constructor of [Odds] *)


Lemma forallb_range (P : Z -> bool) lo n k :
  forallb P (range lo n) = true -> lo <= k < lo + Z.of_nat n -> P k = true.
Proof.
  intros H B. rewrite forallb_forall in H. apply H. unfold range.
  apply in_map_iff. exists (Z.to_nat (k - lo)). split; [lia|].
  apply in_seq. lia.
Qed.

Lemma prices_agree : forallb agrees (range 101 900) = true.
Proof. vm_compute. reflexivity. Qed.

(** [X17] The three formats agree on the prices with two decimals from
    1.01 to 10.00.  The decimal field is the price, the fractional field
    is [price - 1] in lowest terms, the american field is
    [100 * (price - 1)] with a plus sign from 2.00 on and
    [100 / (price - 1)] rounded, with a minus sign, below; and the
    fractional and the american field, given back to the constructor,
    give the same decimal price. *)
Theorem two_decimal_prices_convert (k : Z) :
  101 <= k <= 1000 ->
  let price := two_decimals k in
  let fraction := lowest_terms (k - 100) 100 in
  let american := american_quote k in
  Odds.construct (JNum (StringToNumber price)) (Some "d")
  = Ok {| Odds.d := price; Odds.f := Some fraction; Odds.a := american |} /\
  (exists o, Odds.construct (JStr fraction) (Some "f") = Ok o /\ Odds.d o = price) /\
  (exists o, Odds.construct (JStr american) (Some "a") = Ok o /\ Odds.d o = price).
Proof.
  intros B price fraction american.
  pose proof (forallb_range agrees 101 900 k prices_agree ltac:(lia)) as H.
  unfold agrees, reads_back in H. fold price fraction american in H.
  apply andb_true_iff in H. destruct H as [H A].
  apply andb_true_iff in H. destruct H as [H F].
  split; [|split].
  - destruct (Odds.construct (JNum _) _) as [[d f a]|]; [|discriminate].
    cbn [Odds.d Odds.f Odds.a] in H.
    apply andb_true_iff in H. destruct H as [H Ha].
    apply andb_true_iff in H. destruct H as [Hd Hf].
    destruct f as [f|]; [|discriminate].
    apply String.eqb_eq in Hd, Hf, Ha. subst. reflexivity.
  - destruct (Odds.construct (JStr fraction) _) as [o|]; [|discriminate].
    exists o. split; [reflexivity|]. apply String.eqb_eq, F.
  - destruct (Odds.construct (JStr american) _) as [o|]; [|discriminate].
    exists o. split; [reflexivity|]. apply String.eqb_eq, A.
Qed.

(* ================================================================= *)
(** * Shares that are whole numbers *)

Lemma hundred_integer : integer_value 100%float 100.
Proof. vm_compute. split; reflexivity. Qed.

Lemma stored_integer x z :
  integer_value x z -> integer_value (StringToNumber (toFixed x 0)) z.
Proof.
  intro V. rewrite (toFixed0_integer x z V).
  destruct (Z.eqb_spec z 0) as [->|]; [reflexivity|exact V].
Qed.

Lemma num_eq_integers x y zx zy :
  integer_value x zx -> integer_value y zy -> num_eq x y = (zx =? zy).
Proof.
  intros Vx Vy. unfold num_eq. rewrite FloatAxioms.eqb_spec. unfold SFeqb.
  rewrite (compare_integers x y zx zy Vx Vy).
  destruct (Z.compare_spec zx zy), (Z.eqb_spec zx zy); try reflexivity; lia.
Qed.

(** [X18] Dividing by a whole number that divides the amount is exact. *)
Theorem divide_by_a_divisor_is_exact (this : Money.t) (x : number) (k : Z) :
  constructed this -> integer_value x k ->
  Z.abs (amount this) <= MAX_SAFE_INTEGER -> Z.abs k <= MAX_SAFE_INTEGER ->
  k <> 0 -> (k | amount this) ->
  exists r,
    Money.divide this (JNum x) = Ok r /\
    amount r = amount this / k /\
    Money.currency r = Money.currency this.
Proof.
  intros C Vx S Sk N D. unfold MAX_SAFE_INTEGER in *.
  pose proof (constructed_integer this C) as Vc.
  assert (integer_value (Money.cents this / x)%float (amount this / k)) as V
    by (apply div_integer; assumption || lia).
  pose proof (divide_outcomes this (JNum x) C) as T.
  rewrite (numeric_argument_integer x k Vx) in T. cbn [ToNumber] in T.
  assert (integer_value zero 0) as V0 by reflexivity.
  rewrite (num_eq_integers x zero k 0 Vx V0) in T.
  destruct (Z.eqb_spec k 0) as [|_]; [contradiction|]. cbv zeta in T.
  rewrite (integer_value_finite _ _ V) in T.
  destruct T as [r [H [Cr Ar]]]. exists r. split; [exact H|]. split; [|exact Cr].
  rewrite Ar. apply integer_value_nearest, V.
Qed.

(** The share of [k] percent, when it is a whole number. *)
Lemma whole_share c zc p k :
  integer_value c zc -> integer_value p k ->
  Z.abs (zc * k) < 2 ^ 53 -> (100 | zc * k) ->
  integer_value (c * p / 100)%float (zc * k / 100).
Proof.
  intros Vc Vp S D.
  apply div_integer; try assumption; try (vm_compute; reflexivity); try discriminate.
  - apply mul_integer; assumption.
  - exact hundred_integer.
Qed.

(** [X19] A percentage that comes out as a whole number of subunits is
    exact: [perc] then makes no rounding error. *)
Theorem perc_of_a_whole_share_is_exact (this : Money.t) (x : number) (k : Z) :
  constructed this -> integer_value x k ->
  Z.abs (amount this * k) <= MAX_SAFE_INTEGER ->
  (100 | amount this * k) ->
  exists r,
    Money.perc this (JNum x) = Ok r /\
    amount r = amount this * k / 100 /\
    Money.currency r = Money.currency this.
Proof.
  intros C Vx S D. unfold MAX_SAFE_INTEGER in *.
  pose proof (constructed_integer this C) as Vc.
  assert (integer_value (Money.cents this * x / 100)%float (amount this * k / 100)) as V
    by (apply whole_share; assumption || lia).
  pose proof (perc_outcomes this (JNum x) C) as T.
  rewrite (numeric_argument_integer x k Vx) in T. cbn [ToNumber] in T. cbv zeta in T.
  rewrite (integer_value_finite _ _ V) in T.
  destruct T as [r [H [Cr Ar]]]. exists r. split; [exact H|]. split; [|exact Cr].
  rewrite Ar. apply integer_value_nearest, V.
Qed.

(** The sum of whole numbers, added as numbers. *)
Lemma fold_add_integers ps :
  forall ks acc za,
    Forall2 integer_value ps ks -> integer_value acc za ->
    Forall (fun k => 0 <= k) ks -> 0 <= za ->
    za + fold_right Z.add 0 ks < 2 ^ 53 ->
    integer_value (fold_left PrimFloat.add ps acc) (za + fold_right Z.add 0 ks).
Proof.
  induction ps as [|p ps IH]; intros ks acc za F Va P Za S;
    inversion F as [|p' k ps' ks' Vp F']; subst; cbn [fold_left fold_right] in *.
  - rewrite Z.add_0_r. exact Va.
  - inversion P as [|k' ks'' Pk P']; subst.
    assert (0 <= fold_right Z.add 0 ks') as Ps.
    { clear - P'. induction P'; cbn [fold_right]; lia. }
    replace (za + (k + fold_right Z.add 0 ks')) with ((za + k) + fold_right Z.add 0 ks')
      by ring.
    apply IH; try assumption; try lia.
    apply add_integer; try assumption. lia.
Qed.

Section WholeShares.

Variable this : Money.t.
Variable total : Z.
Hypothesis this_value : integer_value (Money.cents this) total.
Hypothesis total_safe : 0 <= total /\ total * 100 <= MAX_SAFE_INTEGER.

(** While the balance covers the shares still to come, every allocation
    is the share itself. *)
Lemma allocations_of_whole_shares ps :
  forall ks av za,
    Forall2 integer_value ps ks ->
    Forall (fun k => 0 <= k /\ (100 | total * k)) ks ->
    integer_value av za ->
    fold_right Z.add 0 ks <= 100 ->
    total * fold_right Z.add 0 ks <= 100 * za -> za <= total ->
    Forall2 integer_value (Money.allocations this ps av)
            (List.map (fun k => total * k / 100) ks).
Proof.
  unfold MAX_SAFE_INTEGER in total_safe.
  induction ps as [|p ps IH]; intros ks av za F P Va S B U;
    inversion F as [|p' k ps' ks' Vp F']; subst;
    cbn [Money.allocations List.map fold_right] in *; [constructor|].
  inversion P as [|k' ks'' [Pk Dk] P']; subst.
  assert (0 <= fold_right Z.add 0 ks') as Ps.
  { clear - P'. induction P' as [|? ? [? _] ? ?]; cbn [fold_right]; lia. }
  assert (0 <= total * k <= total * 100) as Bk by nia.
  assert (integer_value (Money.cents this * p / 100)%float (total * k / 100)) as V
    by (apply whole_share; assumption || lia).
  pose proof (stored_integer _ _ V) as Vr.
  destruct Dk as [q Eq]. rewrite Eq, Z.div_mul in * by lia.
  assert (0 <= q) by nia.
  rewrite (num_gt_integers _ _ _ _ Vr Va).
  assert (q <= za) as Le by nia.
  destruct (Z.ltb_spec za q) as [|_]; [lia|].
  constructor; [exact Vr|].
  apply (IH ks' _ (za - q)); try assumption; try lia; try nia.
  apply sub_integer; try assumption. lia.
Qed.

End WholeShares.

Lemma Forall2_finite xs zs :
  Forall2 integer_value xs zs -> forallb isFinite_num xs = true.
Proof.
  induction 1 as [|x z xs zs V _ IH]; cbn [forallb]; [reflexivity|].
  rewrite (integer_value_finite _ _ V), IH. reflexivity.
Qed.

Lemma Forall2_stored ms xs zs :
  List.map Money.getSubunit ms = List.map (fun x => StringToNumber (toFixed x 0)) xs ->
  Forall2 integer_value xs zs ->
  List.map amount ms = zs.
Proof.
  intros M F. revert ms M.
  induction F as [|x z xs zs V _ IH]; intros [|m ms] M; try discriminate; [reflexivity|].
  cbn [List.map] in *. injection M as M1 M2. f_equal; [|apply IH, M2].
  unfold amount. change (Money.cents m) with (Money.getSubunit m). rewrite M1.
  apply integer_value_nearest, stored_integer, V.
Qed.

Lemma sum_of_shares total ks :
  Forall (fun k => 0 <= k /\ (100 | total * k)) ks ->
  fold_right Z.add 0 (List.map (fun k => total * k / 100) ks) * 100
  = total * fold_right Z.add 0 ks.
Proof.
  induction 1 as [|k ks [_ [q Eq]] _ IH]; cbn [List.map fold_right]; [lia|].
  rewrite Eq, Z.div_mul by lia. lia.
Qed.

(** [X20] When the portions are whole percentages that add up to 100 and
    every share is a whole number of subunits, [split] returns the
    shares themselves, and they add up to the amount split. *)
Theorem split_of_whole_shares_is_exact
        (this : Money.t) (ps : list number) (ks : list Z) :
  constructed this ->
  0 <= amount this -> amount this * 100 <= MAX_SAFE_INTEGER ->
  Forall2 integer_value ps ks ->
  Forall (fun k => 0 <= k /\ (100 | amount this * k)) ks ->
  fold_right Z.add 0 ks = 100 ->
  exists parts,
    Money.split this (Some ps) = Ok parts /\
    List.map amount parts = List.map (fun k => amount this * k / 100) ks /\
    fold_right Z.add 0 (List.map amount parts) = amount this.
Proof.
  intros C P0 S F P Sum.
  pose proof (constructed_integer this C) as Vc.
  assert (Forall (fun k => 0 <= k) ks) as Pk.
  { eapply Forall_impl; [|exact P]. intros k [H _]. exact H. }
  pose proof (allocations_of_whole_shares this (amount this) Vc (conj P0 S) ps ks
                (Money.cents this) (amount this) F P Vc ltac:(lia) ltac:(nia) ltac:(lia))
    as A.
  destruct (split_returns_one_part_per_portion this ps C) as [[_ R] K].
  destruct R as [parts H].
  - split; [|split].
    + intros ->. inversion F; subst. cbn in Sum. lia.
    + assert (integer_value 0%float 0) as V0 by reflexivity.
      pose proof (fold_add_integers ps ks 0%float 0 F V0 Pk ltac:(lia)
                    ltac:(rewrite Sum; reflexivity)) as Vs.
      rewrite (num_eq_integers _ _ _ _ Vs hundred_integer), Sum. reflexivity.
    + exact (Forall2_finite _ _ A).
  - exists parts. split; [exact H|].
    destruct (K parts H) as [_ [M _]].
    pose proof (Forall2_stored parts _ _ M A) as E. split; [exact E|].
    rewrite E. pose proof (sum_of_shares (amount this) ks P) as T.
    rewrite Sum in T. lia.
Qed.

(* ================================================================= *)
(** * The recursion of [simplifyFraction] ends *)

(** A value of at most 53 bits has a canonical mantissa and exponent. *)
Lemma canonical_exists r e :
  0 < r < 2 ^ 53 -> -1074 <= e <= 971 ->
  exists m' e', bounded prec emax m' e' = true /\ e' <= e /\
                Z.pos m' = r * 2 ^ (e - e').
Proof.
  intros R E. destruct r as [|p|p]; try lia.
  pose proof (digits2_bounds p) as D.
  set (d := Z.pos (digits2_pos p)) in *.
  assert (0 < d) by (unfold d; lia).
  assert (d <= 53) as D53.
  { destruct (Z.le_gt_cases d 53) as [|G]; [assumption|exfalso].
    assert (2 ^ 53 <= 2 ^ (d - 1)) by (apply Z.pow_le_mono_r; lia). lia. }
  set (e' := Z.max (d + e - 53) (-1074)).
  assert (e' <= e) as Le by (unfold e'; lia).
  pose proof (pow2_pos (e - e') ltac:(lia)) as P.
  assert (0 < Z.pos p * 2 ^ (e - e')) as Pm by nia.
  exists (Z.to_pos (Z.pos p * 2 ^ (e - e'))), e'.
  assert (Z.pos (Z.to_pos (Z.pos p * 2 ^ (e - e'))) = Z.pos p * 2 ^ (e - e')) as Em
    by (apply Z2Pos.id; exact Pm).
  split; [|split; [exact Le|exact Em]].
  apply bounded_intro; [|unfold e'; lia].
  rewrite digits2_log2, Em, digits_shift by lia.
  pose proof (digits2_log2 p) as DL. fold d in DL. unfold e' in *. lia.
Qed.

Lemma scaled_nonneg x n : scaled x n -> 0 <= n.
Proof.
  unfold scaled. destruct (Prim2SF x) as [s|s| |s m e] eqn:E; try contradiction.
  - lia.
  - destruct (bounded_range m e (finite_bounded _ _ _ _ E)) as [L _].
    pose proof (pow2_pos (e + 1074) ltac:(lia)). nia.
Qed.

Lemma truthy_scaled b n : scaled b n -> truthy (JNum b) = negb (n =? 0).
Proof.
  unfold scaled. intro V. cbn [truthy].
  assert (Prim2SF b <> S754_nan) as N by (intro E; rewrite E in V; exact V).
  apply not_nan_spec in N. rewrite N, orb_false_r. f_equal.
  unfold PrimFloat.is_zero. rewrite FloatAxioms.eqb_spec. unfold SFeqb.
  change (Prim2SF zero) with (S754_zero false).
  destruct (Prim2SF b) as [s|s| |s m e] eqn:E; try contradiction.
  - subst n. reflexivity.
  - destruct (bounded_range m e (finite_bounded _ _ _ _ E)) as [L _].
    pose proof (pow2_pos (e + 1074) ltac:(lia)).
    destruct (Z.eqb_spec n 0); [nia|]. destruct s; reflexivity.
Qed.

(** The remainder is exact. *)
Lemma rem_scaled a b na nb :
  scaled a na -> scaled b nb -> 0 < nb -> scaled (rem a b) (na mod nb).
Proof.
  intros Va Vb Pb. unfold rem.
  pose proof Va as Va'. pose proof Vb as Vb'. unfold scaled in Va', Vb'.
  destruct (Prim2SF a) as [sa|sa| |sa ma ea] eqn:Ea; try contradiction;
    destruct (Prim2SF b) as [sb|sb| |sb mb eb] eqn:Eb; try contradiction; try lia.
  - subst na. rewrite Z.mod_0_l by lia. exact Va.
  - destruct (bounded_range ma ea (finite_bounded _ _ _ _ Ea)) as [La [Ua _]].
    destruct (bounded_range mb eb (finite_bounded _ _ _ _ Eb)) as [Lb [Ub _]].
    destruct (bounded_inv ma ea (finite_bounded _ _ _ _ Ea)) as [_ Ta].
    set (e := Z.min ea eb).
    set (A := Z.pos ma * 2 ^ (ea - e)). set (B := Z.pos mb * 2 ^ (eb - e)).
    pose proof (pow2_pos (ea - e) ltac:(unfold e; lia)) as Pa.
    pose proof (pow2_pos (eb - e) ltac:(unfold e; lia)) as Pb'.
    pose proof (pow2_pos (e + 1074) ltac:(unfold e; lia)) as Ps.
    assert (0 < A) as PA by (unfold A; nia).
    assert (0 < B) as PB by (unfold B; nia).
    assert (na = A * 2 ^ (e + 1074)) as Na.
    { rewrite Va'. unfold A. rewrite <- Z.mul_assoc, <- Z.pow_add_r by (unfold e; lia).
      f_equal. f_equal. lia. }
    assert (nb = B * 2 ^ (e + 1074)) as Nb.
    { rewrite Vb'. unfold B. rewrite <- Z.mul_assoc, <- Z.pow_add_r by (unfold e; lia).
      f_equal. f_equal. lia. }
    assert (na mod nb = A mod B * 2 ^ (e + 1074)) as M.
    { rewrite Na, Nb. apply Z.mul_mod_distr_r; lia. }
    pose proof (Z.mod_pos_bound A B PB) as R.
    assert (A mod B <= A) as RA by (apply Z.mod_le; lia).
    assert (A mod B < 2 ^ 53) as R53.
    { destruct (Z.le_ge_cases ea eb).
      - assert (A = Z.pos ma) as EA.
        { unfold A. replace (ea - e) with 0 by (unfold e; lia). simpl. lia. }
        lia.
      - assert (B = Z.pos mb) as EB.
        { unfold B. replace (eb - e) with 0 by (unfold e; lia). simpl. lia. }
        lia. }
    assert (-1074 <= e <= 971) as Re by (unfold e; lia).
    set (r := A mod B) in *. clearbody r. clearbody A B. clearbody e.
    destruct (Z.eqb_spec r 0) as [Z0|NZ].
    + rewrite M, Z0. destruct sa; reflexivity.
    + destruct (canonical_exists r e ltac:(lia) Re) as [m' [e' [Bm [Le Em]]]].
      assert (Z.abs (if sa then - r else r) * 2 ^ (e - e')
              = Z.pos m' * 2 ^ (e' - e')) as V.
      { rewrite Z.sub_diag, Z.mul_1_r, Em. destruct sa; f_equal; lia. }
      rewrite (binary_normalize_exact _ e m' e' e' Bm Le (Z.le_refl e') V).
      unfold scaled. rewrite Prim2SF_SF2Prim by exact Bm.
      destruct (bounded_range m' e' Bm) as [Le' _].
      rewrite M, Em, <- Z.mul_assoc, <- Z.pow_add_r by lia.
      f_equal. f_equal. lia.
Qed.

(** Euclid's algorithm on two finite numbers, the larger first: each
    call halves the product of the two. *)
Lemma gcd_ends (n : nat) :
  forall (depth : nat) a b na nb,
    (n < depth)%nat ->
    scaled a na -> scaled b nb -> nb <= na -> na * nb < 2 ^ Z.of_nat n ->
    exists g, Odds.findGreatestCommonDen depth a b = Ok g.
Proof.
  induction n as [|n IH]; intros depth a b na nb D Va Vb B P;
    pose proof (scaled_nonneg b nb Vb) as Pb;
    (destruct depth as [|depth]; [lia|]); rewrite gcd_step;
    rewrite (truthy_scaled b nb Vb);
    destruct (Z.eqb_spec nb 0) as [->|N]; cbn [negb];
    try (exists a; reflexivity).
  - exfalso. change (2 ^ Z.of_nat 0) with 1 in P. nia.
  - pose proof (Z.mod_pos_bound na nb ltac:(lia)) as R.
    pose proof (Z.div_mod na nb N) as E.
    assert (1 <= na / nb) as Q by (apply Z.div_le_lower_bound; lia).
    apply (IH depth b (rem a b) nb (na mod nb)); try assumption; try lia.
    + apply rem_scaled; assumption || lia.
    + rewrite Nat2Z.inj_succ, Z.pow_succ_r in P by lia. nia.
Qed.

Lemma hundred_scaled : scaled 100 (100 * 2 ^ 1074).
Proof. vm_compute. reflexivity. Qed.

Lemma rem_not_finite a b :
  isFinite_num a = false -> isFinite_num b = true -> rem a b = nan.
Proof.
  intros Fa Fb. apply isFinite_num_spec in Fb.
  assert (~ is_number_sf (Prim2SF a)) as Fa'.
  { intro E. apply isFinite_num_spec in E. congruence. }
  unfold rem.
  destruct (Prim2SF a) as [sa|sa| |sa ma ea]; cbn in Fa'; try tauto;
    destruct (Prim2SF b) as [sb|sb| |sb mb eb]; cbn in Fb; try tauto; reflexivity.
Qed.

Lemma finite_scaled a : isFinite_num a = true -> exists n, scaled a n.
Proof.
  intro F. apply isFinite_num_spec in F. unfold scaled.
  destruct (Prim2SF a) as [s|s| |s m e]; cbn in F; try tauto; eexists; reflexivity.
Qed.

(** Whatever the numerator, the search for the common divisor of it and
    100 ends well within the depth of the stack. *)
Lemma gcd_with_hundred_ends a :
  exists g, Odds.findGreatestCommonDen Odds.stack_depth a 100 = Ok g.
Proof.
  assert (exists depth, Odds.stack_depth = S (S depth) /\ (2162 < S depth)%nat)
    as [depth [-> D]].
  { exists (pred (pred Odds.stack_depth)). split; [reflexivity|].
    apply Nat.ltb_lt. vm_compute. reflexivity. }
  rewrite gcd_step. change (truthy (JNum 100)) with true. cbv iota.
  destruct (isFinite_num a) eqn:F.
  - destruct (finite_scaled a F) as [n V].
    pose proof (rem_scaled a 100 n _ V hundred_scaled ltac:(vm_compute; reflexivity)) as Vr.
    pose proof (Z.mod_pos_bound n (100 * 2 ^ 1074) ltac:(vm_compute; reflexivity)) as R.
    apply (gcd_ends 2162 (S depth) 100 (rem a 100) _ _ D hundred_scaled Vr); [lia|].
    apply Z.lt_le_trans with ((100 * 2 ^ 1074) * (100 * 2 ^ 1074)).
    + apply Z.mul_lt_mono_pos_l; [vm_compute; reflexivity|lia].
    + vm_compute. discriminate.
  - rewrite (rem_not_finite a 100 F eq_refl), gcd_step.
    change (truthy (JNum nan)) with false. eexists. reflexivity.
Qed.

Lemma dToF_returns p : exists f, Odds.dToF p = Ok f.
Proof.
  unfold Odds.dToF, Odds.simplifyFraction.
  destruct (negb (truthy (JNum 100)) || _ || _); [eexists; reflexivity|].
  destruct (gcd_with_hundred_ends
              (Math_round (StringToNumber (toFixed (StringToNumber p) 2) * 100) - 100)%float)
    as [g ->].
  eexists. reflexivity.
Qed.

(* ================================================================= *)
(** * What the constructor of [Odds] returns *)

(** [X21] The decimal format: a price that is neither a number nor a
    string is refused as an invalid price, one that coerces to [NaN] or
    to an infinity as not finite, one that is zero or negative as not
    positive; every other price gives an [Odds], whose decimal field is
    the price with two decimals. *)
Theorem decimal_odds_outcomes (price : value) :
  if negb (String.eqb (typeof price) "string") && negb (String.eqb (typeof price) "number")
  then Odds.construct price None = Throw (Odds.E_invalidPrice price)
  else if isNaN price || negb (isFinite price)
  then Odds.construct price None = Throw (Odds.E_nan (ToNumber price))
  else if num_le (ToNumber price) zero
  then Odds.construct price None = Throw Odds.E_negative
  else exists f,
      Odds.construct price None
      = Ok {| Odds.d := toFixed (ToNumber price) 2;
              Odds.f := f;
              Odds.a := Odds.dToA (toFixed (ToNumber price) 3) |}.
Proof.
  unfold Odds.construct, Odds.validateD, bind. cbn [is_empty orb].
  destruct (negb _ && negb _); [reflexivity|].
  destruct (isNaN price || negb (isFinite price)); [reflexivity|].
  destruct (num_le (ToNumber price) zero); [reflexivity|].
  destruct (dToF_returns (toFixed (ToNumber price) 3)) as [f ->].
  exists f. reflexivity.
Qed.


(* ================================================================= *)
(** * What the constructor of [Money] accepts *)

(** [X23] The constructor returns a [Money] exactly for the finite
    numbers.  A numeric string gets through the validations, which allow
    strings, and then fails on [cents.toFixed]: strings have no such
    method. *)
Theorem only_finite_numbers_make_money (v : value) (c : option string) :
  ((exists m, Money.construct v c = Ok m)
   <-> exists x, v = JNum x /\ isFinite_num x = true) /\
  forall s,
    v = JStr s -> truthy v = true -> isFinite v = true ->
    Money.construct v c = Throw (Money.TypeError "cents.toFixed is not a function").
Proof.
  split; [split|].
  - intros [m H]. destruct (construct_inv _ _ _ H) as [x [E [F _]]]. eauto.
  - intros [x [-> F]]. destruct (construct_finite c x F) as [m [H _]]. eauto.
  - intros s -> T F. unfold Money.construct, Money.validateNumber,
      Money.validateInfinity, bind.
    rewrite T, F. cbn [negb andb typeof].
    unfold isFinite in F. unfold isNaN, isNaN_num.
    rewrite (finite_not_nan _ F). reflexivity.
Qed.

(* ================================================================= *)
(** * The sentinel of the american field *)

(** [X24] In the decimal format the american field is the sentinel ["-"]
    exactly when the price, written with three decimals, reads as 1. *)
Theorem american_sentinel_exactly_at_one (price : value) (o : Odds.t) :
  Odds.construct price None = Ok o ->
  (Odds.a o = "-"
   <-> num_eq (StringToNumber (toFixed (ToNumber price) 3)) 1 = true).
Proof.
  intro H. pose proof (decimal_odds_outcomes price) as K.
  destruct (negb _ && negb _); [congruence|].
  destruct (isNaN price || negb (isFinite price)); [congruence|].
  destruct (num_le (ToNumber price) zero); [congruence|].
  destruct K as [f K]. rewrite K in H. injection H as <-. cbn [Odds.a].
  split; [apply dToA_sentinel|].
  intro E. unfold Odds.dToA. rewrite E. reflexivity.
Qed.

Lemma american_sentinel_exactly_at_one_witness :
  let o := {| Odds.d := "1.00"; Odds.f := Some "0/1"; Odds.a := "-" |} in
  Odds.construct (JNum 1) None = Ok o /\
  (Odds.a o = "-"
   <-> num_eq (StringToNumber (toFixed (ToNumber (JNum 1)) 3)) 1 = true).
Proof.
  intro o.
  assert (Odds.construct (JNum 1) None = Ok o) as H by (vm_compute; reflexivity).
  split; [exact H|]. exact (american_sentinel_exactly_at_one (JNum 1) o H).
Defined.

(* ================================================================= *)
(** * The further statements on concrete inputs *)

(** Two hundred and three hundred subunits, in dollars. *)
Lemma two_hundred_constructed :
  constructed {| Money.cents := 200; Money.currency := "USD" |}.
Proof. exists (JNum 200), (Some "USD"). vm_compute. reflexivity. Defined.

Lemma three_hundred_constructed :
  constructed {| Money.cents := 300; Money.currency := "USD" |}.
Proof. exists (JNum 300), None. vm_compute. reflexivity. Defined.

Lemma three_is_an_integer : integer_value 3 3.
Proof. vm_compute. split; reflexivity. Defined.

Lemma plus_and_minus_outcomes_witness :
  let a := {| Money.cents := 200; Money.currency := "USD" |} in
  let b := {| Money.cents := 300; Money.currency := "USD" |} in
  constructed a /\
  exists r, Money.plus a (Money.Instance b) = Ok r /\
            Money.currency r = Money.currency a /\
            amount r = nearest_integer (Money.cents a + Money.cents b).
Proof.
  intros a b. split; [exact two_hundred_constructed|].
  exact (proj1 (plus_and_minus_outcomes a (Money.Instance b) two_hundred_constructed)
           three_hundred_constructed).
Defined.

Lemma plus_adds_safe_amounts_witness :
  let a := {| Money.cents := 200; Money.currency := "USD" |} in
  let b := {| Money.cents := 300; Money.currency := "USD" |} in
  constructed a /\ constructed b /\ Money.currency a = Money.currency b /\
  Z.abs (amount a + amount b) <= MAX_SAFE_INTEGER /\
  exists s, Money.plus a (Money.Instance b) = Ok s /\
            amount s = amount a + amount b /\
            Money.currency s = Money.currency a.
Proof.
  intros a b.
  assert (Z.abs (amount a + amount b) <= MAX_SAFE_INTEGER) as S
    by (vm_compute; discriminate).
  split; [exact two_hundred_constructed|]. split; [exact three_hundred_constructed|].
  split; [reflexivity|]. split; [exact S|].
  exact (plus_adds_safe_amounts a b two_hundred_constructed three_hundred_constructed
           eq_refl S).
Defined.

Lemma minus_subtracts_safe_amounts_witness :
  let a := {| Money.cents := 200; Money.currency := "USD" |} in
  let b := {| Money.cents := 300; Money.currency := "USD" |} in
  constructed a /\ constructed b /\ Money.currency a = Money.currency b /\
  Z.abs (amount a - amount b) <= MAX_SAFE_INTEGER /\
  exists s, Money.minus a (Money.Instance b) = Ok s /\
            amount s = amount a - amount b /\
            Money.currency s = Money.currency a.
Proof.
  intros a b.
  assert (Z.abs (amount a - amount b) <= MAX_SAFE_INTEGER) as S
    by (vm_compute; discriminate).
  split; [exact two_hundred_constructed|]. split; [exact three_hundred_constructed|].
  split; [reflexivity|]. split; [exact S|].
  exact (minus_subtracts_safe_amounts a b two_hundred_constructed
           three_hundred_constructed eq_refl S).
Defined.

Lemma plus_commutes_witness :
  let a := {| Money.cents := 200; Money.currency := "USD" |} in
  let b := {| Money.cents := 300; Money.currency := "USD" |} in
  Money.currency a = Money.currency b /\
  Money.plus a (Money.Instance b) = Money.plus b (Money.Instance a).
Proof.
  intros a b. split; [reflexivity|]. exact (plus_commutes a b eq_refl).
Defined.

Lemma minus_itself_is_zero_witness :
  let a := {| Money.cents := 200; Money.currency := "USD" |} in
  constructed a /\
  Money.minus a (Money.Instance a)
  = Ok {| Money.cents := zero; Money.currency := Money.currency a |}.
Proof.
  intro a. split; [exact two_hundred_constructed|].
  exact (minus_itself_is_zero a two_hundred_constructed).
Defined.

Lemma times_outcomes_witness :
  let a := {| Money.cents := 200; Money.currency := "USD" |} in
  constructed a /\
  exists r, Money.times a (JStr "1.5") = Ok r /\
            Money.currency r = Money.currency a /\
            amount r = nearest_integer (Money.cents a * ToNumber (JStr "1.5")).
Proof.
  intro a. split; [exact two_hundred_constructed|].
  exact (times_outcomes a (JStr "1.5") two_hundred_constructed).
Defined.

Lemma times_multiplies_safe_amounts_witness :
  let a := {| Money.cents := 200; Money.currency := "USD" |} in
  constructed a /\ integer_value 3 3 /\
  Z.abs (amount a * 3) <= MAX_SAFE_INTEGER /\
  exists r, Money.times a (JNum 3) = Ok r /\
            amount r = amount a * 3 /\
            Money.currency r = Money.currency a.
Proof.
  intro a.
  assert (Z.abs (amount a * 3) <= MAX_SAFE_INTEGER) as S by (vm_compute; discriminate).
  split; [exact two_hundred_constructed|]. split; [exact three_is_an_integer|].
  split; [exact S|].
  exact (times_multiplies_safe_amounts a 3 3 two_hundred_constructed
           three_is_an_integer S).
Defined.

Lemma divide_outcomes_witness :
  let a := {| Money.cents := 200; Money.currency := "USD" |} in
  constructed a /\
  Money.divide a (JNum 0) = Throw Money.E_zeroDivision.
Proof.
  intro a. split; [exact two_hundred_constructed|].
  exact (divide_outcomes a (JNum 0) two_hundred_constructed).
Defined.

Lemma divide_by_a_divisor_is_exact_witness :
  let a := {| Money.cents := 300; Money.currency := "USD" |} in
  constructed a /\ integer_value 3 3 /\
  Z.abs (amount a) <= MAX_SAFE_INTEGER /\ Z.abs 3 <= MAX_SAFE_INTEGER /\
  3 <> 0 /\ (3 | amount a) /\
  exists r, Money.divide a (JNum 3) = Ok r /\
            amount r = amount a / 3 /\
            Money.currency r = Money.currency a.
Proof.
  intro a.
  assert (Z.abs (amount a) <= MAX_SAFE_INTEGER) as S by (vm_compute; discriminate).
  assert (Z.abs 3 <= MAX_SAFE_INTEGER) as S3 by (vm_compute; discriminate).
  assert (3 <> 0) as N by discriminate.
  assert (3 | amount a) as D by (exists 100; reflexivity).
  split; [exact three_hundred_constructed|]. split; [exact three_is_an_integer|].
  split; [exact S|]. split; [exact S3|]. split; [exact N|]. split; [exact D|].
  exact (divide_by_a_divisor_is_exact a 3 3 three_hundred_constructed
           three_is_an_integer S S3 N D).
Defined.

Lemma perc_outcomes_witness :
  let a := {| Money.cents := 200; Money.currency := "USD" |} in
  constructed a /\
  exists r, Money.perc a (JNum 3.33) = Ok r /\
            Money.currency r = Money.currency a /\
            amount r = nearest_integer (Money.cents a * 3.33 / 100).
Proof.
  intro a. split; [exact two_hundred_constructed|].
  exact (perc_outcomes a (JNum 3.33) two_hundred_constructed).
Defined.

Lemma perc_of_a_whole_share_is_exact_witness :
  let a := {| Money.cents := 200; Money.currency := "USD" |} in
  constructed a /\ integer_value 3 3 /\
  Z.abs (amount a * 3) <= MAX_SAFE_INTEGER /\ (100 | amount a * 3) /\
  exists r, Money.perc a (JNum 3) = Ok r /\
            amount r = amount a * 3 / 100 /\
            Money.currency r = Money.currency a.
Proof.
  intro a.
  assert (Z.abs (amount a * 3) <= MAX_SAFE_INTEGER) as S by (vm_compute; discriminate).
  assert (100 | amount a * 3) as D by (exists 6; reflexivity).
  split; [exact two_hundred_constructed|]. split; [exact three_is_an_integer|].
  split; [exact S|]. split; [exact D|].
  exact (perc_of_a_whole_share_is_exact a 3 3 two_hundred_constructed
           three_is_an_integer S D).
Defined.

Lemma split_returns_one_part_per_portion_witness :
  let a := {| Money.cents := 200; Money.currency := "USD" |} in
  let ps := [50; 25; 25]%float in
  constructed a /\
  forall parts,
    Money.split a (Some ps) = Ok parts ->
    List.length parts = List.length ps /\
    List.map Money.getSubunit parts
    = List.map (fun x => StringToNumber (toFixed x 0))
               (Money.allocations a ps (Money.cents a)) /\
    Forall (fun m => Money.currency m = Money.currency a /\
                     integer_value (Money.getSubunit m) (amount m)) parts.
Proof.
  intros a ps. split; [exact two_hundred_constructed|].
  exact (proj2 (split_returns_one_part_per_portion a ps two_hundred_constructed)).
Defined.

Lemma split_parts_stay_within_the_amount_witness :
  let a := {| Money.cents := 200; Money.currency := "USD" |} in
  let ps := [50; 25; 25]%float in
  let parts := [ {| Money.cents := 100; Money.currency := "USD" |};
                 {| Money.cents := 50; Money.currency := "USD" |};
                 {| Money.cents := 50; Money.currency := "USD" |} ] in
  constructed a /\ 0 <= amount a <= MAX_SAFE_INTEGER /\
  Forall (fun p => isFinite_num p = true /\ num_lt p zero = false) ps /\
  Money.split a (Some ps) = Ok parts /\
  Forall (fun m => 0 <= amount m <= amount a) parts.
Proof.
  intros a ps parts.
  assert (0 <= amount a <= MAX_SAFE_INTEGER) as S
    by (vm_compute; split; discriminate).
  assert (Forall (fun p => isFinite_num p = true /\ num_lt p zero = false) ps) as P
    by (repeat constructor).
  assert (Money.split a (Some ps) = Ok parts) as H by (vm_compute; reflexivity).
  split; [exact two_hundred_constructed|]. split; [exact S|]. split; [exact P|].
  split; [exact H|].
  exact (split_parts_stay_within_the_amount a ps parts two_hundred_constructed S P H).
Defined.

Lemma fifty_is_an_integer : integer_value 50 50.
Proof. vm_compute. split; reflexivity. Defined.

Lemma split_of_whole_shares_is_exact_witness :
  let a := {| Money.cents := 200; Money.currency := "USD" |} in
  let ps := [50; 50]%float in
  let ks := [50; 50] in
  constructed a /\ 0 <= amount a /\ amount a * 100 <= MAX_SAFE_INTEGER /\
  Forall2 integer_value ps ks /\
  Forall (fun k => 0 <= k /\ (100 | amount a * k)) ks /\
  fold_right Z.add 0 ks = 100 /\
  exists parts,
    Money.split a (Some ps) = Ok parts /\
    List.map amount parts = List.map (fun k => amount a * k / 100) ks /\
    fold_right Z.add 0 (List.map amount parts) = amount a.
Proof.
  intros a ps ks.
  assert (0 <= amount a) as P0 by (vm_compute; discriminate).
  assert (amount a * 100 <= MAX_SAFE_INTEGER) as S by (vm_compute; discriminate).
  assert (Forall2 integer_value ps ks) as F
    by (repeat constructor; exact fifty_is_an_integer).
  assert (Forall (fun k => 0 <= k /\ (100 | amount a * k)) ks) as D
    by (repeat constructor; try discriminate; exists 100; reflexivity).
  split; [exact two_hundred_constructed|]. split; [exact P0|]. split; [exact S|].
  split; [exact F|]. split; [exact D|]. split; [reflexivity|].
  exact (split_of_whole_shares_is_exact a ps ks two_hundred_constructed P0 S F D eq_refl).
Defined.

Lemma comparisons_agree_witness :
  let a := {| Money.cents := 200; Money.currency := "USD" |} in
  let b := {| Money.cents := 300; Money.currency := "USD" |} in
  constructed a /\ constructed b /\
  exists c : comparison,
    Money.lt a b = Ok (is_lt c) /\
    Money.eq a b = is_eq c /\
    Money.gt a b = Ok (is_gt c) /\
    Money.lte a b = Ok (negb (is_gt c)) /\
    Money.gte a b = Ok (negb (is_lt c)).
Proof.
  intros a b. split; [exact two_hundred_constructed|].
  split; [exact three_hundred_constructed|].
  exact (comparisons_agree a b two_hundred_constructed three_hundred_constructed).
Defined.

Lemma eq_is_an_equivalence_witness :
  let a := {| Money.cents := 200; Money.currency := "USD" |} in
  let b := {| Money.cents := 300; Money.currency := "USD" |} in
  constructed a /\
  Money.eq a a = true /\
  Money.eq a b = Money.eq b a /\
  (Money.eq a b = true -> Money.eq b a = true -> Money.eq a a = true).
Proof.
  intros a b. split; [exact two_hundred_constructed|].
  exact (eq_is_an_equivalence a b a two_hundred_constructed).
Defined.

Lemma simplifyFraction_gives_lowest_terms_witness :
  0 <= 275 < 2 ^ 53 /\ 0 < 100 < 2 ^ 53 /\
  Odds.simplifyFraction (of_Z 275) (of_Z 100)
  = Ok (Some (NumberToString (of_Z (275 / Z.gcd 275 100)) ++ "/"
              ++ NumberToString (of_Z (100 / Z.gcd 275 100)))) /\
  Z.gcd (275 / Z.gcd 275 100) (100 / Z.gcd 275 100) = 1.
Proof.
  assert (0 <= 275 < 2 ^ 53) as Sn by (split; [discriminate|reflexivity]).
  assert (0 < 100 < 2 ^ 53) as Sd by (split; reflexivity).
  split; [exact Sn|]. split; [exact Sd|].
  exact (simplifyFraction_gives_lowest_terms 275 100 Sn Sd).
Defined.

Lemma two_decimal_prices_convert_witness :
  101 <= 375 <= 1000 /\
  Odds.construct (JNum (StringToNumber (two_decimals 375))) (Some "d")
  = Ok {| Odds.d := two_decimals 375;
          Odds.f := Some (lowest_terms (375 - 100) 100);
          Odds.a := american_quote 375 |} /\
  (exists o, Odds.construct (JStr (lowest_terms (375 - 100) 100)) (Some "f") = Ok o /\
             Odds.d o = two_decimals 375) /\
  (exists o, Odds.construct (JStr (american_quote 375)) (Some "a") = Ok o /\
             Odds.d o = two_decimals 375).
Proof.
  assert (101 <= 375 <= 1000) as B by (split; discriminate).
  split; [exact B|]. exact (two_decimal_prices_convert 375 B).
Defined.
